(** * MindMeld natural language processor: a shallow embedding of
      [mindmeld/components/nlp.py] and the properties of its processing engine.

    The file has three parts.  Part I embeds the code: the exceptions and
    the effects of the module, the entity data model, n-best alignment,
    label selection at the domain and intent tiers, the extraction of
    allowed intents, the list dispatcher, the processor records with their
    lifecycle and the per-tier [process_query], then the tokenizer and the
    parser of the markup language, [create_query] and the per-tier
    [process], and the constructors.  Part II states and proves the
    properties of the processing engine.  Part III proves more about the
    code: alignment, the tiers of [process_query], the lifecycle of the
    whole tree, the text front end, the markup language and construction. *)

From Stdlib Require Import ZArith Floats Ascii String.
From stdpp Require Import gmap strings list fin_maps sorting pretty.

Local Open Scope string_scope.
Local Open Scope list_scope.
Local Open Scope Z_scope.

#[local] Set Warnings "-clear-no-such-hyp".

(* ===================================================================== *)
(** * Part I.  The embedding                                              *)
(* ===================================================================== *)

(** ** Exceptions and results *)

(** The exceptions the module raises or lets through.  [ProcessorError] and
    [AllowedNlpClassesKeyError] are the two of [mindmeld.exceptions] that
    [nlp.py] raises itself; the others are the built-in exceptions of the
    Python operations the code performs (sequence unpacking, subscripting,
    attribute access, the bare [Exception] of [_process_list]),
    [EntityResolverConnectionError] is the resolver's own, and
    [ExternalError] stands for any other failure raised inside one of the
    external components (classifier, resolver, query cache, pool). *)
Inductive exn : Type :=
| ProcessorError (msg : string)
| AllowedNlpClassesKeyError (msg : string)
| ValueError (msg : string)
| IndexError
| KeyError (key : string)
| AttributeError
| TypeError
| NotImplementedError
| EntityResolverConnectionError
| Exception
| ExternalError (msg : string).

Inductive result (A : Type) : Type :=
| Ok (a : A)
| Raise (e : exn).
Arguments Ok {A} a.
Arguments Raise {A} e.

Definition is_ok {A} (r : result A) : bool :=
  match r with Ok _ => true | Raise _ => false end.

(** ** The data model *)

Definition Label := string.
(** Confidence scores are Python floats. *)
Definition Score := float.

(** Modelled from the spec: the [Query] of [mindmeld.core] is not part of
    these sources; the spec describes it as an immutable input unit built by
    the front end.  Only its raw text is kept. *)
Record Query : Type := mkQuery { query_text : string }.

(** Modelled from the spec: [Span] of [mindmeld.core], a character range
    [start, end] into one text form of a query. *)
Record Span : Type := mkSpan { start : Z; end_ : Z }.

(** Modelled from the spec: [Entity] of [mindmeld.core]: a type, an optional
    role and an optional resolved value (a string here), with the surface
    text. *)
Record Entity : Type := mkEntity {
  text : string;
  type : Label;
  role : option Label;
  value : option string
}.

(** Modelled from the spec: [QueryEntity] of [mindmeld.core], an entity
    anchored to a span of a query. *)
Record QueryEntity : Type := mkQueryEntity {
  span : Span;
  entity : Entity
}.

Definition set_role (r : option Label) (e : QueryEntity) : QueryEntity :=
  mkQueryEntity (span e) (mkEntity (text (entity e)) (type (entity e)) r (value (entity e))).

Definition set_value (v : option string) (e : QueryEntity) : QueryEntity :=
  mkQueryEntity (span e) (mkEntity (text (entity e)) (type (entity e)) (role (entity e)) v).

(** ** N-best entity alignment: [IntentProcessor._align_entities]

    The function only reads [span.start], [span.end] and [entity.type] of the
    objects it groups, so it is written over any type [E] of entity objects
    with these two readers: the records above, or references into a store of
    them. *)
Section Align.
Context {E : Type} (span_of : E → Span) (type_of : E → Label).

(** [if n_start == n_end: n_end += 1] *)
Definition widened_end (s : Span) : Z :=
  if start s =? end_ s then end_ s + 1 else end_ s.

(** The test of the inner loop:
    [min(n_end, ref_end) - max(ref_start, n_start) > 0 and
     ref_entity.entity.type == entity.entity.type]. *)
Definition aligns (ent ref_entity : E) : bool :=
  let n_start := start (span_of ent) in
  let n_end := widened_end (span_of ent) in
  let ref_start := start (span_of ref_entity) in
  let ref_end := widened_end (span_of ref_entity) in
  (Z.min n_end ref_end - Z.max ref_start n_start >? 0)
  && String.eqb (type_of ref_entity) (type_of ent).

(** The same test in the words of the specification, to compare with
    [aligns]: a match requires the same entity type and
    [min(end_a, end_b) - max(start_a, start_b) > 0], where a zero-length
    span is first widened by one character. *)
Definition spec_widen (s : Span) : Span :=
  if decide (start s = end_ s) then mkSpan (start s) (end_ s + 1) else s.

Definition spec_match (a b : E) : Prop :=
  type_of a = type_of b ∧
  Z.min (end_ (spec_widen (span_of a))) (end_ (spec_widen (span_of b)))
    - Z.max (start (spec_widen (span_of a))) (start (spec_widen (span_of b))) > 0.

(** [for j, ref_entity in enumerate(...)]: the offset [j] of the first
    reference entity of [refs] that the candidate aligns with, counting
    from [j0]; [None] when the loop ends without a [break]. *)
Fixpoint first_aligned (j0 : nat) (refs : list E) (ent : E) : option nat :=
  match refs with
  | [] => None
  | ref_entity :: refs' =>
      if aligns ent ref_entity then Some j0
      else first_aligned (S j0) refs' ent
  end.

(** The inner [for ... enumerate(entities[0][index_to_align:])] loop as a
    whole: the new value of [index_to_align] when a match is found. *)
Definition place (refs : list E) (index_to_align : nat) (ent : E) : option nat :=
  (λ j, (index_to_align + j)%nat) <$> first_aligned 0 (drop index_to_align refs) ent.

(** The body of [for entity in entities_n], on the loop state
    [(index_to_align, aligned_entities)]. *)
Definition align_entity (refs : list E) (st : nat * list (list E)) (ent : E)
  : nat * list (list E) :=
  let '(index_to_align, aligned_entities) := st in
  match place refs index_to_align ent with
  | Some index_to_align' =>
      (index_to_align', alter (λ group, group ++ [ent]) index_to_align' aligned_entities)
  | None => (index_to_align, aligned_entities)
  end.

(** The body of [for entities_n in entities[1:]]: the pointer starts at 0
    for every transcript. *)
Definition align_transcript (refs : list E) (aligned_entities : list (list E))
    (entities_n : list E) : list (list E) :=
  snd (foldl (align_entity refs) (0%nat, aligned_entities) entities_n).

Definition _align_entities (nbest_transcripts_enabled : bool)
    (entities : list (list E)) : result (list (list E)) :=
  match entities with
  | [] => Raise IndexError
  | refs :: rest =>
      let aligned_entities := (λ e, [e]) <$> refs in
      if (1 <? Z.of_nat (length entities)) && nbest_transcripts_enabled
      then Ok (foldl (align_transcript refs) aligned_entities rest)
      else Ok aligned_entities
  end.

(** The trace of the loop over one transcript: the pointer and the
    placement of each candidate, in order.  [(p, o)] says the scan of that
    candidate started at reference index [p] and ended at [o], [None] when
    it found no reference entity.  [_align_entities_trace] relates the
    trace to the loop. *)
Fixpoint placements (refs : list E) (index_to_align : nat) (entities_n : list E)
  : list (nat * option nat) :=
  match entities_n with
  | [] => []
  | ent :: rest =>
      let o := place refs index_to_align ent in
      (index_to_align, o) :: placements refs (default index_to_align o) rest
  end.

(** The reference-group indices at which the candidates of one transcript
    are placed, in candidate order. *)
Definition placed_indices (refs : list E) (entities_n : list E) : list nat :=
  omap snd (placements refs 0 entities_n).

(** One step of the loop read off its trace: the candidate is appended to
    the group its placement names. *)
Definition apply_placement (aligned_entities : list (list E))
    (c : E * (nat * option nat)) : list (list E) :=
  match c.2.2 with
  | Some i => alter (λ group, group ++ [c.1]) i aligned_entities
  | None => aligned_entities
  end.

(** The candidates that a trace places at the reference index [i], in the
    order of the trace. *)
Definition placed_at (i : nat) (trace : list (E * (nat * option nat))) : list E :=
  omap (λ c : E * (nat * option nat), if decide (c.2.2 = Some i) then Some c.1 else None)
       trace.

(** The shape of the alignment groups: one group per reference entity,
    headed by it, followed by candidates satisfying [P] that align with
    it. *)
Definition grouped (P : E → Prop) (refs : list E) (groups : list (list E)) : Prop :=
  Forall2 (λ r g, ∃ appended, g = r :: appended ∧
                  Forall (λ c, P c ∧ aligns c r = true) appended) refs groups.
End Align.

Definition align_query_entities := _align_entities span (λ e : QueryEntity, type (entity e)).

(** ** Effects

    The code reads and writes three kinds of state besides its arguments: the
    external components it consults (classifiers, recognizer, resolver,
    parser, query cache), the entity objects it creates, copies and mutates,
    and the module-level process pool [executor].  A [World] holds them. *)

(** The external components, named by the attribute that holds them and the
    labels of the processor that owns them. *)
Inductive component : Type :=
| domain_clf
| intent_clf (domain : Label)
| entity_rec (domain intent : Label)
| role_clf (domain intent entity_type : Label)
| resolver (entity_type : Label)
| entity_parser (domain intent : Label)
| query_cache.

(** The methods of the classifier contract. *)
Inductive call : Type :=
| call_fit | call_dump | call_load | call_predict | call_predict_proba
| call_parse_entities.

Record World : Type := mkWorld {
  (** the calls made to external components, oldest first *)
  log : list (component * call);
  (** whether a call to an external component fails, and how *)
  faults : component → call → option exn;
  (** the [QueryEntity] objects; a reference is an index into this store *)
  heap : list QueryEntity;
  (** the module-level [executor]: the identity of the current process
      pool, [None] when [num_workers] is 0 *)
  executor : option nat
}.

Definition M (A : Type) : Type := World → result A * World.

Global Instance M_ret : MRet M := λ A (a : A) w, (Ok a, w).
Global Instance M_bind : MBind M := λ A B (k : A → M B) (m : M A) w,
  match m w with
  | (Ok a, w') => k a w'
  | (Raise e, w') => (Raise e, w')
  end.

Definition raise {A} (e : exn) : M A := λ w, (Raise e, w).

(** [try: ... except (Exception, SystemExit):] with a handler that falls
    through: [None] says the body raised. *)
Definition try_except {A} (m : M A) : M (option A) := λ w,
  match m w with
  | (Ok a, w') => (Ok (Some a), w')
  | (Raise _, w') => (Ok None, w')
  end.

(** A call to an external component: it is logged, and fails when the world
    says so. *)
Definition consult (m : component) (c : call) : M unit := λ w,
  let w' := mkWorld (log w ++ [(m, c)]) (faults w) (heap w) (executor w) in
  match faults w m c with
  | Some e => (Raise e, w')
  | None => (Ok (), w')
  end.

(** Entity objects. *)
Definition alloc (v : QueryEntity) : M nat := λ w,
  (Ok (length (heap w)), mkWorld (log w) (faults w) (heap w ++ [v]) (executor w)).

Definition deref (l : nat) : M QueryEntity := λ w,
  match heap w !! l with
  | Some v => (Ok v, w)
  | None => (Raise AttributeError, w)
  end.

Definition update (l : nat) (f : QueryEntity → QueryEntity) : M unit := λ w,
  (Ok (), mkWorld (log w) (faults w) (alter f l (heap w)) (executor w)).

(** [deepcopy(e)] of a [QueryEntity]: a new object with the same content. *)
Definition deepcopy (l : nat) : M nat := v ← deref l; alloc v.

(** [restart_subprocesses()]: the pool is shut down without waiting and a new
    one takes its place. *)
Definition restart_subprocesses : M unit := λ w,
  match executor w with
  | Some pool => (Ok (), mkWorld (log w) (faults w) (heap w) (Some (S pool)))
  | None => (Raise AttributeError, w)
  end.


(** Subscripting a list: [l[i]]. *)
Definition subscript {A} (l : list A) (i : nat) : M A :=
  match l !! i with
  | Some x => mret x
  | None => raise IndexError
  end.

(** ** The list dispatcher: [Processor._process_list] *)

(** What [wait] finds of one future when the timeout expires: still
    pending, done with a pickled value, or done with an exception, which
    [future.result()] raises again. *)
Inductive future_state (V : Type) : Type :=
| Pending
| Returned (v : V)
| Broken.
Arguments Pending {V}.
Arguments Returned {V} v.
Arguments Broken {V}.

(** The behaviour of the process pool during one batch: the futures that the
    successive calls of [executor.submit] return, the state of each future
    when [wait] returns, and the order in which the set [tasks.done] is
    iterated.  The values of type [V] are the pickled results sent back by
    the workers. *)
Record pool_run (V : Type) : Type := mkPoolRun {
  submitted : list nat;
  state_of : nat → future_state V;
  done_order : list nat
}.
Arguments mkPoolRun {V}.
Arguments submitted {V}.
Arguments state_of {V}.
Arguments done_order {V}.

Definition is_pending {V} (s : future_state V) : bool :=
  match s with Pending => true | _ => false end.

(** The futures of [tasks.not_done]. *)
Definition not_done {V} (run : pool_run V) : list nat :=
  filter (λ f, is_pending (state_of run f) = true) (submitted run).


Section ProcessList.
Context {Item V Res : Type}.
(** [unpickle] builds the parent's copy of a worker's result; [func] is
    the method [getattr(self, func)] with its fixed arguments applied. *)
Context (unpickle : V → M Res) (func : Item → M Res).

(** [for idx, item in enumerate(items): ... future_to_idx_map[future] = idx] *)
Definition future_to_idx_map (run : pool_run V) (items : list Item) : gmap nat nat :=
  foldl (λ m (fi : nat * nat), <[fi.1 := fi.2]> m) ∅
        (zip (submitted run) (seq 0 (length items))).

(** The body of [for future in tasks.done]: [future.result()] re-raises
    what broke the worker. *)
Definition collect (run : pool_run V) (idx_map : gmap nat nat)
    (results : list (Item + Res)) (future : nat) : M (list (Item + Res)) :=
  match state_of run future with
  | Returned v =>
      item ← unpickle v;
      match idx_map !! future with
      | Some item_idx =>
          if bool_decide (item_idx < length results)%nat
          then mret (<[item_idx := inr item]> results)
          else raise IndexError
      | None => raise (KeyError "future")
      end
  | _ => raise (ExternalError "BrokenProcessPool")
  end.

Fixpoint collect_all (run : pool_run V) (idx_map : gmap nat nat)
    (results : list (Item + Res)) (futures : list nat) : M (list (Item + Res)) :=
  match futures with
  | [] => mret results
  | future :: futures' =>
      results' ← collect run idx_map results future;
      collect_all run idx_map results' futures'
  end.

(** The body of the [try] block. *)
Definition dispatch (run : pool_run V) (items : list Item) : M (list (Item + Res)) :=
  let results := inl <$> items in
  let idx_map := future_to_idx_map run items in
  if bool_decide (not_done run = [])
  then collect_all run idx_map results (done_order run)
  else raise Exception.

(** [tuple([getattr(self, func)(itm, *args, **kwargs) for itm in items])] *)
Definition in_series (items : list Item) : M (list (Item + Res)) :=
  results ← mapM func items; mret (inr <$> results).

Definition _process_list (run : pool_run V) (items : list Item) : M (list (Item + Res)) :=
  pool ← (λ w, (Ok (executor w), w));
  match pool with
  | Some _ =>
      attempt ← try_except (dispatch run items);
      match attempt with
      | Some results => mret results
      | None =>
          (* process pool is broken, restart it and process current request in series *)
          restart_subprocesses;;
          in_series items
      end
  | None => in_series items
  end.



End ProcessList.

(** The results of a batch as the callers read them.  Every slot holds a
    result when the batch returns (the dispatcher fills them all); a slot
    still holding its item would be misread by the caller, which is a
    [TypeError] here. *)
Definition results_of {Item Res} (slots : list (Item + Res)) : M (list Res) :=
  mapM (λ s : Item + Res,
          match s with
          | inr r => mret r
          | inl _ => raise TypeError
          end) slots.

(** ** The abstract base class [Processor]

    The flags, the abstract methods [_build], [_dump] and [_load] of a
    processor, and the loops over [self._children.values()], which each tier
    runs over its own kind of child. *)
Definition DynamicResource := option string.
Definition Proba := list (Label * Score).

Class Processor (P : Type) : Type := {
  ready : P → bool;
  dirty : P → bool;
  set_ready : bool → P → P;
  set_dirty : bool → P → P;
  _build : bool → option string → P → M P;
  _dump : P → M unit;
  _load : option string → P → M P;
  build_children : bool → option string → P → M P;
  dump_children : P → M P;
  load_children : option string → P → M P
}.

(** The setters change the flag they name and nothing else. *)
Class ProcessorFlags (P : Type) `{Processor P} : Prop := {
  ready_set_ready b (p : P) : ready (set_ready b p) = b;
  dirty_set_dirty b (p : P) : dirty (set_dirty b p) = b;
  ready_set_dirty b (p : P) : ready (set_dirty b p) = ready p;
  dirty_set_ready b (p : P) : dirty (set_ready b p) = dirty p
}.

Section Lifecycle.
Context {P : Type} `{Processor P}.

(** [Processor.build]: the model of this processor, then (incremental
    builds) its dump, then the children, then the query cache; the flags
    are set last. *)
Definition build (incremental : bool) (label_set : option string) (self : P) : M P :=
  self ← _build incremental label_set self;
  (if incremental then _dump self else mret ());;
  self ← build_children incremental label_set self;
  consult query_cache call_dump;;
  mret (set_dirty true (set_ready true self)).

(** [Processor.dump] *)
Definition dump (self : P) : M P :=
  _dump self;;
  self ← dump_children self;
  consult query_cache call_dump;;
  mret (set_dirty false self).

(** [Processor.load] *)
Definition load (incremental_timestamp : option string) (self : P) : M P :=
  self ← _load incremental_timestamp self;
  self ← load_children incremental_timestamp self;
  mret (set_dirty false (set_ready true self)).

(** [Processor._check_ready] *)
Definition _check_ready (self : P) : M unit :=
  if ready self then mret ()
  else raise (ProcessorError "Processor not ready, models must be built or loaded first.").
End Lifecycle.

(** [self._children]: the children by label, in insertion order. *)
Fixpoint child {C} (children : list (Label * C)) (key : Label) : option C :=
  match children with
  | [] => None
  | (k, c) :: children' => if String.eqb k key then Some c else child children' key
  end.

(** [self._children[key]] *)
Definition get_child {C} (children : list (Label * C)) (key : Label) : M C :=
  match child children key with
  | Some c => mret c
  | None => raise (KeyError key)
  end.

(** [self._children[key] = c]: a known key keeps its place. *)
Fixpoint set_child {C} (children : list (Label * C)) (key : Label) (c : C)
  : list (Label * C) :=
  match children with
  | [] => [(key, c)]
  | (k, c') :: children' =>
      if String.eqb k key then (k, c) :: children'
      else (k, c') :: set_child children' key c
  end.

(** [for child in self._children.values(): ...], with the children the body
    leaves behind. *)
Definition for_children {C} (body : C → M C) (children : list (Label * C))
  : M (list (Label * C)) :=
  mapM (λ kc : Label * C, c ← body kc.2; mret (kc.1, c)) children.

(** ** The external components

    Modelled from the spec: the classifiers, the recognizer, the resolver and
    the parser are black boxes behind the classifier contract; what they
    answer is a function of what they are asked.  Their sources are not part
    of the engine. *)
Module LabelClassifier.
(** [DomainClassifier] and [IntentClassifier]. *)
Record t : Type := mk {
  predict : Query → DynamicResource → Label;
  predict_proba : Query → DynamicResource → Proba
}.
End LabelClassifier.

Module EntityRecognizer.
Record t : Type := mk {
  entity_types : list Label;
  predict : Query → DynamicResource → list QueryEntity;
  predict_proba : Query → DynamicResource → list (QueryEntity * Score)
}.
End EntityRecognizer.

Module RoleClassifier.
Record t : Type := mk {
  roles : list Label;
  predict : Query → list QueryEntity → nat → Label;
  predict_proba : Query → list QueryEntity → nat → Proba
}.
End RoleClassifier.

Module EntityResolver.
Record t : Type := mk {
  predict : list Entity → option string
}.
End EntityResolver.

(** The parser is handed the processed entities only and answers with the
    entities it keeps, each with its parse tree. *)
Module Parser.
Record t : Type := mk {
  parse_entities : Query → list QueryEntity → list QueryEntity
}.
End Parser.

(** ** [EntityProcessor] *)
Module EntityProcessor.
Record t : Type := mk {
  ready : bool;
  dirty : bool;
  incremental_timestamp : option string;
  domain : Label;
  intent : Label;
  type : Label;
  role_classifier : RoleClassifier.t;
  entity_resolver : EntityResolver.t
}.

Definition set_ready (b : bool) (self : t) : t :=
  mk b (dirty self) (incremental_timestamp self) (domain self) (intent self) (type self)
     (role_classifier self) (entity_resolver self).
Definition set_dirty (b : bool) (self : t) : t :=
  mk (ready self) b (incremental_timestamp self) (domain self) (intent self) (type self)
     (role_classifier self) (entity_resolver self).
Definition set_incremental_timestamp (ts : option string) (self : t) : t :=
  mk (ready self) (dirty self) ts (domain self) (intent self) (type self)
     (role_classifier self) (entity_resolver self).

Definition the_role_classifier (self : t) : component :=
  role_clf (domain self) (intent self) (type self).
Definition the_entity_resolver (self : t) : component := resolver (type self).

Definition _build (incremental : bool) (label_set : option string) (self : t) : M t :=
  consult (the_role_classifier self) call_fit;;
  consult (the_entity_resolver self) call_fit;;
  mret self.

Definition _dump (self : t) : M unit :=
  consult (the_role_classifier self) call_dump.

(** [try: ... except EntityResolverConnectionError: logger.warning(...)] *)
Definition _load (incremental_timestamp : option string) (self : t) : M t := λ w,
  match (consult (the_role_classifier self) call_load;;
         consult (the_entity_resolver self) call_load) w with
  | (Raise EntityResolverConnectionError, w') => (Ok self, w')
  | (Raise e, w') => (Raise e, w')
  | (Ok _, w') => (Ok self, w')
  end.

(** An entity processor has no children. *)
Global Instance processor : Processor t :=
  Build_Processor t ready dirty set_ready set_dirty _build _dump _load
    (λ _ _ self, mret self) (λ self, mret self) (λ _ self, mret self).

(** The entities are references; the role classifier reads the objects
    they name.  [dict(role)] is kept as the list of its items. *)
Definition process_entity (self : t) (query : Query) (entities : list nat)
    (entity_index : nat) (verbose : bool) : M (nat * option Proba) :=
  _check_ready self;;
  entity ← subscript entities entity_index;
  if bool_decide (RoleClassifier.roles (role_classifier self) ≠ []) then
    (* Only run role classifier if there are roles! *)
    all ← mapM deref entities;
    if verbose then
      consult (the_role_classifier self) call_predict_proba;;
      let role := RoleClassifier.predict_proba (role_classifier self) query all entity_index in
      top ← subscript role 0;
      update entity (set_role (Some top.1));;
      mret (entity, Some role)
    else
      consult (the_role_classifier self) call_predict;;
      update entity
        (set_role (Some (RoleClassifier.predict (role_classifier self) query all entity_index)));;
      mret (entity, None)
  else mret (entity, None).

Definition resolve_entity (self : t) (entity_ref : nat)
    (aligned_entity_spans : option (list nat)) : M nat :=
  _check_ready self;;
  entity_list ←
    match aligned_entity_spans with
    | Some (e :: es) => spans ← mapM deref (e :: es); mret (entity <$> spans)
    | _ => v ← deref entity_ref; mret [entity v]
    end;
  consult (the_entity_resolver self) call_predict;;
  update entity_ref (set_value (EntityResolver.predict (entity_resolver self) entity_list));;
  mret entity_ref.

(** [process_query] is not implemented for this tier. *)
Definition process_query {A B C D R} (self : t) (query : A) (allowed_nlp_classes : B)
    (dynamic_resource : C) (verbose : D) : M R :=
  raise NotImplementedError.
End EntityProcessor.

(** ** Processed queries *)

Record Confidence : Type := mkConfidence {
  domains_scores : option Proba;
  intents_scores : option Proba;
  entities_scores : option (list (Label * Score));
  roles_scores : option (list (option Proba))
}.

(** Modelled from the spec: [ProcessedQuery] of [mindmeld.core], the output
    of one tier.  The entities are references to [QueryEntity] objects. *)
Record ProcessedQuery : Type := mkProcessedQuery {
  query : Query;
  entities : list nat;
  confidence : Confidence;
  nbest_transcripts_queries : option (list Query);
  nbest_transcripts_entities : option (list (list nat));
  nbest_aligned_entities : option (list (list nat));
  domain : option Label;
  intent : option Label
}.

(** [processed_query.domain = domain] *)
Definition with_domain (d : Label) (pq : ProcessedQuery) : ProcessedQuery :=
  mkProcessedQuery (query pq) (entities pq) (confidence pq) (nbest_transcripts_queries pq)
    (nbest_transcripts_entities pq) (nbest_aligned_entities pq) (Some d) (intent pq).

(** [processed_query.intent = intent] *)
Definition with_intent (i : Label) (pq : ProcessedQuery) : ProcessedQuery :=
  mkProcessedQuery (query pq) (entities pq) (confidence pq) (nbest_transcripts_queries pq)
    (nbest_transcripts_entities pq) (nbest_aligned_entities pq) (domain pq) (Some i).

Definition with_confidence (c : Confidence) (pq : ProcessedQuery) : ProcessedQuery :=
  mkProcessedQuery (query pq) (entities pq) c (nbest_transcripts_queries pq)
    (nbest_transcripts_entities pq) (nbest_aligned_entities pq) (domain pq) (intent pq).

(** [if proba: scores = processed_query.confidence or {};
     scores["domains"] = dict(proba)]: an empty or absent list adds nothing. *)
Definition with_domains_scores (proba : option Proba) (pq : ProcessedQuery) : ProcessedQuery :=
  match proba with
  | Some (s :: ss) =>
      let c := confidence pq in
      with_confidence
        (mkConfidence (Some (s :: ss)) (intents_scores c) (entities_scores c) (roles_scores c)) pq
  | _ => pq
  end.

Definition with_intents_scores (proba : option Proba) (pq : ProcessedQuery) : ProcessedQuery :=
  match proba with
  | Some (s :: ss) =>
      let c := confidence pq in
      with_confidence
        (mkConfidence (domains_scores c) (Some (s :: ss)) (entities_scores c) (roles_scores c)) pq
  | _ => pq
  end.

(** The [query] argument of [process_query]: a [Query], or the list of the
    n-best transcripts. *)
Inductive query_arg : Type :=
| a_query (q : Query)
| n_best (qs : list Query).

(** [tuple(query)] if it is a list, [(query,)] otherwise. *)
Definition transcripts (q : query_arg) : list Query :=
  match q with
  | a_query q => [q]
  | n_best qs => qs
  end.

(** [query[0]] if it is a list, [query] otherwise. *)
Definition top_query (q : query_arg) : M Query :=
  match q with
  | a_query q => mret q
  | n_best qs => subscript qs 0
  end.

Global Instance QueryEntity_inhabited : Inhabited QueryEntity :=
  populate (mkQueryEntity (mkSpan 0 0) (mkEntity "" "" None None)).

(** ** [IntentProcessor] *)

(** What a recognizer yields for one entity: the entity, or with [verbose]
    the pair of the entity and its score. *)
Definition item_of (O : Type) (verbose : bool) : Type :=
  if verbose then (O * Score)%type else O.

(** The behaviour of the process pool during one [process_query]: for the
    batch of per-transcript recognitions and the batch of per-entity role
    classifications and resolutions. *)
Record pool_runs : Type := mkPoolRuns {
  recognize_run : ∀ verbose, pool_run (list (item_of QueryEntity verbose));
  resolve_run : pool_run (QueryEntity * option Proba)
}.

(** The value [_get_pred_entities] returns for [entities]: lists of
    entities, one per transcript; or, when [verbose] is set and the first
    transcript has no entity, the lists as recognized, their elements still
    paired with scores. *)
Inductive recognized : Type :=
| entity_lists (per_transcript : list (list nat))
| empty_then_scored (rest : list (list (nat * Score))).

Definition lists_of (r : recognized) : list (list nat) :=
  match r with
  | entity_lists per_transcript => per_transcript
  | empty_then_scored rest => [] :: ((λ entities_n : list (nat * Score), entities_n.*1) <$> rest)
  end.

Module IntentProcessor.
Record t : Type := mk {
  ready : bool;
  dirty : bool;
  incremental_timestamp : option string;
  domain : Label;
  name : Label;
  entity_recognizer : EntityRecognizer.t;
  parser : option Parser.t;
  nbest_transcripts_enabled : bool;
  (** [self._children], by entity type *)
  entities : list (Label * EntityProcessor.t);
  (** the models that [EntityProcessor(app_path, domain, intent,
      entity_type, resource_loader)] creates for an entity type *)
  models_for : Label → RoleClassifier.t * EntityResolver.t
}.

Definition set_ready (b : bool) (self : t) : t :=
  mk b (dirty self) (incremental_timestamp self) (domain self) (name self)
     (entity_recognizer self) (parser self) (nbest_transcripts_enabled self)
     (entities self) (models_for self).
Definition set_dirty (b : bool) (self : t) : t :=
  mk (ready self) b (incremental_timestamp self) (domain self) (name self)
     (entity_recognizer self) (parser self) (nbest_transcripts_enabled self)
     (entities self) (models_for self).
Definition set_incremental_timestamp (ts : option string) (self : t) : t :=
  mk (ready self) (dirty self) ts (domain self) (name self)
     (entity_recognizer self) (parser self) (nbest_transcripts_enabled self)
     (entities self) (models_for self).
Definition set_entities (children : list (Label * EntityProcessor.t)) (self : t) : t :=
  mk (ready self) (dirty self) (incremental_timestamp self) (domain self) (name self)
     (entity_recognizer self) (parser self) (nbest_transcripts_enabled self)
     children (models_for self).

Definition the_entity_recognizer (self : t) : component :=
  entity_rec (domain self) (name self).

(** [EntityProcessor(self._app_path, self.domain, self.name, entity_type,
    self.resource_loader)] *)
Definition new_entity_processor (self : t) (entity_type : Label) : EntityProcessor.t :=
  EntityProcessor.mk false false None (domain self) (name self) entity_type
    (models_for self entity_type).1 (models_for self entity_type).2.

(** [for entity_type in entity_types: self._children[entity_type] = processor] *)
Definition create_entity_processors (self : t) : t :=
  set_entities
    (foldl (λ children entity_type,
              set_child children entity_type (new_entity_processor self entity_type))
           (entities self)
           (EntityRecognizer.entity_types (entity_recognizer self)))
    self.

Definition _build (incremental : bool) (label_set : option string) (self : t) : M t :=
  consult (the_entity_recognizer self) call_fit;;
  mret (create_entity_processors self).

Definition _dump (self : t) : M unit :=
  consult (the_entity_recognizer self) call_dump.

Definition _load (incremental_timestamp : option string) (self : t) : M t :=
  consult (the_entity_recognizer self) call_load;;
  mret (create_entity_processors self).

Global Instance processor : Processor t :=
  Build_Processor t ready dirty set_ready set_dirty _build _dump _load
    (λ incremental label_set self,
       children ← for_children
         (λ child,
            child ← build incremental label_set
              (EntityProcessor.set_incremental_timestamp (incremental_timestamp self) child);
            if incremental then dump child else mret child)
         (entities self);
       mret (set_entities children self))
    (λ self,
       children ← for_children dump (entities self);
       mret (set_entities children self))
    (λ incremental_timestamp self,
       children ← for_children (load incremental_timestamp) (entities self);
       mret (set_entities children self)).

(** The parent's copy of what a worker recognized. *)
Definition alloc_item (verbose : bool) : item_of QueryEntity verbose → M (item_of nat verbose) :=
  match verbose as b return item_of QueryEntity b → M (item_of nat b) with
  | true => λ es, e ← alloc es.1; mret (e, es.2)
  | false => alloc
  end.

(** [_recognize_entities] of one [Query]: the objects the recognizer
    returns are new. *)
Definition _recognize_entities_of_query (self : t) (query : Query)
    (dynamic_resource : DynamicResource) (verbose : bool) : M (list (item_of nat verbose)) :=
  match verbose as b return M (list (item_of nat b)) with
  | true =>
      consult (the_entity_recognizer self) call_predict_proba;;
      mapM (alloc_item true)
        (EntityRecognizer.predict_proba (entity_recognizer self) query dynamic_resource)
  | false =>
      consult (the_entity_recognizer self) call_predict;;
      mapM (alloc_item false)
        (EntityRecognizer.predict (entity_recognizer self) query dynamic_resource)
  end.

(** [_recognize_entities] of the tuple of transcripts. *)
Definition _recognize_entities (self : t) (pool : pool_runs) (query : list Query)
    (dynamic_resource : DynamicResource) (verbose : bool)
  : M (list (list (item_of nat verbose))) :=
  if nbest_transcripts_enabled self then
    slots ← _process_list (mapM (alloc_item verbose))
               (λ q, _recognize_entities_of_query self q dynamic_resource verbose)
               (recognize_run pool verbose) query;
    results_of slots
  else
    q ← subscript query 0;
    pred ← _recognize_entities_of_query self q dynamic_resource verbose;
    mret [pred].

Definition _get_pred_entities (self : t) (pool : pool_runs) (query : list Query)
    (dynamic_resource : DynamicResource) (verbose : bool)
  : M (list (Label * Score) * recognized) :=
  match verbose as b
        return M (list (list (item_of nat b))) → M (list (Label * Score) * recognized) with
  | true => λ recognize,
      all ← recognize;
      pred_entities ← subscript all 0;
      if (0 <? Z.of_nat (length pred_entities)) then
        entity_confidence ←
          mapM (λ es : nat * Score, v ← deref es.1; mret (type (entity v), es.2))
               pred_entities;
        mret (entity_confidence, entity_lists [pred_entities.*1])
      else mret ([], empty_then_scored (tail all))
  | false => λ recognize,
      all ← recognize;
      pred_entities ← subscript all 0;
      mret ([], entity_lists all)
  end (_recognize_entities self pool query dynamic_resource verbose).

(** [self._align_entities(entities)] on the entity objects of the store.
    A list that still pairs entities with scores has no [span]. *)
Definition _align_entities_of (self : t) (found : recognized) : M (list (list nat)) := λ w,
  match found with
  | entity_lists per_transcript =>
      (_align_entities (λ e, span (heap w !!! e)) (λ e, type (entity (heap w !!! e)))
         (nbest_transcripts_enabled self) per_transcript, w)
  | empty_then_scored rest =>
      if (1 <? Z.of_nat (length ([] :: rest))) && nbest_transcripts_enabled self
      then if forallb (λ entities_n : list (nat * Score), bool_decide (entities_n = [])) rest
           then (Ok [], w) else (Raise AttributeError, w)
      else (Ok [], w)
  end.

Definition _classify_and_resolve_entities (self : t) (idx : nat) (query : Query)
    (processed_entities : list nat) (aligned_entities : list (list nat)) (verbose : bool)
  : M (nat * option Proba) :=
  e ← subscript processed_entities idx;
  (* Run the role classification *)
  v ← deref e;
  processor ← get_child (entities self) (type (entity v));
  '(e, role_confidence) ←
    EntityProcessor.process_entity processor query processed_entities idx verbose;
  (* Run the entity resolution *)
  v ← deref e;
  processor ← get_child (entities self) (type (entity v));
  group ← subscript aligned_entities idx;
  e ← EntityProcessor.resolve_entity processor e (Some group);
  mret (e, role_confidence).

Definition _process_entities (self : t) (pool : pool_runs) (query : list Query)
    (found : list (list nat)) (aligned_entities : list (list nat)) (verbose : bool)
  : M (list nat * list (option Proba)) :=
  q ← subscript query 0;
  reference ← subscript found 0;
  processed_entities ← mapM deepcopy reference;
  slots ← _process_list (λ ec : QueryEntity * option Proba, e ← alloc ec.1; mret (e, ec.2))
             (λ idx, _classify_and_resolve_entities self idx q processed_entities
                       aligned_entities verbose)
             (resolve_run pool) (seq 0 (length processed_entities));
  processed_entities_conf ← results_of slots;
  let processed_entities :=
    match processed_entities_conf with
    | [] => processed_entities
    | _ => processed_entities_conf.*1
    end in
  let role_confidence := processed_entities_conf.*2 in
  (* Run the entity parsing *)
  processed_entities ←
    match parser self with
    | Some p =>
        consult (entity_parser (domain self) (name self)) call_parse_entities;;
        values ← mapM deref processed_entities;
        mapM alloc (Parser.parse_entities p q values)
    | None => mret processed_entities
    end;
  mret (processed_entities, role_confidence).

Definition process_query (self : t) (pool : pool_runs) (query : query_arg)
    (dynamic_resource : DynamicResource) (verbose : bool) : M ProcessedQuery :=
  _check_ready self;;
  let using_nbest_transcripts :=
    match query with
    | n_best _ => nbest_transcripts_enabled self
    | a_query _ => false
    end in
  let query := transcripts query in
  '(entity_confidence, found) ←
    _get_pred_entities self pool query dynamic_resource verbose;
  aligned_entities ← _align_entities_of self found;
  '(processed_entities, role_confidence) ←
    _process_entities self pool query (lists_of found) aligned_entities verbose;
  let confidence :=
    if verbose
    then mkConfidence None None (Some entity_confidence) (Some role_confidence)
    else mkConfidence None None None None in
  q ← subscript query 0;
  if using_nbest_transcripts then
    mret (mkProcessedQuery q processed_entities confidence (Some query)
            (Some (lists_of found)) (Some aligned_entities) None None)
  else
    mret (mkProcessedQuery q processed_entities confidence None None None None None).
End IntentProcessor.

(** ** Label selection under a restriction *)

(** [for ordered, _ in ranked: if ordered in allowed.keys(): ...]: the first
    label of the ranked list that the restriction holds. *)
Fixpoint first_allowed (allowed : gset Label) (ranked : Proba) : option Label :=
  match ranked with
  | [] => None
  | (ordered, _) :: ranked' =>
      if bool_decide (ordered ∈ allowed) then Some ordered
      else first_allowed allowed ranked'
  end.

(** [list(allowed_nlp_classes.keys())[0]] *)
Definition first_key (keys : gset Label) : M Label := subscript (elements keys) 0.

(** [if not allowed_nlp_classes]: [None] and the empty dict are alike. *)
Definition restriction {A} `{Size A} (allowed_nlp_classes : option A) : option A :=
  match allowed_nlp_classes with
  | Some allowed => if bool_decide (size allowed = 0%nat) then None else Some allowed
  | None => None
  end.

(** [[(label, 1.0)]] if [verbose], [None] otherwise. *)
Definition certain (label : Label) (verbose : bool) : option Proba :=
  if verbose then Some [(label, 1%float)] else None.

(** ** [DomainProcessor] *)
Module DomainProcessor.
Record t : Type := mk {
  ready : bool;
  dirty : bool;
  incremental_timestamp : option string;
  name : Label;
  intent_classifier : LabelClassifier.t;
  (** [self._children], by intent *)
  intents : list (Label * IntentProcessor.t)
}.

Definition set_ready (b : bool) (self : t) : t :=
  mk b (dirty self) (incremental_timestamp self) (name self) (intent_classifier self)
     (intents self).
Definition set_dirty (b : bool) (self : t) : t :=
  mk (ready self) b (incremental_timestamp self) (name self) (intent_classifier self)
     (intents self).
Definition set_incremental_timestamp (ts : option string) (self : t) : t :=
  mk (ready self) (dirty self) ts (name self) (intent_classifier self) (intents self).
Definition set_intents (children : list (Label * IntentProcessor.t)) (self : t) : t :=
  mk (ready self) (dirty self) (incremental_timestamp self) (name self)
     (intent_classifier self) children.

Definition the_intent_classifier (self : t) : component := intent_clf (name self).

Definition _build (incremental : bool) (label_set : option string) (self : t) : M t :=
  if bool_decide (length (intents self) = 1%nat) then mret self
  else consult (the_intent_classifier self) call_fit;; mret self.

Definition _dump (self : t) : M unit :=
  if bool_decide (length (intents self) = 1%nat) then mret ()
  else consult (the_intent_classifier self) call_dump.

Definition _load (incremental_timestamp : option string) (self : t) : M t :=
  if bool_decide (length (intents self) = 1%nat) then mret self
  else consult (the_intent_classifier self) call_load;; mret self.

Global Instance processor : Processor t :=
  Build_Processor t ready dirty set_ready set_dirty _build _dump _load
    (λ incremental label_set self,
       children ← for_children
         (λ child,
            child ← build incremental label_set
              (IntentProcessor.set_incremental_timestamp (incremental_timestamp self) child);
            if incremental then dump child else mret child)
         (intents self);
       mret (set_intents children self))
    (λ self,
       children ← for_children dump (intents self);
       mret (set_intents children self))
    (λ incremental_timestamp self,
       children ← for_children (load incremental_timestamp) (intents self);
       mret (set_intents children self)).

(** The choice of the intent in [process_query], with [intent_proba]. *)
Definition select_intent (self : t) (top_query : Query)
    (allowed_nlp_classes : option (gset Label))
    (dynamic_resource : DynamicResource) (verbose : bool) : M (Label * option Proba) :=
  if bool_decide (1 < length (intents self))%nat then
    (* Check if the user has specified allowed intents *)
    match restriction allowed_nlp_classes with
    | None =>
        if verbose then
          consult (the_intent_classifier self) call_predict_proba;;
          let intent_proba :=
            LabelClassifier.predict_proba (intent_classifier self) top_query dynamic_resource in
          top ← subscript intent_proba 0;
          mret (top.1, Some intent_proba)
        else
          consult (the_intent_classifier self) call_predict;;
          mret (LabelClassifier.predict (intent_classifier self) top_query dynamic_resource,
                None)
    | Some allowed =>
        if bool_decide (size allowed = 1%nat) then
          intent ← first_key allowed;
          mret (intent, certain intent verbose)
        else
          consult (the_intent_classifier self) call_predict_proba;;
          let sorted_intents :=
            LabelClassifier.predict_proba (intent_classifier self) top_query dynamic_resource in
          let intent_proba := if verbose then Some sorted_intents else None in
          match first_allowed allowed sorted_intents with
          | Some intent =>
              (* [if not intent] also holds of the empty string *)
              if String.eqb intent "" then
                raise (AllowedNlpClassesKeyError
                         "Could not find user inputted intent in NLP hierarchy")
              else mret (intent, intent_proba)
          | None =>
              raise (AllowedNlpClassesKeyError
                       "Could not find user inputted intent in NLP hierarchy")
          end
    end
  else
    intent ← subscript (intents self).*1 0;
    mret (intent, certain intent verbose).

Definition process_query (self : t) (pool : pool_runs) (query : query_arg)
    (allowed_nlp_classes : option (gset Label))
    (dynamic_resource : DynamicResource) (verbose : bool) : M ProcessedQuery :=
  _check_ready self;;
  top ← top_query query;
  '(intent, intent_proba) ←
    select_intent self top allowed_nlp_classes dynamic_resource verbose;
  processor ← get_child (intents self) intent;
  processed_query ← IntentProcessor.process_query processor pool query dynamic_resource verbose;
  mret (with_intents_scores intent_proba (with_intent intent processed_query)).
End DomainProcessor.

(** ** [NaturalLanguageProcessor] *)

(** [str.split(sep)] for a one-character separator. *)
Fixpoint split_on (sep : Ascii.ascii) (s : string) : list string :=
  match s with
  | EmptyString => [""]
  | String c s' =>
      if Ascii.eqb c sep then "" :: split_on sep s'
      else match split_on sep s' with
           | piece :: pieces => String c piece :: pieces
           | [] => [String c ""]
           end
  end.

(** A loop whose body may raise. *)
Fixpoint fold_result {A B} (body : A → B → result A) (acc : A) (l : list B) : result A :=
  match l with
  | [] => Ok acc
  | x :: l' =>
      match body acc x with
      | Ok acc' => fold_result body acc' l'
      | Raise e => Raise e
      end
  end.

Module NaturalLanguageProcessor.
Record t : Type := mk {
  ready : bool;
  dirty : bool;
  incremental_timestamp : option string;
  (** the formatted time of the clock when an incremental build starts *)
  current_ts : string;
  domain_classifier : LabelClassifier.t;
  (** [self._children], by domain *)
  domains : list (Label * DomainProcessor.t)
}.

Definition set_ready (b : bool) (self : t) : t :=
  mk b (dirty self) (incremental_timestamp self) (current_ts self) (domain_classifier self)
     (domains self).
Definition set_dirty (b : bool) (self : t) : t :=
  mk (ready self) b (incremental_timestamp self) (current_ts self) (domain_classifier self)
     (domains self).
Definition set_incremental_timestamp (ts : option string) (self : t) : t :=
  mk (ready self) (dirty self) ts (current_ts self) (domain_classifier self) (domains self).
Definition set_domains (children : list (Label * DomainProcessor.t)) (self : t) : t :=
  mk (ready self) (dirty self) (incremental_timestamp self) (current_ts self)
     (domain_classifier self) children.

Definition _build (incremental : bool) (label_set : option string) (self : t) : M t :=
  let self :=
    if incremental then set_incremental_timestamp (Some (current_ts self)) self else self in
  if bool_decide (length (domains self) = 1%nat) then mret self
  else consult domain_clf call_fit;; mret self.

Definition _dump (self : t) : M unit :=
  if bool_decide (length (domains self) = 1%nat) then mret ()
  else consult domain_clf call_dump.

Definition _load (incremental_timestamp : option string) (self : t) : M t :=
  if bool_decide (length (domains self) = 1%nat) then mret self
  else consult domain_clf call_load;; mret self.

Global Instance processor : Processor t :=
  Build_Processor t ready dirty set_ready set_dirty _build _dump _load
    (λ incremental label_set self,
       children ← for_children
         (λ child,
            child ← build incremental label_set
              (DomainProcessor.set_incremental_timestamp (incremental_timestamp self) child);
            if incremental then dump child else mret child)
         (domains self);
       mret (set_domains children self))
    (λ self,
       children ← for_children dump (domains self);
       mret (set_domains children self))
    (λ incremental_timestamp self,
       children ← for_children (load incremental_timestamp) (domains self);
       mret (set_domains children self)).

Definition _process_domain (self : t) (query : Query)
    (allowed_nlp_classes : option (gmap Label (gset Label)))
    (dynamic_resource : DynamicResource) (verbose : bool) : M (Label * option Proba) :=
  if bool_decide (1 < length (domains self))%nat then
    match restriction allowed_nlp_classes with
    | None =>
        if verbose then
          (* predict_proba() returns sorted list of tuples *)
          consult domain_clf call_predict_proba;;
          let domain_proba :=
            LabelClassifier.predict_proba (domain_classifier self) query dynamic_resource in
          (* Since domain_proba is sorted by class with highest confidence,
             get that as the predicted class *)
          top ← subscript domain_proba 0;
          mret (top.1, Some domain_proba)
        else
          consult domain_clf call_predict;;
          mret (LabelClassifier.predict (domain_classifier self) query dynamic_resource, None)
    | Some allowed =>
        if bool_decide (size allowed = 1%nat) then
          domain ← first_key (dom allowed);
          mret (domain, certain domain verbose)
        else
          consult domain_clf call_predict_proba;;
          let sorted_domains :=
            LabelClassifier.predict_proba (domain_classifier self) query dynamic_resource in
          let domain_proba := if verbose then Some sorted_domains else None in
          match first_allowed (dom allowed) sorted_domains with
          | Some ordered_domain => mret (ordered_domain, domain_proba)
          | None =>
              raise (AllowedNlpClassesKeyError
                       "Could not find user inputted domain in NLP hierarchy")
          end
    end
  else
    domain ← subscript (domains self).*1 0;
    mret (domain, certain domain verbose).

Definition process_query (self : t) (pool : pool_runs) (query : query_arg)
    (allowed_nlp_classes : option (gmap Label (gset Label)))
    (dynamic_resource : DynamicResource) (verbose : bool) : M ProcessedQuery :=
  _check_ready self;;
  top ← top_query query;
  '(domain, domain_proba) ←
    _process_domain self top allowed_nlp_classes dynamic_resource verbose;
  let allowed_intents :=
    match restriction allowed_nlp_classes with
    | Some allowed => allowed !! domain
    | None => None
    end in
  processor ← get_child (domains self) domain;
  processed_query ←
    DomainProcessor.process_query processor pool query allowed_intents dynamic_resource verbose;
  mret (with_domains_scores domain_proba (with_domain domain processed_query)).

(** The body of [for allowed_intent in allowed_intents], after
    [domain, intent = allowed_intent.split(".")]. *)
Definition allow_path (self : t) (nlp_components : gmap Label (gset Label))
    (domain intent : Label) : result (gmap Label (gset Label)) :=
  match child (domains self) domain with
  | None =>
      Raise (AllowedNlpClassesKeyError
               ("Domain: " +:+ domain +:+ " is not in the NLP component hierarchy"))
  | Some processor =>
      let intents := (DomainProcessor.intents processor).*1 in
      if negb (String.eqb intent "*") && negb (bool_decide (intent ∈ intents)) then
        Raise (AllowedNlpClassesKeyError
                 ("Intent: " +:+ intent +:+ " is not in the NLP component hierarchy"))
      else
        let nlp_components :=
          match nlp_components !! domain with
          | None => <[domain := ∅]> nlp_components
          | Some _ => nlp_components
          end in
        let present := default ∅ (nlp_components !! domain) in
        if String.eqb intent "*" then
          Ok (<[domain := foldl (λ acc intent, acc ∪ {[intent]}) present intents]>
                nlp_components)
        else Ok (<[domain := present ∪ {[intent]}]> nlp_components)
  end.

(** The body of the loop with the unpacking of the split string. *)
Definition allow (self : t) (nlp_components : gmap Label (gset Label))
    (allowed_intent : string) : result (gmap Label (gset Label)) :=
  match split_on "."%char allowed_intent with
  | [domain; intent] => allow_path self nlp_components domain intent
  | [] | [_] => Raise (ValueError "not enough values to unpack (expected 2, got 1)")
  | _ => Raise (ValueError "too many values to unpack (expected 2)")
  end.

Definition extract_allowed_intents (self : t) (allowed_intents : list string)
  : result (gmap Label (gset Label)) :=
  fold_result (allow self) ∅ allowed_intents.
End NaturalLanguageProcessor.

(** ** Vocabulary of the properties *)

(** The number of separators in a string. *)
Fixpoint count_sep (sep : Ascii.ascii) (s : string) : nat :=
  match s with
  | EmptyString => 0
  | String c s' => (if Ascii.eqb c sep then 1 else 0) + count_sep sep s'
  end.

(** The string ["toplabel.sublabel"] of a pair of labels. *)
Definition label_path (p : Label * Label) : string := p.1 +:+ "." +:+ p.2.

(** The intents of a domain of the tree. *)
Definition intents_of (self : NaturalLanguageProcessor.t) (domain : Label) : list Label :=
  match child (NaturalLanguageProcessor.domains self) domain with
  | Some processor => (DomainProcessor.intents processor).*1
  | None => []
  end.

(** A pair of labels names a place of the tree: the top label is a domain,
    and the sublabel is ["*"] or an intent of that domain. *)
Definition known_path (self : NaturalLanguageProcessor.t) (p : Label * Label) : Prop :=
  is_Some (child (NaturalLanguageProcessor.domains self) p.1) ∧
  (p.2 = "*" ∨ p.2 ∈ intents_of self p.1).

(** The intents a sublabel stands for: ["*"] is every intent of the domain. *)
Definition expansion (self : NaturalLanguageProcessor.t) (p : Label * Label) : gset Label :=
  if String.eqb p.2 "*" then list_to_set (intents_of self p.1) else {[ p.2 ]}.

(** What [extract_allowed_intents] returns for a list of known paths: a
    mapping whose keys are the referenced domains, each with the union of
    the expansions of its referenced sublabels. *)
Definition hierarchy_of (self : NaturalLanguageProcessor.t) (paths : list (Label * Label))
    (nlp_components : gmap Label (gset Label)) : Prop :=
  dom nlp_components = list_to_set paths.*1 ∧
  ∀ d x, x ∈ default ∅ (nlp_components !! d) ↔
         ∃ i, (d, i) ∈ paths ∧ x ∈ expansion self (d, i).

(** The error that names the offending label of an unknown path. *)
Definition unknown_label_path (self : NaturalLanguageProcessor.t) (p : Label * Label) : exn :=
  match child (NaturalLanguageProcessor.domains self) p.1 with
  | None => AllowedNlpClassesKeyError
              ("Domain: " +:+ p.1 +:+ " is not in the NLP component hierarchy")
  | Some _ => AllowedNlpClassesKeyError
                ("Intent: " +:+ p.2 +:+ " is not in the NLP component hierarchy")
  end.


(** The outcome of a restricted selection over a ranked list: the first
    ranked label that the restriction holds, with the ranked list as the
    probabilities when they are asked for; or [AllowedNlpClassesKeyError]
    when the restriction holds no ranked label. *)
Definition selects_first_allowed (allowed : gset Label) (ranked : Proba) (verbose : bool)
    (msg : string) (outcome : result (Label * option Proba)) : Prop :=
  (∃ l score before after,
      ranked = before ++ (l, score) :: after ∧ l ∈ allowed ∧
      (∀ l', l' ∈ before.*1 → l' ∉ allowed) ∧
      outcome = Ok (l, if verbose then Some ranked else None))
  ∨ ((∀ l, l ∈ ranked.*1 → l ∉ allowed) ∧
     outcome = Raise (AllowedNlpClassesKeyError msg)).

(** The entity objects below [n] are left as they are, and no object goes
    away. *)
Definition frame (n : nat) (w w' : World) : Prop :=
  (length (heap w) ≤ length (heap w'))%nat ∧
  ∀ l, (l < n)%nat → heap w' !! l = heap w !! l.

(** Running [m] from [w] leaves the objects below [n] alone, and what it
    returns satisfies [Q] in the world it leaves. *)
Definition wp {A} (n : nat) (m : M A) (Q : A → World → Prop) (w : World) : Prop :=
  frame n w (m w).2 ∧ ∀ a, (m w).1 = Ok a → Q a (m w).2.

(** The reference held by an item of a recognizer's answer. *)
Definition ref_of (verbose : bool) : item_of nat verbose → nat :=
  match verbose as b return item_of nat b → nat with
  | true => fst
  | false => λ e, e
  end.

(** ** Example applications *)

Definition empty_world : World := mkWorld [] (λ _ _, None) [] None.

Definition no_roles : RoleClassifier.t := RoleClassifier.mk [] (λ _ _ _, "") (λ _ _ _, []).
Definition no_resolver : EntityResolver.t := EntityResolver.mk (λ _, None).
Definition no_entities : EntityRecognizer.t := EntityRecognizer.mk [] (λ _ _, []) (λ _ _, []).

Definition example_intent (domain name : Label) : IntentProcessor.t :=
  IntentProcessor.mk true false None domain name no_entities None false []
    (λ _, (no_roles, no_resolver)).

(** A classifier that ranks the given labels in the given order. *)
Definition ranking (ranked : Proba) : LabelClassifier.t :=
  LabelClassifier.mk (λ _ _, default "" (head ranked.*1)) (λ _ _, ranked).

(** The taxonomy [{smart_home: {close_door, open_door}}] of the spec. *)
Definition smart_home : DomainProcessor.t :=
  DomainProcessor.mk true false None "smart_home"
    (ranking [("open_door", 0.75%float); ("close_door", 0.25%float)])
    [("close_door", example_intent "smart_home" "close_door");
     ("open_door", example_intent "smart_home" "open_door")].

Definition smart_home_app : NaturalLanguageProcessor.t :=
  NaturalLanguageProcessor.mk true false None "now"
    (ranking [("smart_home", 1%float)]) [("smart_home", smart_home)].

(** A domain with the single intent [get_weather], and an application with
    both domains. *)
Definition weather : DomainProcessor.t :=
  DomainProcessor.mk true false None "weather" (ranking [("get_weather", 1%float)])
    [("get_weather", example_intent "weather" "get_weather")].

Definition home_and_weather_app : NaturalLanguageProcessor.t :=
  NaturalLanguageProcessor.mk true false None "now"
    (ranking [("weather", 0.5%float); ("smart_home", 0.5%float)])
    [("smart_home", smart_home); ("weather", weather)].

Definition close_the_door : Query := mkQuery "close the door".

(** A restriction that names two domains unknown to [smart_home_app]. *)
Definition weather_or_music : gmap Label (gset Label) :=
  {[ "weather" := ∅; "music" := ∅ ]}.

(** An intent that books tickets: its recognizer finds the number of
    tickets in two transcripts of the same utterance; the entity type
    [number] has the one role [count], and its resolver answers with the
    texts it is given. *)
Definition number_at (s e : Z) (surface : string) : QueryEntity :=
  mkQueryEntity (mkSpan s e) (mkEntity surface "number" None None).

Definition numbers_in (q : Query) : list QueryEntity :=
  if String.eqb (query_text q) "book 2 tickets" then [number_at 5 6 "2"]
  else if String.eqb (query_text q) "book two tickets" then [number_at 5 8 "two"]
  else [].

Definition ticket_recognizer : EntityRecognizer.t :=
  EntityRecognizer.mk ["number"] (λ q _, numbers_in q)
    (λ q _, (λ e, (e, 0.5%float)) <$> numbers_in q).

Definition count_role : RoleClassifier.t :=
  RoleClassifier.mk ["count"] (λ _ _ _, "count") (λ _ _ _, [("count", 1%float)]).

Definition text_resolver : EntityResolver.t :=
  EntityResolver.mk (λ entity_list, Some (String.concat "|" (text <$> entity_list))).

Definition number_processor : EntityProcessor.t :=
  EntityProcessor.mk true false None "tickets" "book" "number" count_role text_resolver.

Definition book : IntentProcessor.t :=
  IntentProcessor.mk true false None "tickets" "book" ticket_recognizer None true
    [("number", number_processor)] (λ _, (count_role, text_resolver)).

Definition book_2_tickets : list Query :=
  [mkQuery "book 2 tickets"; mkQuery "book two tickets"].

(** A pool that is never given a task. *)
Definition idle_pool : pool_runs :=
  mkPoolRuns (λ _, mkPoolRun [] (λ _, Pending) []) (mkPoolRun [] (λ _, Pending) []).

(** The result of [process_query] on the two transcripts, and the world it
    leaves, without a process pool. *)
Definition booked : ProcessedQuery :=
  mkProcessedQuery (mkQuery "book 2 tickets") [2%nat]
    (mkConfidence None None None None)
    (Some book_2_tickets) (Some [[0%nat]; [1%nat]]) (Some [[0%nat; 1%nat]]) None None.

Definition after_booking : World :=
  mkWorld
    [(entity_rec "tickets" "book", call_predict); (entity_rec "tickets" "book", call_predict);
     (role_clf "tickets" "book" "number", call_predict); (resolver "number", call_predict)]
    (faults empty_world)
    [number_at 5 6 "2"; number_at 5 8 "two";
     mkQueryEntity (mkSpan 5 6) (mkEntity "2" "number" (Some "count") (Some "2|two"))]
    None.




(** ** Vocabulary of the properties of the processor tree *)

(** A property [Q] of the flags [ready] and [dirty] and of the incremental
    timestamp holds of a processor and of all the processors below it. *)
Definition entity_tier (Q : bool → bool → option string → Prop) (self : EntityProcessor.t)
  : Prop :=
  Q (EntityProcessor.ready self) (EntityProcessor.dirty self)
    (EntityProcessor.incremental_timestamp self).

Definition intent_tier (Q : bool → bool → option string → Prop) (self : IntentProcessor.t)
  : Prop :=
  Q (IntentProcessor.ready self) (IntentProcessor.dirty self)
    (IntentProcessor.incremental_timestamp self) ∧
  Forall (λ c, entity_tier Q c.2) (IntentProcessor.entities self).

Definition domain_tier (Q : bool → bool → option string → Prop) (self : DomainProcessor.t)
  : Prop :=
  Q (DomainProcessor.ready self) (DomainProcessor.dirty self)
    (DomainProcessor.incremental_timestamp self) ∧
  Forall (λ c, intent_tier Q c.2) (DomainProcessor.intents self).

Definition whole_tree (Q : bool → bool → option string → Prop)
    (self : NaturalLanguageProcessor.t) : Prop :=
  Q (NaturalLanguageProcessor.ready self) (NaturalLanguageProcessor.dirty self)
    (NaturalLanguageProcessor.incremental_timestamp self) ∧
  Forall (λ c, domain_tier Q c.2) (NaturalLanguageProcessor.domains self).

(** The flags and the timestamp of a processor below one that was built
    with [incremental] and the timestamp [ts]; of a loaded processor; of a
    dumped one. *)
Definition built (incremental : bool) (ts : option string)
  : bool → bool → option string → Prop :=
  λ ready dirty incremental_timestamp,
    ready = true ∧ dirty = negb incremental ∧ incremental_timestamp = ts.

Definition loaded : bool → bool → option string → Prop :=
  λ ready dirty _, ready = true ∧ dirty = false.

Definition dumped : bool → bool → option string → Prop :=
  λ _ dirty _, dirty = false.

(** ** The markup language: [mmworkbench/markup.py]

    [NaturalLanguageProcessor.inspect] reads its query from marked up text
    with [process_markup], whose first stage is pure: [_tokenize_markup]
    cuts the text into tokens and [_parse_tokens] separates the raw text from
    the annotations; [mark_down] keeps the raw text.  A Python [str] is
    modelled by a [string], one [ascii] for each character; the five special
    characters are ASCII. *)
Module Markup.

Definition ENTITY_START : ascii := "{".
Definition ENTITY_END : ascii := "}".
Definition GROUP_START : ascii := "[".
Definition GROUP_END : ascii := "]".
Definition META_SPLIT : ascii := "|".

Definition START_CHARACTERS : list ascii := [ENTITY_START; GROUP_START].
Definition END_CHARACTERS : list ascii := [ENTITY_END; GROUP_END].
Definition SPECIAL_CHARACTERS : list ascii :=
  [ENTITY_START; ENTITY_END; GROUP_START; GROUP_END; META_SPLIT].

(** [char in CHARACTERS] *)
Definition char_in (char : ascii) (characters : list ascii) : bool :=
  existsb (Ascii.eqb char) characters.

(** What the functions raise: [MarkupError] of the package's [exceptions] with
    its message, or a built-in exception. *)
Inductive failure : Type :=
| MarkupError (msg : string)
| Builtin (e : exn).

(** The keys of [open_annotations] and the values of ['ann_type']. *)
Inductive ann_type : Type := group | entity.

Definition key_name (key : ann_type) : string :=
  match key with group => "group" | entity => "entity" end.

(** *** [_tokenize_markup] *)

(** The local variables of the generator. *)
Record tokenizer : Type := mkTokenizer {
  token : string;
  token_is_meta : bool;
  open_group : nat;
  open_entity : nat
}.

Definition open_annotations (st : tokenizer) (key : ann_type) : nat :=
  match key with group => open_group st | entity => open_entity st end.

(** [if token: yield token] *)
Definition yield_token (token : string) : list string :=
  match token with
  | EmptyString => []
  | _ => [token]
  end.

Definition char_token (char : ascii) : string := String char EmptyString.

(** The body of [for idx, char in enumerate(markup)]: the tokens it
    yields and the new values of the variables, or the error it raises. *)
Definition tokenize_char (idx : nat) (char : ascii) (st : tokenizer)
  : failure + (list string * tokenizer) :=
  if char_in char SPECIAL_CHARACTERS then
    if char_in char START_CHARACTERS then
      inr (yield_token (token st) ++ [char_token char],
           if Ascii.eqb char GROUP_START
           then mkTokenizer "" (token_is_meta st) (S (open_group st)) (open_entity st)
           else mkTokenizer "" (token_is_meta st) (open_group st) (S (open_entity st)))
    else if Ascii.eqb char META_SPLIT then
      inr (yield_token (token st) ++ [char_token char],
           mkTokenizer "" true (open_group st) (open_entity st))
    else if char_in char END_CHARACTERS then
      let key := if Ascii.eqb char GROUP_END then group else entity in
      if (open_annotations st key =? 0)%nat then
        inl (MarkupError ("Mismatched end for " +:+ key_name key +:+ " at position "
                          +:+ pretty idx))
      else if negb (token_is_meta st) then
        inl (MarkupError ("Missing label for " +:+ key_name key +:+ " at position "
                          +:+ pretty idx))
      else if String.eqb (token st) "" then
        inl (MarkupError ("Empty label for " +:+ key_name key +:+ " at position "
                          +:+ pretty idx))
      else
        inr ([token st; char_token char],
             match key with
             | group => mkTokenizer "" false (pred (open_group st)) (open_entity st)
             | entity => mkTokenizer "" false (open_group st) (pred (open_entity st))
             end)
    else inr ([], st)
  else
    inr ([], mkTokenizer (token st +:+ char_token char) (token_is_meta st)
                         (open_group st) (open_entity st)).

(** After the loop: [for key in open_annotations: ...], then the last
    token. *)
Definition tokenize_end (st : tokenizer) : list string * option failure :=
  if negb (open_group st =? 0)%nat then
    ([], Some (MarkupError "Mismatched start for group"))
  else if negb (open_entity st =? 0)%nat then
    ([], Some (MarkupError "Mismatched start for entity"))
  else (yield_token (token st), None).

(** The generator from position [idx] on: the tokens it yields, in order,
    and the error that ends it, if any. *)
Fixpoint tokenize_from (idx : nat) (markup : string) (st : tokenizer)
  : list string * option failure :=
  match markup with
  | EmptyString => tokenize_end st
  | String char markup' =>
      match tokenize_char idx char st with
      | inl e => ([], Some e)
      | inr (yielded, st') =>
          let rest := tokenize_from (S idx) markup' st' in
          (yielded ++ rest.1, rest.2)
      end
  end.

Definition _tokenize_markup (markup : string) : list string * option failure :=
  tokenize_from 0 markup (mkTokenizer "" false 0 0).

(** *** [_parse_tokens] *)

(** An annotation: a dict with the keys ['start'], ['ann_type'] ([kind]
    here) and ['depth'], to which ['type'] and ['role'] are added by the
    labels and ['end'] and ['text'] when it is closed. *)
Record annotation : Type := mkAnnotation {
  start : nat;
  kind : ann_type;
  depth : nat;
  end_ : option Z;
  text : option string;
  type : option string;
  role : option string
}.

(** The local variables of [_parse_tokens]: [text], [annotations], [stack]
    (its top is the first element) and [token_is_meta]. *)
Record parser : Type := mkParser {
  raw_text : string;
  annotations : list annotation;
  stack : list annotation;
  is_meta : bool
}.

(** [text[a:b]] for indices that are not negative. *)
Definition slice (s : string) (a b : nat) : string := substring a (b - a) s.

(** [annotation[key] = token] *)
Definition set_label (a : annotation) (token : string) : annotation :=
  match kind a with
  | group =>
      mkAnnotation (start a) (kind a) (depth a) (end_ a) (text a) (Some token) (role a)
  | entity =>
      match type a with
      | Some _ =>
          mkAnnotation (start a) (kind a) (depth a) (end_ a) (text a) (type a) (Some token)
      | None =>
          mkAnnotation (start a) (kind a) (depth a) (end_ a) (text a) (Some token) (role a)
      end
  end.

(** [annotation['end'] = len(text) - 1;
     annotation['text'] = text[annotation['start']:annotation['end'] + 1]] *)
Definition close (a : annotation) (raw : string) : annotation :=
  mkAnnotation (start a) (kind a) (depth a)
    (Some (Z.of_nat (String.length raw) - 1))
    (Some (slice raw (start a) (String.length raw)))
    (type a) (role a).

(** The body of [for token in tokens]. *)
Definition parse_token (st : parser) (token : string) : failure + parser :=
  if String.eqb token (char_token ENTITY_START) || String.eqb token (char_token GROUP_START)
  then
    let annotation :=
      mkAnnotation (String.length (raw_text st))
        (if String.eqb token (char_token GROUP_START) then group else entity)
        (length (stack st)) None None None None in
    inr (mkParser (raw_text st) (annotations st) (annotation :: stack st) (is_meta st))
  else if String.eqb token (char_token META_SPLIT) then
    inr (mkParser (raw_text st) (annotations st) (stack st) true)
  else if String.eqb token (char_token ENTITY_END) || String.eqb token (char_token GROUP_END)
  then
    match stack st with
    | annotation :: stack' =>
        inr (mkParser (raw_text st) (annotations st ++ [close annotation (raw_text st)])
                      stack' false)
    | [] => inl (Builtin IndexError)
    end
  else if is_meta st then
    match stack st with
    | annotation :: stack' =>
        inr (mkParser (raw_text st) (annotations st) (set_label annotation token :: stack')
                      true)
    | [] => inl (Builtin IndexError)
    end
  else
    inr (mkParser (raw_text st +:+ token) (annotations st) (stack st) false).

Fixpoint parse_tokens_from (st : parser) (tokens : list string) : failure + parser :=
  match tokens with
  | [] => inr st
  | token :: tokens' =>
      match parse_token st token with
      | inl e => inl e
      | inr st' => parse_tokens_from st' tokens'
      end
  end.

(** [sorted(l, key=...)]: the sort is stable, an element stays before
    the later elements of the same key. *)
Fixpoint insert_before {A} (key : A → nat) (x : A) (l : list A) : list A :=
  match l with
  | [] => [x]
  | y :: l' => if (key y <? key x)%nat then y :: insert_before key x l' else x :: y :: l'
  end.

Fixpoint sorted {A} (key : A → nat) (l : list A) : list A :=
  match l with
  | [] => []
  | x :: l' => insert_before key x (sorted key l')
  end.

(** [_parse_tokens(tokens)] on the generator [tokens]: the loop takes the
    tokens one by one, so an error of the loop comes before the error that
    ends the generator. *)
Definition _parse_tokens (tokens : list string * option failure)
  : failure + (string * list annotation) :=
  match parse_tokens_from (mkParser "" [] [] false) tokens.1 with
  | inl e => inl e
  | inr st =>
      match tokens.2 with
      | Some e => inl e
      | None => inr (raw_text st, sorted start (sorted depth (annotations st)))
      end
  end.

Definition mark_down (markup : string) : failure + string :=
  match _parse_tokens (_tokenize_markup markup) with
  | inl e => inl e
  | inr (text, _) => inr text
  end.
End Markup.

(** ** The text front end: [create_query] and [process] *)

(** The [query_text] argument: [None], a text, or the list of the n-best
    transcripts. *)
Inductive text_arg : Type :=
| no_text
| a_text (s : string)
| n_best_texts (l : list string).

(** A computation that only returns or raises. *)
Definition of_result {A} (r : result A) : M A := λ w, (r, w).

Section Process.
(** Modelled from the spec: [resource_loader.query_factory.create_query]
    with the options of the call applied (the preprocessor, the tokenizer
    and the stemmer that [QueryFactory.create_query] runs, and the [Query]
    it builds, are not part of the engine), and [ProcessedQuery.to_dict] of
    [mindmeld.core]. *)
Context (query_factory : string → M Query).
Context {D : Type} (to_dict : ProcessedQuery → M D).

(** [Processor.create_query]: [if not query_text: query_text = ''] turns
    [None] and the empty list into the empty text; a list goes through
    [_process_list], which calls [create_query] on each of its texts. *)
Definition create_query (run : pool_run Query) (query_text : text_arg) : M query_arg :=
  match query_text with
  | n_best_texts (s :: l) =>
      slots ← _process_list mret query_factory run (s :: l);
      queries ← results_of slots;
      mret (n_best queries)
  | a_text s => q ← query_factory s; mret (a_query q)
  | no_text | n_best_texts [] => q ← query_factory ""; mret (a_query q)
  end.

(** [NaturalLanguageProcessor.process], with [Processor.process] which it
    ends with. *)
Definition NaturalLanguageProcessor_process (self : NaturalLanguageProcessor.t)
    (pool : pool_runs) (run : pool_run Query) (query_text : text_arg)
    (allowed_nlp_classes : option (gmap Label (gset Label)))
    (allowed_intents : option (list string))
    (dynamic_resource : DynamicResource) (verbose : bool) : M D :=
  match allowed_intents, allowed_nlp_classes with
  | Some _, Some _ => raise TypeError
  | _, _ =>
      allowed_nlp_classes ←
        match allowed_intents with
        | Some (allowed_intent :: allowed_intents') =>
            classes ← of_result (NaturalLanguageProcessor.extract_allowed_intents self
                                   (allowed_intent :: allowed_intents'));
            mret (Some classes)
        | _ => mret allowed_nlp_classes
        end;
      query ← create_query run query_text;
      processed_query ←
        NaturalLanguageProcessor.process_query self pool query allowed_nlp_classes
          dynamic_resource verbose;
      to_dict processed_query
  end.

(** [DomainProcessor.process] *)
Definition DomainProcessor_process (self : DomainProcessor.t)
    (pool : pool_runs) (run : pool_run Query) (query_text : text_arg)
    (allowed_nlp_classes : option (gset Label))
    (dynamic_resource : DynamicResource) (verbose : bool) : M D :=
  query ← create_query run query_text;
  processed_query ←
    DomainProcessor.process_query self pool query allowed_nlp_classes dynamic_resource verbose;
  to_dict (with_domain (DomainProcessor.name self) processed_query).

(** [IntentProcessor.process]: [verbose] is not handed to
    [process_query]. *)
Definition IntentProcessor_process (self : IntentProcessor.t)
    (pool : pool_runs) (run : pool_run Query) (query_text : text_arg)
    (dynamic_resource : DynamicResource) (verbose : bool) : M D :=
  query ← create_query run query_text;
  processed_query ← IntentProcessor.process_query self pool query dynamic_resource false;
  to_dict (with_intent (IntentProcessor.name self)
             (with_domain (IntentProcessor.domain self) processed_query)).

(** [EntityProcessor.process] is [Processor.process]. *)
Definition EntityProcessor_process (self : EntityProcessor.t)
    (run : pool_run Query) (query_text : text_arg)
    (allowed_nlp_classes : option (gset Label))
    (dynamic_resource : DynamicResource) (verbose : bool) : M D :=
  query ← create_query run query_text;
  processed_query ←
    EntityProcessor.process_query self query allowed_nlp_classes dynamic_resource verbose;
  to_dict processed_query.
End Process.

(** ** Vocabulary of the properties of the markup *)

(** A text without any of the five special characters. *)
Fixpoint plain (s : string) : bool :=
  match s with
  | EmptyString => true
  | String c s' => negb (Markup.char_in c Markup.SPECIAL_CHARACTERS) && plain s'
  end.

(** [''.join(tokens)] *)
Definition join (tokens : list string) : string := foldr String.append "" tokens.

(** A token is one special character or a text without any. *)
Definition token_shape (token : string) : Prop :=
  plain token = true ∨
  ∃ c, token = Markup.char_token c ∧ Markup.char_in c Markup.SPECIAL_CHARACTERS = true.

(** ** Construction: the [__init__] methods *)

(** Modelled from the spec: what the constructors read of the application.
    The directories of the domains and intents ([path.get_domains],
    [path.get_intents]), the components that the classes
    [DomainClassifier], [IntentClassifier], [EntityRecognizer], [Parser]
    (absent when its configuration file is not found), [RoleClassifier] and
    [EntityResolver] build from the resource loader, the entry
    ['resolve_entities_using_nbest_transcripts'] of the configuration (empty
    when it is missing) and the clock are not part of the engine. *)
Record App : Type := mkApp {
  get_domains : list Label;
  get_intents : Label → list Label;
  DomainClassifier : LabelClassifier.t;
  IntentClassifier : Label → LabelClassifier.t;
  EntityRecognizer_of : Label → Label → EntityRecognizer.t;
  Parser_of : Label → Label → option Parser.t;
  models_of : Label → Label → Label → RoleClassifier.t * EntityResolver.t;
  resolve_entities_using_nbest_transcripts : list string;
  clock : string
}.

(** [IntentProcessor.__init__]: [Processor.__init__] leaves the processor
    without children, not ready and not dirty. *)
Definition IntentProcessor__init__ (app : App) (domain intent : Label) : IntentProcessor.t :=
  IntentProcessor.mk false false None domain intent
    (EntityRecognizer_of app domain intent) (Parser_of app domain intent) false []
    (models_of app domain intent).

(** [DomainProcessor.__init__] *)
Definition DomainProcessor__init__ (app : App) (domain : Label) : DomainProcessor.t :=
  DomainProcessor.mk false false None domain (IntentClassifier app domain)
    (foldl (λ children intent,
              set_child children intent (IntentProcessor__init__ app domain intent))
           [] (get_intents app domain)).

(** The setter of [nbest_transcripts_enabled]. *)
Definition set_nbest_transcripts_enabled (value : bool) (self : IntentProcessor.t)
  : IntentProcessor.t :=
  IntentProcessor.mk (IntentProcessor.ready self) (IntentProcessor.dirty self)
    (IntentProcessor.incremental_timestamp self) (IntentProcessor.domain self)
    (IntentProcessor.name self) (IntentProcessor.entity_recognizer self)
    (IntentProcessor.parser self) value (IntentProcessor.entities self)
    (IntentProcessor.models_for self).

(** [self.domains[domain].intents[intent].nbest_transcripts_enabled = True] *)
Definition enable_nbest (self : NaturalLanguageProcessor.t) (domain intent : Label)
  : result NaturalLanguageProcessor.t :=
  match child (NaturalLanguageProcessor.domains self) domain with
  | None => Raise (KeyError domain)
  | Some domain_processor =>
      match child (DomainProcessor.intents domain_processor) intent with
      | None => Raise (KeyError intent)
      | Some intent_processor =>
          Ok (NaturalLanguageProcessor.set_domains
                (set_child (NaturalLanguageProcessor.domains self) domain
                   (DomainProcessor.set_intents
                      (set_child (DomainProcessor.intents domain_processor) intent
                         (set_nbest_transcripts_enabled true intent_processor))
                      domain_processor))
                self)
      end
  end.

(** The tree as the loop over the domains leaves it, before the
    configuration of the n-best transcripts is read. *)
Definition new_tree (app : App) : NaturalLanguageProcessor.t :=
  NaturalLanguageProcessor.mk false false None (clock app) (DomainClassifier app)
    (foldl (λ children domain, set_child children domain (DomainProcessor__init__ app domain))
           [] (get_domains app)).

(** [NaturalLanguageProcessor.__init__] *)
Definition NaturalLanguageProcessor__init__ (app : App) : result NaturalLanguageProcessor.t :=
  let self := new_tree app in
  let nbest_transcripts_nlp_classes := resolve_entities_using_nbest_transcripts app in
  if (0 <? Z.of_nat (length nbest_transcripts_nlp_classes)) then
    match NaturalLanguageProcessor.extract_allowed_intents self
            nbest_transcripts_nlp_classes with
    | Raise e => Raise e
    | Ok nbest_transcripts_nlp_classes =>
        fold_result
          (λ self (entry : Label * gset Label),
             fold_result (λ self intent, enable_nbest self entry.1 intent) self
                         (elements entry.2))
          self (map_to_list nbest_transcripts_nlp_classes)
    end
  else Ok self.

(** Whether the intent [intent] of the domain [domain] has n-best
    processing enabled; [false] when the tree has no such intent. *)
Definition nbest_enabled (self : NaturalLanguageProcessor.t) (domain intent : Label) : bool :=
  match child (NaturalLanguageProcessor.domains self) domain with
  | Some domain_processor =>
      match child (DomainProcessor.intents domain_processor) intent with
      | Some intent_processor => IntentProcessor.nbest_transcripts_enabled intent_processor
      | None => false
      end
  | None => false
  end.

(** Whether the tree has the intent [intent] in the domain [domain]. *)
Definition has_intent (self : NaturalLanguageProcessor.t) (domain intent : Label) : bool :=
  match child (NaturalLanguageProcessor.domains self) domain with
  | Some domain_processor =>
      bool_decide (is_Some (child (DomainProcessor.intents domain_processor) intent))
  | None => false
  end.

(** ** More examples *)

(** An application with the one domain [tickets] and its one intent [book],
    as its constructor finds it: the recognizer, the role classifier and
    the resolver are those of [book]; n-best processing is configured for
    the intent. *)
Definition ticket_shop : App :=
  mkApp ["tickets"] (λ _, ["book"]) (ranking [("tickets", 1%float)])
    (λ _, ranking [("book", 1%float)]) (λ _ _, ticket_recognizer) (λ _ _, None)
    (λ _ _ _, (count_role, text_resolver)) ["tickets.book"] "now".

(** The domain [tickets] with the intent [book], and its application, built. *)
Definition tickets : DomainProcessor.t :=
  DomainProcessor.mk true false None "tickets" (ranking [("book", 1%float)])
    [("book", book)].

Definition tickets_app : NaturalLanguageProcessor.t :=
  NaturalLanguageProcessor.mk true false None "now" (ranking [("tickets", 1%float)])
    [("tickets", tickets)].

(** A world where the entity resolver of [number] cannot be reached. *)
Definition resolver_down : World :=
  mkWorld []
    (λ c k, match c, k with
            | resolver _, call_load => Some EntityResolverConnectionError
            | _, _ => None
            end)
    [] None.

(** A query factory that keeps the text, and a [to_dict] that keeps the
    processed query. *)
Definition plain_query (s : string) : M Query := mret (mkQuery s).
Definition as_is (pq : ProcessedQuery) : M ProcessedQuery := mret pq.

(** A pool that is never given a task of [create_query]. *)
Definition idle_run : pool_run Query := mkPoolRun [] (λ _, Pending) [].

(* ===================================================================== *)
(** * Part II.  Properties                                                *)
(* ===================================================================== *)

Section AlignFacts.
Context {E : Type} (span_of : E → Span) (type_of : E → Label).
Local Abbreviation aligns' := (aligns span_of type_of).
Local Abbreviation place' := (place span_of type_of).
Local Abbreviation placements' := (placements span_of type_of).
Local Abbreviation align_entity' := (align_entity span_of type_of).
Local Abbreviation align_transcript' := (align_transcript span_of type_of).
Local Abbreviation grouped' := (grouped span_of type_of).

Lemma first_aligned_spec j0 refs ent j :
  first_aligned span_of type_of j0 refs ent = Some j →
  (j0 ≤ j)%nat ∧
  (∃ r, refs !! (j - j0)%nat = Some r ∧ aligns' ent r = true) ∧
  (∀ k r, (k < j - j0)%nat → refs !! k = Some r → aligns' ent r = false).
Proof.
  revert j0. induction refs as [|r refs IH]; intros j0; simpl; [done|].
  destruct (aligns' ent r) eqn:Hr.
  - intros [= <-]. split; [lia|]. rewrite Nat.sub_diag. split; [eauto|]. intros; lia.
  - intros H. destruct (IH _ H) as (Hle & (r' & Hr' & Ha) & Hfirst).
    split; [lia|]. split.
    + exists r'. split; [|done].
      replace (j - j0)%nat with (S (j - S j0)) by lia. done.
    + intros k r0 Hk Hl. destruct k as [|k]; simpl in Hl.
      * by simplify_eq.
      * apply (Hfirst k); [lia|done].
Qed.

Lemma first_aligned_none j0 refs ent :
  first_aligned span_of type_of j0 refs ent = None →
  ∀ r, r ∈ refs → aligns' ent r = false.
Proof.
  revert j0. induction refs as [|r refs IH]; intros j0; simpl.
  - intros _ r Hr. by apply elem_of_nil in Hr.
  - destruct (aligns' ent r) eqn:Hr; [done|].
    intros H r' [->|Hin]%elem_of_cons; [done|]. by eapply IH.
Qed.

Lemma aligns_spec (c r : E) :
  aligns' c r = true ↔
  type_of r = type_of c ∧
  Z.min (widened_end (span_of c)) (widened_end (span_of r))
    - Z.max (start (span_of r)) (start (span_of c)) > 0.
Proof.
  unfold aligns. rewrite andb_true_iff, String.eqb_eq.
  rewrite Z.gtb_gt. intuition lia.
Qed.

Lemma place_spec refs p ent i :
  place' refs p ent = Some i →
  (p ≤ i)%nat ∧
  (∃ r, refs !! i = Some r ∧ aligns' ent r = true) ∧
  (∀ j r, (p ≤ j < i)%nat → refs !! j = Some r → aligns' ent r = false).
Proof.
  unfold place. intros (j & Hj & ->)%fmap_Some.
  apply first_aligned_spec in Hj as (_ & (r & Hr & Ha) & Hfirst).
  rewrite Nat.sub_0_r in Hr. rewrite lookup_drop in Hr.
  split; [lia|]. split; [eauto|].
  intros k r' Hk Hl. apply (Hfirst (k - p)%nat); [lia|].
  rewrite lookup_drop. by replace (p + (k - p))%nat with k by lia.
Qed.

Lemma place_none refs p ent :
  place' refs p ent = None →
  ∀ j r, (p ≤ j)%nat → refs !! j = Some r → aligns' ent r = false.
Proof.
  unfold place. intros Hn%fmap_None j r Hj Hl.
  eapply first_aligned_none; [done|].
  apply list_elem_of_lookup. exists (j - p)%nat.
  rewrite lookup_drop. by replace (p + (j - p))%nat with j by lia.
Qed.

(** The loop over one transcript, as the trace of its placements'. *)
Lemma foldl_align_entity refs p aligned ents :
  (foldl (align_entity' refs) (p, aligned) ents).2 =
  foldl apply_placement aligned (zip ents (placements' refs p ents)).
Proof.
  revert p aligned. induction ents as [|ent ents IH]; intros p aligned; [done|].
  simpl. unfold apply_placement at 2. simpl.
  destruct (place' refs p ent) as [i|]; simpl; apply IH.
Qed.

Lemma align_transcript_placements refs aligned ents :
  align_transcript' refs aligned ents =
  foldl apply_placement aligned (zip ents (placements' refs 0 ents)).
Proof. apply foldl_align_entity. Qed.

(** Every placement is at or after the pointer it was scanned from, and
    the pointer of the next candidate is the last placement. *)
Lemma placements_lower_bound refs p ents q o :
  (q, o) ∈ placements' refs p ents → (p ≤ q)%nat ∧ ∀ i, o = Some i → (p ≤ i)%nat.
Proof.
  revert p. induction ents as [|ent ents IH]; intros p; simpl.
  - by intros ?%elem_of_nil.
  - intros [[= -> ->]|Hin]%elem_of_cons.
    + split; [lia|]. intros i Hi. by apply place_spec in Hi as (? & _).
    + apply IH in Hin as [Hq Ho].
      destruct (place' refs p ent) as [i|] eqn:Hp; simpl in *.
      * apply place_spec in Hp as (? & _). split; [lia|]. intros i' Hi'.
        specialize (Ho _ Hi'). lia.
      * done.
Qed.

Lemma placed_indices_from_sorted refs p ents :
  StronglySorted le (omap snd (placements' refs p ents)) ∧
  Forall (le p) (omap snd (placements' refs p ents)).
Proof.
  revert p. induction ents as [|ent ents IH]; intros p; simpl.
  - split; constructor.
  - destruct (place' refs p ent) as [i|] eqn:Hp; simpl.
    + apply place_spec in Hp as (Hpi & _).
      destruct (IH i) as [Hs Hf]. split.
      * by constructor.
      * constructor; [done|]. eapply Forall_impl; [done|]. simpl. intros; lia.
    + apply IH.
Qed.

Lemma grouped_init P refs : grouped' P refs ((λ e, [e]) <$> refs).
Proof.
  unfold grouped. induction refs as [|r refs IH]; simpl; constructor; [|done].
  exists []. by split.
Qed.

Lemma grouped_align_entity P refs p groups ent :
  grouped' P refs groups → P ent →
  grouped' P refs (align_entity' refs (p, groups) ent).2.
Proof.
  intros Hg HP. simpl. destruct (place' refs p ent) as [i|] eqn:Hp; [|done].
  apply place_spec in Hp as (_ & (r & Hr & Ha) & _). simpl.
  apply Forall2_alter_r; [done|].
  intros r' g Hr' _ (app & -> & Happ). simplify_eq.
  exists (app ++ [ent]). split; [done|].
  apply Forall_app. split; [done|]. by repeat constructor.
Qed.

Lemma grouped_align_transcript P refs groups ents :
  grouped' P refs groups → Forall P ents →
  grouped' P refs (align_transcript' refs groups ents).
Proof.
  unfold align_transcript. generalize 0%nat. intros p Hg Hents.
  revert p groups Hg. induction Hents as [|ent ents HP _ IH]; intros p groups Hg; [done|].
  cbn [foldl]. pose proof (grouped_align_entity P refs p groups ent Hg HP) as Hg'.
  destruct (align_entity' refs (p, groups) ent) as [p' groups'] eqn:Hst.
  by apply IH.
Qed.

Lemma grouped_foldl P refs groups rest :
  grouped' P refs groups → Forall (Forall P) rest →
  grouped' P refs (foldl (align_transcript' refs) groups rest).
Proof.
  intros Hg Hrest. revert groups Hg.
  induction Hrest as [|ents rest HP _ IH]; intros groups Hg; [done|].
  simpl. apply IH. by apply grouped_align_transcript.
Qed.

Lemma grouped_weaken (P Q : E → Prop) refs groups :
  (∀ c, P c → Q c) → grouped' P refs groups → grouped' Q refs groups.
Proof.
  intros HPQ Hg. unfold grouped. eapply Forall2_impl; [exact Hg|].
  intros r g (app & -> & Happ). exists app. split; [done|].
  eapply Forall_impl; [done|]. naive_solver.
Qed.

Lemma _align_entities_grouped nbest refs rest :
  ∃ groups, _align_entities span_of type_of nbest (refs :: rest) = Ok groups ∧
            grouped' (λ c, ∃ ents, ents ∈ rest ∧ c ∈ ents) refs groups.
Proof.
  unfold _align_entities.
  destruct ((1 <? Z.of_nat (length (refs :: rest))) && nbest).
  - eexists. split; [done|]. apply grouped_foldl; [apply grouped_init|].
    apply Forall_forall. intros ents Hents. apply Forall_forall. eauto.
  - eexists. split; [done|]. apply grouped_init.
Qed.

Lemma grouped_length P refs groups :
  grouped' P refs groups → length groups = length refs.
Proof. intros Hg. symmetry. by eapply Forall2_length. Qed.

Lemma grouped_lookup P refs groups i r :
  grouped' P refs groups → refs !! i = Some r →
  ∃ appended, groups !! i = Some (r :: appended) ∧
              Forall (λ c, P c ∧ aligns' c r = true) appended.
Proof.
  intros Hg Hr.
  destruct (Forall2_lookup_l _ _ _ _ _ Hg Hr) as (g & Hgi & app & -> & Happ).
  eauto.
Qed.

Lemma placements_lookup refs p ents k q o c :
  placements' refs p ents !! k = Some (q, o) → ents !! k = Some c →
  o = place' refs q c.
Proof.
  revert p k. induction ents as [|ent ents IH]; intros p k; [done|].
  destruct k as [|k]; simpl.
  - by intros [= <- <-] [= <-].
  - apply IH.
Qed.

Lemma placements_entry refs p ents q i :
  (q, Some i) ∈ placements' refs p ents → (q ≤ i)%nat.
Proof.
  revert p. induction ents as [|ent ents IH]; intros p; simpl.
  - by intros ?%elem_of_nil.
  - intros [[= -> Hp]|Hin]%elem_of_cons.
    + symmetry in Hp. by apply place_spec in Hp as (? & _).
    + by eapply IH.
Qed.

Lemma placements_later refs p ents k1 k2 p1 i1 p2 o2 :
  (k1 < k2)%nat →
  placements' refs p ents !! k1 = Some (p1, Some i1) →
  placements' refs p ents !! k2 = Some (p2, o2) →
  (i1 ≤ p2)%nat.
Proof.
  revert p k1 k2. induction ents as [|ent ents IH]; intros p k1 k2 Hk; [done|].
  destruct k2 as [|k2]; [lia|]. destruct k1 as [|k1]; simpl.
  - intros [= <- Hp] H2. rewrite Hp in H2. simpl in H2.
    apply list_elem_of_lookup_2 in H2.
    by apply placements_lower_bound in H2 as [? _].
  - apply IH. lia.
Qed.

Lemma _align_entities_trace nbest refs rest :
  _align_entities span_of type_of nbest (refs :: rest) =
  Ok (if nbest
      then foldl (λ aligned ents,
                    foldl apply_placement aligned (zip ents (placements' refs 0 ents)))
                 ((λ e, [e]) <$> refs) rest
      else (λ e, [e]) <$> refs).
Proof.
  unfold _align_entities. destruct nbest; rewrite ?andb_false_r; [|done].
  rewrite andb_true_r. destruct rest as [|ents rest]; [done|].
  replace (1 <? Z.of_nat (length (refs :: ents :: rest))) with true
    by (symmetry; apply Z.ltb_lt; simpl; lia).
  f_equal. generalize ((λ e : E, [e]) <$> refs). generalize (ents :: rest).
  intros l. induction l as [|x l IH]; intros aligned; [done|].
  simpl. rewrite <- IH. f_equal. apply align_transcript_placements.
Qed.

(** The test of the code is the test of the specification. *)
Lemma aligns_spec_match (c r : E) :
  aligns' c r = true ↔ spec_match span_of type_of c r.
Proof.
  rewrite aligns_spec. unfold spec_match, spec_widen, widened_end.
  destruct (Z.eqb_spec (start (span_of c)) (end_ (span_of c)));
    destruct (Z.eqb_spec (start (span_of r)) (end_ (span_of r)));
    repeat case_decide; try done; simpl; intuition (congruence || lia).
Qed.

Lemma aligns_false_spec_match (c r : E) :
  aligns' c r = false ↔ ¬ spec_match span_of type_of c r.
Proof. rewrite <- aligns_spec_match. by destruct (aligns' c r). Qed.

(** The pointer of the trace: one entry per candidate, the first scan
    starts at the given pointer, and each later scan starts where the scan
    before it ended, or where it started when it found nothing. *)
Lemma placements_length refs p ents :
  length (placements' refs p ents) = length ents.
Proof.
  revert p. induction ents as [|ent ents IH]; intros p; [done|].
  simpl. by rewrite IH.
Qed.

Lemma placements_first refs p0 ents p o :
  placements' refs p0 ents !! 0%nat = Some (p, o) → p = p0.
Proof. destruct ents as [|ent ents]; simpl; [done|]. by intros [= <- _]. Qed.

Lemma placements_next refs p0 ents k p o p' o' :
  placements' refs p0 ents !! k = Some (p, o) →
  placements' refs p0 ents !! S k = Some (p', o') →
  p' = default p o.
Proof.
  revert p0 k. induction ents as [|ent ents IH]; intros p0 k; [done|].
  destruct k as [|k]; simpl.
  - intros [= <- <-] Hnext. by apply placements_first in Hnext.
  - apply IH.
Qed.

Lemma placed_at_cons (i : nat) (c : E) (p : nat) (o : option nat)
    (trace : list (E * (nat * option nat))) :
  placed_at i ((c, (p, o)) :: trace)
  = if decide (o = Some i) then c :: placed_at i trace else placed_at i trace.
Proof. unfold placed_at. simpl. by destruct (decide (o = Some i)). Qed.

(** What the trace appends to the group of index [i]. *)
Lemma foldl_apply_placement_lookup (trace : list (E * (nat * option nat)))
    (aligned : list (list E)) (i : nat) :
  foldl apply_placement aligned trace !! i
  = (λ group, group ++ placed_at i trace) <$> aligned !! i.
Proof.
  revert aligned. induction trace as [|[c [p o]] trace IH]; intros aligned.
  - cbn [foldl]. destruct (aligned !! i) as [group|]; simpl; [|done].
    by rewrite app_nil_r.
  - cbn [foldl]. rewrite IH, placed_at_cons. unfold apply_placement. cbn [fst snd].
    destruct o as [j|].
    + destruct (decide (j = i)) as [->|Hne].
      * rewrite list_lookup_alter, !decide_True by done.
        destruct (aligned !! i) as [group|]; simpl; [|done].
        by rewrite <- app_assoc.
      * rewrite list_lookup_alter_ne by done.
        by rewrite decide_False by congruence.
    + by rewrite decide_False by done.
Qed.

Lemma foldl_transcripts_lookup refs (rest : list (list E)) (aligned : list (list E))
    (i : nat) :
  foldl (λ aligned ents,
           foldl apply_placement aligned (zip ents (placements' refs 0 ents)))
        aligned rest !! i
  = (λ group,
       group ++ concat ((λ ents, placed_at i (zip ents (placements' refs 0 ents))) <$> rest))
    <$> aligned !! i.
Proof.
  revert aligned. induction rest as [|ents rest IH]; intros aligned.
  - cbn [foldl fmap list_fmap concat]. destruct (aligned !! i) as [group|]; simpl; [|done].
    by rewrite app_nil_r.
  - cbn [foldl]. rewrite IH, foldl_apply_placement_lookup, fmap_cons. cbn [concat].
    destruct (aligned !! i) as [group|]; simpl; [|done].
    by rewrite <- app_assoc.
Qed.

Lemma placed_at_elem_of (ents : list E) (trace : list (nat * option nat)) k c p i :
  ents !! k = Some c → trace !! k = Some (p, Some i) →
  c ∈ placed_at i (zip ents trace).
Proof.
  intros Hc Hp. unfold placed_at. apply list_elem_of_omap.
  exists (c, (p, Some i)). split.
  - apply list_elem_of_lookup. exists k. by apply lookup_zip_Some.
  - simpl. by rewrite decide_True.
Qed.

(** C1.  For a non-empty list [refs :: rest] of per-transcript entity
    lists, [_align_entities] returns one group per entity of transcript 0,
    in that order, each headed by its reference entity.  An entity appended
    to a group comes from a later transcript and matches the group's
    reference entity as the specification words it: the same type, and a
    positive span overlap after zero-length spans are widened by one
    character ([spec_match]).  The groups are those of the trace of the
    scans: the scan of the first candidate of a transcript starts at the
    reference index 0 and each later scan starts where the one before it
    ended; a scan ends at the first reference entity from its start on that
    the candidate matches, and finds nothing exactly when the candidate
    matches none of them.  With n-best processing enabled, the group of
    index [i] is its reference entity followed by the candidates whose scan
    ended at [i], in the order of the transcripts and of their candidates,
    so every candidate whose scan found a reference entity is appended to
    that entity's group.  A candidate that matches no reference entity is
    appended to no group. *)
Theorem align_entities_groups (nbest : bool) (refs : list E) (rest : list (list E)) :
  ∃ groups,
    _align_entities span_of type_of nbest (refs :: rest) = Ok groups ∧
    length groups = length refs ∧
    (∀ i r, refs !! i = Some r → ∃ appended, groups !! i = Some (r :: appended)) ∧
    (∀ i r g c, refs !! i = Some r → groups !! i = Some g → c ∈ tail g →
       (∃ ents, ents ∈ rest ∧ c ∈ ents) ∧ spec_match span_of type_of c r) ∧
    groups = (if nbest
              then foldl (λ aligned ents,
                     foldl apply_placement aligned (zip ents (placements' refs 0 ents)))
                   ((λ e, [e]) <$> refs) rest
              else (λ e, [e]) <$> refs) ∧
    (∀ ents, ents ∈ rest →
       length (placements' refs 0 ents) = length ents ∧
       (∀ p o, placements' refs 0 ents !! 0%nat = Some (p, o) → p = 0%nat) ∧
       (∀ k p o p' o', placements' refs 0 ents !! k = Some (p, o) →
                       placements' refs 0 ents !! S k = Some (p', o') →
                       p' = default p o)) ∧
    (∀ ents k c p o, ents ∈ rest → ents !! k = Some c →
       placements' refs 0 ents !! k = Some (p, o) →
       match o with
       | Some i =>
           (p ≤ i)%nat ∧
           (∃ r, refs !! i = Some r ∧ spec_match span_of type_of c r) ∧
           (∀ j r, (p ≤ j < i)%nat → refs !! j = Some r →
                   ¬ spec_match span_of type_of c r)
       | None => ∀ j r, (p ≤ j)%nat → refs !! j = Some r →
                        ¬ spec_match span_of type_of c r
       end) ∧
    (nbest = true →
       (∀ i r, refs !! i = Some r →
          groups !! i
          = Some (r :: concat ((λ ents, placed_at i (zip ents (placements' refs 0 ents)))
                               <$> rest))) ∧
       (∀ ents k c p i, ents ∈ rest → ents !! k = Some c →
          placements' refs 0 ents !! k = Some (p, Some i) →
          ∃ g, groups !! i = Some g ∧ c ∈ tail g)) ∧
    (∀ c, (∀ r, r ∈ refs → ¬ spec_match span_of type_of c r) →
          ∀ g, g ∈ groups → c ∉ tail g).
Proof.
  destruct (_align_entities_grouped nbest refs rest) as (groups & Hrun & Hg).
  assert (Htrace : groups = (if nbest
                             then foldl (λ aligned ents,
                                    foldl apply_placement aligned
                                      (zip ents (placements' refs 0 ents)))
                                  ((λ e, [e]) <$> refs) rest
                             else (λ e, [e]) <$> refs)).
  { rewrite _align_entities_trace in Hrun. by injection Hrun. }
  assert (Hexact : nbest = true → ∀ i r, refs !! i = Some r →
            groups !! i
            = Some (r :: concat ((λ ents, placed_at i (zip ents (placements' refs 0 ents)))
                                 <$> rest))).
  { intros -> i r Hr. rewrite Htrace, foldl_transcripts_lookup.
    by rewrite list_lookup_fmap, Hr. }
  exists groups. split; [done|]. split; [by eapply grouped_length|].
  split; [|split; [|split; [done|split; [|split; [|split]]]]].
  - intros i r Hr. destruct (grouped_lookup _ _ _ _ _ Hg Hr) as (app & ? & _). eauto.
  - intros i r g c Hr Hgi Hc.
    destruct (grouped_lookup _ _ _ _ _ Hg Hr) as (app & Hgi' & Happ).
    rewrite Hgi in Hgi'. injection Hgi' as ->. simpl in Hc.
    rewrite Forall_forall in Happ. destruct (Happ c Hc) as [Hfrom Ha].
    split; [apply Hfrom|]. by apply aligns_spec_match.
  - intros ents _. split; [apply placements_length|]. split.
    + intros p o. apply placements_first.
    + intros k p o p' o'. apply placements_next.
  - intros ents k c p o _ Hc Hp.
    rewrite (placements_lookup _ _ _ _ _ _ _ Hp Hc).
    destruct (place' refs p c) as [i|] eqn:Hpl.
    + apply place_spec in Hpl as (Hle & (r & Hr & Ha) & Hfirst).
      split; [done|]. split.
      * exists r. split; [done|]. by apply aligns_spec_match.
      * intros j r' Hj Hr'. apply aligns_false_spec_match. by eapply Hfirst.
    + intros j r Hj Hr. apply aligns_false_spec_match. by eapply place_none.
  - intros Hnbest. split; [by apply Hexact|].
    intros ents k c p i Hents Hc Hp.
    pose proof (placements_lookup _ _ _ _ _ _ _ Hp Hc) as Hpl. symmetry in Hpl.
    apply place_spec in Hpl as (_ & (r & Hr & _) & _).
    eexists. split; [by apply Hexact|]. cbn [tail].
    apply list_elem_of_In, in_concat.
    exists (placed_at i (zip ents (placements' refs 0 ents))). split.
    + apply list_elem_of_In.
      by apply (list_elem_of_fmap_2
                  (λ ents, placed_at i (zip ents (placements' refs 0 ents)))).
    + apply list_elem_of_In. by eapply placed_at_elem_of.
  - intros c Hnone g Hgin Hc.
    apply list_elem_of_lookup in Hgin as [i Hgi].
    destruct (lookup_lt_is_Some_2 refs i) as [r Hr].
    { rewrite <- (grouped_length _ _ _ Hg). by eapply lookup_lt_Some. }
    destruct (grouped_lookup _ _ _ _ _ Hg Hr) as (app & Hgi' & Happ).
    rewrite Hgi in Hgi'. injection Hgi' as ->. simpl in Hc.
    rewrite Forall_forall in Happ. destruct (Happ c Hc) as [_ Ha].
    apply aligns_spec_match in Ha. eapply Hnone; [|done]. by eapply list_elem_of_lookup_2.
Qed.

(** C2.  Alignment is monotonic.  For every transcript after the
    reference, the reference-group indices at which [_align_entities]
    places its successive candidates form a non-decreasing sequence: a
    candidate is never placed strictly before the group of an earlier
    candidate of the same transcript, and its scan starts no earlier than
    that group. *)
Theorem align_entities_monotonic (nbest : bool) (refs : list E) (rest : list (list E)) :
  _align_entities span_of type_of nbest (refs :: rest) =
    Ok (if nbest
        then foldl (λ aligned ents,
               foldl apply_placement aligned (zip ents (placements' refs 0 ents)))
             ((λ e, [e]) <$> refs) rest
        else (λ e, [e]) <$> refs) ∧
  ∀ ents, ents ∈ rest →
    StronglySorted le (placed_indices span_of type_of refs ents) ∧
    ∀ k1 k2 p1 i1 p2 i2, (k1 < k2)%nat →
      placements' refs 0 ents !! k1 = Some (p1, Some i1) →
      placements' refs 0 ents !! k2 = Some (p2, Some i2) →
      (i1 ≤ p2 ≤ i2)%nat.
Proof.
  split; [apply _align_entities_trace|].
  intros ents _. split; [apply placed_indices_from_sorted|].
  intros k1 k2 p1 i1 p2 i2 Hk H1 H2. split.
  - by eapply placements_later.
  - apply list_elem_of_lookup_2 in H2. by eapply placements_entry.
Qed.
End AlignFacts.

(** The scenario of the spec: the reference transcript has a number at
    [5,6), the second transcript recognizes nothing overlapping it. *)
Example align_book_tickets :
  align_query_entities true
    [ [mkQueryEntity (mkSpan 5 6) (mkEntity "2" "number" None None)];
      [mkQueryEntity (mkSpan 0 4) (mkEntity "book" "number" None None)] ]
  = Ok [ [mkQueryEntity (mkSpan 5 6) (mkEntity "2" "number" None None)] ].
Proof. reflexivity. Qed.

(** The pointer keeps a later candidate from an earlier reference entity. *)
Example align_no_crossing :
  let r0 := mkQueryEntity (mkSpan 0 3) (mkEntity "abc" "t" None None) in
  let r1 := mkQueryEntity (mkSpan 5 8) (mkEntity "fgh" "t" None None) in
  align_query_entities true [ [r0; r1]; [r1; r0] ] = Ok [ [r0]; [r1; r1] ].
Proof. reflexivity. Qed.

(** ** Reasoning about effects *)

Lemma bind_ok {A B} (m : M A) (k : A → M B) w a w' :
  m w = (Ok a, w') → (m ≫= k) w = k a w'.
Proof. unfold mbind, M_bind. by intros ->. Qed.

Lemma bind_raise {A B} (m : M A) (k : A → M B) w e w' :
  m w = (Raise e, w') → (m ≫= k) w = (Raise e, w').
Proof. unfold mbind, M_bind. by intros ->. Qed.

Lemma bind_inv_ok {A B} (m : M A) (k : A → M B) w b w'' :
  (m ≫= k) w = (Ok b, w'') → ∃ a w', m w = (Ok a, w') ∧ k a w' = (Ok b, w'').
Proof.
  unfold mbind, M_bind. destruct (m w) as [[a|e] w'] eqn:Hm; [eauto|done].
Qed.

Lemma subscript_ok {A} (l : list A) i x w :
  l !! i = Some x → subscript l i w = (Ok x, w).
Proof. unfold subscript. by intros ->. Qed.

(** ** Label selection *)

Lemma first_allowed_Some allowed ranked l :
  first_allowed allowed ranked = Some l ↔
  ∃ before score after,
    ranked = before ++ (l, score) :: after ∧ l ∈ allowed ∧
    ∀ l', l' ∈ before.*1 → l' ∉ allowed.
Proof.
  induction ranked as [|[l0 s0] ranked IH]; simpl.
  - split; [done|]. intros (before & ? & ? & Heq & _). by destruct before.
  - case_bool_decide as Hin.
    + split.
      * intros [= <-]. exists [], s0, ranked. split; [done|]. split; [done|].
        simpl. by intros ? ?%elem_of_nil.
      * intros ([|[l1 s1] before] & score & after & Heq & Hl & Hbefore);
          simpl in Heq; injection Heq as <- <- ->; [done|].
        exfalso. apply (Hbefore l0); [|done]. simpl. apply elem_of_cons. by left.
    + rewrite IH. split.
      * intros (before & score & after & -> & Hl & Hbefore).
        exists ((l0, s0) :: before), score, after. split; [done|]. split; [done|].
        simpl. intros l' [->|?]%elem_of_cons; auto.
      * intros ([|[l1 s1] before] & score & after & Heq & Hl & Hbefore);
          simpl in Heq; injection Heq as <- <- ->; [done|].
        exists before, score, after. split; [done|]. split; [done|].
        intros l' Hl'. apply Hbefore. simpl. apply elem_of_cons. by right.
Qed.

Lemma first_allowed_None allowed ranked :
  first_allowed allowed ranked = None ↔ ∀ l, l ∈ ranked.*1 → l ∉ allowed.
Proof.
  induction ranked as [|[l0 s0] ranked IH]; simpl.
  - split; [|done]. by intros _ ? ?%elem_of_nil.
  - case_bool_decide as Hin.
    + split; [done|]. intros Hall. exfalso. eapply Hall; [|done]. apply elem_of_cons. by left.
    + rewrite IH. split.
      * intros Hall l [->|?]%elem_of_cons; auto.
      * intros Hall l Hl. apply Hall. apply elem_of_cons. by right.
Qed.

Lemma first_allowed_nonempty allowed ranked l :
  first_allowed allowed ranked = Some l → l ∈ ranked.*1.
Proof.
  intros (before & score & after & -> & _)%first_allowed_Some.
  rewrite fmap_app. apply elem_of_app. right. simpl. apply elem_of_cons. by left.
Qed.

Lemma first_key_singleton (l : Label) w : first_key {[l]} w = (Ok l, w).
Proof. unfold first_key. by rewrite elements_singleton. Qed.

Lemma selects_first_allowed_intro allowed ranked verbose msg :
  selects_first_allowed allowed ranked verbose msg
    match first_allowed allowed ranked with
    | Some l => Ok (l, if verbose then Some ranked else None)
    | None => Raise (AllowedNlpClassesKeyError msg)
    end.
Proof.
  destruct (first_allowed allowed ranked) as [l|] eqn:Hfirst.
  - left. apply first_allowed_Some in Hfirst as (before & score & after & ? & ? & ?).
    by exists l, score, before, after.
  - right. split; [|done]. by apply first_allowed_None.
Qed.

(** In a domain tier with several children and a restriction of several
    labels, the classifier is asked for its ranked list once and the first
    allowed label is chosen. *)
Lemma _process_domain_restricted self query (allowed : gmap Label (gset Label))
    dynamic_resource verbose w :
  (1 < length (NaturalLanguageProcessor.domains self))%nat → (1 < size allowed)%nat →
  let ranked := LabelClassifier.predict_proba
                  (NaturalLanguageProcessor.domain_classifier self) query dynamic_resource in
  faults w domain_clf call_predict_proba = None →
  NaturalLanguageProcessor._process_domain self query (Some allowed) dynamic_resource verbose w =
  (match first_allowed (dom allowed) ranked with
   | Some l => Ok (l, if verbose then Some ranked else None)
   | None => Raise (AllowedNlpClassesKeyError
                      "Could not find user inputted domain in NLP hierarchy")
   end,
   mkWorld (log w ++ [(domain_clf, call_predict_proba)]) (faults w) (heap w) (executor w)).
Proof.
  intros Hchildren Hallowed ranked Hfault.
  unfold NaturalLanguageProcessor._process_domain, restriction.
  rewrite bool_decide_true by done.
  rewrite bool_decide_false by lia. rewrite bool_decide_false by lia.
  unfold mbind, M_bind, consult. rewrite Hfault. fold ranked.
  by destruct (first_allowed (dom allowed) ranked).
Qed.

Lemma select_intent_restricted self top (allowed : gset Label) dynamic_resource verbose w :
  (1 < length (DomainProcessor.intents self))%nat → (1 < size allowed)%nat →
  let ranked := LabelClassifier.predict_proba
                  (DomainProcessor.intent_classifier self) top dynamic_resource in
  faults w (DomainProcessor.the_intent_classifier self) call_predict_proba = None →
  DomainProcessor.select_intent self top (Some allowed) dynamic_resource verbose w =
  (match first_allowed allowed ranked with
   | Some l =>
       if String.eqb l ""
       then Raise (AllowedNlpClassesKeyError
                     "Could not find user inputted intent in NLP hierarchy")
       else Ok (l, if verbose then Some ranked else None)
   | None => Raise (AllowedNlpClassesKeyError
                      "Could not find user inputted intent in NLP hierarchy")
   end,
   mkWorld (log w ++ [(DomainProcessor.the_intent_classifier self, call_predict_proba)])
           (faults w) (heap w) (executor w)).
Proof.
  intros Hchildren Hallowed ranked Hfault.
  unfold DomainProcessor.select_intent, restriction.
  rewrite bool_decide_true by done.
  rewrite bool_decide_false by lia. rewrite bool_decide_false by lia.
  unfold mbind, M_bind, consult. rewrite Hfault. fold ranked.
  destruct (first_allowed allowed ranked) as [l|]; [|done].
  by destruct (String.eqb l "").
Qed.

(** C3, as amended.  In a tier with more than one child label whose
    classifier answers, for every query and every restriction of at least
    two labels: the domain tier returns the first label of the classifier's
    ranked list that belongs to the restriction, and raises
    [AllowedNlpClassesKeyError] if and only if no ranked label belongs to it;
    the intent tier does the same for ranked lists without an empty label. *)
Theorem restricted_selection_first_ranked :
  (∀ self query (allowed : gmap Label (gset Label)) dynamic_resource verbose w,
     (1 < length (NaturalLanguageProcessor.domains self))%nat →
     (1 < size allowed)%nat →
     faults w domain_clf call_predict_proba = None →
     let ranked := LabelClassifier.predict_proba
                     (NaturalLanguageProcessor.domain_classifier self) query dynamic_resource in
     let outcome := (NaturalLanguageProcessor._process_domain self query (Some allowed)
                       dynamic_resource verbose w).1 in
     selects_first_allowed (dom allowed) ranked verbose
       "Could not find user inputted domain in NLP hierarchy" outcome ∧
     (is_ok outcome = false ↔ ∀ l, l ∈ ranked.*1 → l ∉ dom allowed)) ∧
  (∀ self top (allowed : gset Label) dynamic_resource verbose w,
     (1 < length (DomainProcessor.intents self))%nat →
     (1 < size allowed)%nat →
     faults w (DomainProcessor.the_intent_classifier self) call_predict_proba = None →
     let ranked := LabelClassifier.predict_proba
                     (DomainProcessor.intent_classifier self) top dynamic_resource in
     let outcome := (DomainProcessor.select_intent self top (Some allowed)
                       dynamic_resource verbose w).1 in
     (∀ l, l ∈ ranked.*1 → l ≠ "") →
     selects_first_allowed allowed ranked verbose
       "Could not find user inputted intent in NLP hierarchy" outcome ∧
     (is_ok outcome = false ↔ ∀ l, l ∈ ranked.*1 → l ∉ allowed)).
Proof.
  split.
  - intros self query allowed dr verbose w Hc Ha Hf ranked outcome.
    unfold outcome. rewrite _process_domain_restricted by done. cbn [fst]. fold ranked.
    split; [apply selects_first_allowed_intro|].
    rewrite <- first_allowed_None.
    by destruct (first_allowed (dom allowed) ranked).
  - intros self top allowed dr verbose w Hc Ha Hf ranked outcome Hne.
    unfold outcome. rewrite select_intent_restricted by done. cbn [fst]. fold ranked.
    rewrite <- first_allowed_None.
    pose proof (selects_first_allowed_intro allowed ranked verbose
                  "Could not find user inputted intent in NLP hierarchy") as Hsel.
    destruct (first_allowed allowed ranked) as [l|] eqn:Hfirst; [|by split].
    apply first_allowed_nonempty, Hne in Hfirst.
    apply String.eqb_neq in Hfirst. rewrite Hfirst. by split.
Qed.

(** The restriction [{smart_home, weather}] on the domains of the two-domain
    application, and [{close_door, open_door}] on the intents of
    [smart_home], whose classifier ranks [open_door] first. *)
Lemma restricted_selection_first_ranked_witness :
  (selects_first_allowed (dom ({[ "smart_home" := ∅; "weather" := ∅ ]} : gmap Label (gset Label)))
     [("weather", 0.5%float); ("smart_home", 0.5%float)] false
     "Could not find user inputted domain in NLP hierarchy"
     (NaturalLanguageProcessor._process_domain home_and_weather_app close_the_door
        (Some {[ "smart_home" := ∅; "weather" := ∅ ]}) None false empty_world).1) ∧
  (selects_first_allowed {[ "close_door"; "open_door" ]}
     [("open_door", 0.75%float); ("close_door", 0.25%float)] false
     "Could not find user inputted intent in NLP hierarchy"
     (DomainProcessor.select_intent smart_home close_the_door
        (Some {[ "close_door"; "open_door" ]}) None false empty_world).1).
Proof.
  pose proof restricted_selection_first_ranked as [Hdomain Hintent]. split.
  - apply (Hdomain home_and_weather_app close_the_door
             {[ "smart_home" := ∅; "weather" := ∅ ]} None false empty_world);
      [simpl; lia|vm_compute; lia|reflexivity].
  - apply (Hintent smart_home close_the_door {[ "close_door"; "open_door" ]}
             None false empty_world); [simpl; lia|vm_compute; lia|reflexivity|].
    intros l Hl. simpl in Hl.
    repeat (apply elem_of_cons in Hl as [->|Hl]; [done|]). by apply elem_of_nil in Hl.
Defined.

Example restricted_domain_selection :
  NaturalLanguageProcessor._process_domain home_and_weather_app close_the_door
    (Some {[ "smart_home" := ∅; "weather" := ∅ ]}) None false empty_world
  = (Ok ("weather", None),
     mkWorld [(domain_clf, call_predict_proba)] (faults empty_world) [] None).
Proof. vm_compute. reflexivity. Qed.

(** C3 as stated fails in a tier with a single child: the application has
    the one domain [smart_home], the restriction names two other labels, and
    no label the classifier ranks belongs to it; [_process_domain] returns
    [smart_home], which is outside the restriction, and raises nothing. *)
Lemma restricted_selection_single_child_counterexample :
  (1 < size weather_or_music)%nat ∧
  (∀ l, l ∈ (LabelClassifier.predict_proba
               (NaturalLanguageProcessor.domain_classifier smart_home_app)
               close_the_door None).*1 →
        l ∉ dom weather_or_music) ∧
  NaturalLanguageProcessor._process_domain smart_home_app close_the_door
    (Some weather_or_music) None false empty_world
  = (Ok ("smart_home", None), empty_world) ∧
  ("smart_home" ∉ dom weather_or_music) ∧
  ¬ selects_first_allowed (dom weather_or_music)
      (LabelClassifier.predict_proba
         (NaturalLanguageProcessor.domain_classifier smart_home_app) close_the_door None)
      false "Could not find user inputted domain in NLP hierarchy"
      (NaturalLanguageProcessor._process_domain smart_home_app close_the_door
        (Some weather_or_music) None false empty_world).1.
Proof.
  assert (Hout : "smart_home" ∉ dom weather_or_music).
  { unfold weather_or_music. rewrite dom_insert_L, dom_singleton_L. set_solver. }
  split; [vm_compute; lia|]. split.
  { simpl. intros l [->|Hl%elem_of_nil]%elem_of_cons; done. }
  split; [reflexivity|]. split; [done|].
  intros [(l & score & before & after & _ & Hl & _ & Hres)|[_ Hres]].
  - injection Hres as <-. done.
  - discriminate Hres.
Qed.

(** The test [if not intent] of the intent tier also rejects the empty
    label, which the domain tier would return. *)
Example select_intent_empty_label :
  DomainProcessor.select_intent
    (DomainProcessor.mk true false None "smart_home"
       (ranking [("", 0.75%float); ("close_door", 0.25%float)])
       (DomainProcessor.intents smart_home))
    close_the_door (Some {[ ""; "close_door" ]}) None false empty_world
  = (Raise (AllowedNlpClassesKeyError "Could not find user inputted intent in NLP hierarchy"),
     mkWorld [(intent_clf "smart_home", call_predict_proba)] (faults empty_world) [] None).
Proof. vm_compute. reflexivity. Qed.

(** C4, as amended.  When a tier has exactly one child label, selection
    returns that label, with the confidence list [[(label, 1.0)]] when
    probabilities are requested, and leaves the world as it is: no classifier
    is consulted, whatever the restriction.  In a tier with more than one
    child label, a restriction of exactly one label is answered in the same
    way with that label. *)
Theorem single_candidate_selection :
  (∀ self query allowed dynamic_resource verbose w l,
     (NaturalLanguageProcessor.domains self).*1 = [l] →
     NaturalLanguageProcessor._process_domain self query allowed dynamic_resource verbose w
     = (Ok (l, if verbose then Some [(l, 1%float)] else None), w)) ∧
  (∀ self top allowed dynamic_resource verbose w l,
     (DomainProcessor.intents self).*1 = [l] →
     DomainProcessor.select_intent self top allowed dynamic_resource verbose w
     = (Ok (l, if verbose then Some [(l, 1%float)] else None), w)) ∧
  (∀ self query (allowed : gmap Label (gset Label)) dynamic_resource verbose w l,
     (1 < length (NaturalLanguageProcessor.domains self))%nat →
     dom allowed = {[ l ]} →
     NaturalLanguageProcessor._process_domain self query (Some allowed)
       dynamic_resource verbose w
     = (Ok (l, if verbose then Some [(l, 1%float)] else None), w)) ∧
  (∀ self top (allowed : gset Label) dynamic_resource verbose w l,
     (1 < length (DomainProcessor.intents self))%nat →
     allowed = {[ l ]} →
     DomainProcessor.select_intent self top (Some allowed) dynamic_resource verbose w
     = (Ok (l, if verbose then Some [(l, 1%float)] else None), w)).
Proof.
  split; [|split; [|split]].
  - intros self query allowed dr verbose w l Hkeys.
    unfold NaturalLanguageProcessor._process_domain.
    assert (length (NaturalLanguageProcessor.domains self) = 1%nat) as Hlen
      by (by rewrite <- (length_fmap fst), Hkeys).
    rewrite bool_decide_false by lia. rewrite Hkeys. done.
  - intros self top allowed dr verbose w l Hkeys.
    unfold DomainProcessor.select_intent.
    assert (length (DomainProcessor.intents self) = 1%nat) as Hlen
      by (by rewrite <- (length_fmap fst), Hkeys).
    rewrite bool_decide_false by lia. rewrite Hkeys. done.
  - intros self query allowed dr verbose w l Hchildren Hdom.
    unfold NaturalLanguageProcessor._process_domain, restriction.
    assert (size allowed = 1%nat) as Hsize
      by (by rewrite <- size_dom, Hdom, size_singleton).
    rewrite bool_decide_true by done. rewrite bool_decide_false by lia.
    cbv beta iota. rewrite bool_decide_true by done. rewrite Hdom.
    unfold mbind, M_bind. by rewrite first_key_singleton.
  - intros self top allowed dr verbose w l Hchildren ->.
    unfold DomainProcessor.select_intent, restriction.
    rewrite bool_decide_true by done. rewrite size_singleton.
    rewrite bool_decide_false by lia. cbv beta iota.
    rewrite size_singleton, bool_decide_true by done.
    unfold mbind, M_bind. by rewrite first_key_singleton.
Qed.

(** The scenario of the spec: the single domain [smart_home], then the
    intent restricted to [{close_door}], whatever the classifier ranks. *)
Lemma single_candidate_selection_witness :
  NaturalLanguageProcessor._process_domain smart_home_app close_the_door
    (Some {[ "smart_home" := {[ "close_door" ]} ]}) None true empty_world
  = (Ok ("smart_home", Some [("smart_home", 1%float)]), empty_world) ∧
  DomainProcessor.select_intent smart_home close_the_door
    (Some {[ "close_door" ]}) None true empty_world
  = (Ok ("close_door", Some [("close_door", 1%float)]), empty_world) ∧
  NaturalLanguageProcessor._process_domain home_and_weather_app close_the_door
    (Some {[ "smart_home" := {[ "close_door" ]} ]}) None false empty_world
  = (Ok ("smart_home", None), empty_world).
Proof.
  pose proof single_candidate_selection as (Hone_domain & _ & Hdomain & Hintent).
  split; [|split].
  - by apply (Hone_domain smart_home_app).
  - apply (Hintent smart_home); [simpl; lia|done].
  - apply (Hdomain home_and_weather_app); [simpl; lia|].
    by rewrite dom_singleton_L.
Defined.

(** C4 as stated fails when the one label of the restriction is not the one
    child of the tier: the child is returned, not the label of the
    restriction. *)
Lemma single_candidate_selection_counterexample :
  size ({[ "weather" := ∅ ]} : gmap Label (gset Label)) = 1%nat ∧
  NaturalLanguageProcessor._process_domain smart_home_app close_the_door
    (Some {[ "weather" := ∅ ]}) None true empty_world
  = (Ok ("smart_home", Some [("smart_home", 1%float)]), empty_world) ∧
  "smart_home" ≠ "weather".
Proof. split; [apply map_size_singleton|]. split; [reflexivity|done]. Qed.

(** ** The extraction of allowed intents *)


Lemma split_on_app sep d i :
  count_sep sep d = 0%nat → split_on sep (d +:+ String sep i) = d :: split_on sep i.
Proof.
  induction d as [|c d IH]; simpl.
  - intros _. by rewrite Ascii.eqb_refl.
  - destruct (Ascii.eqb c sep); simpl; [done|]. intros Hd. by rewrite IH.
Qed.

Lemma split_on_no_sep sep s : count_sep sep s = 0%nat → split_on sep s = [s].
Proof.
  induction s as [|c s IH]; simpl; [done|].
  destruct (Ascii.eqb c sep); simpl; [done|]. intros Hs. by rewrite IH.
Qed.

Lemma split_label_path p :
  count_sep "." p.1 = 0%nat → count_sep "." p.2 = 0%nat →
  split_on "." (label_path p) = [p.1; p.2].
Proof.
  intros H1 H2. unfold label_path.
  change ("." +:+ p.2) with (String "." p.2).
  rewrite split_on_app by done. by rewrite split_on_no_sep.
Qed.

Lemma fold_result_app {A B} (body : A → B → result A) acc l1 l2 :
  fold_result body acc (l1 ++ l2) =
  match fold_result body acc l1 with
  | Ok acc' => fold_result body acc' l2
  | Raise e => Raise e
  end.
Proof.
  revert acc. induction l1 as [|x l1 IH]; intros acc; simpl; [done|].
  destruct (body acc x); [apply IH|done].
Qed.

Lemma foldl_union_singletons (present : gset Label) (intents : list Label) :
  foldl (λ acc intent, acc ∪ {[intent]}) present intents = present ∪ list_to_set intents.
Proof.
  revert present. induction intents as [|i intents IH]; intros present; simpl.
  - set_solver.
  - rewrite IH. set_solver.
Qed.

Lemma allow_path_known self nlp_components p :
  known_path self p →
  NaturalLanguageProcessor.allow_path self nlp_components p.1 p.2 =
  Ok (<[p.1 := default ∅ (nlp_components !! p.1) ∪ expansion self p]> nlp_components).
Proof.
  destruct p as [d i]. unfold known_path, expansion, intents_of. simpl.
  intros [[processor Hd] Hi]. unfold NaturalLanguageProcessor.allow_path.
  rewrite Hd in *.
  assert (negb (String.eqb i "*")
          && negb (bool_decide (i ∈ (DomainProcessor.intents processor).*1)) = false) as ->.
  { destruct Hi as [->|Hi]; [done|]. rewrite (bool_decide_true _ Hi). apply andb_false_r. }
  destruct (nlp_components !! d) as [present|] eqn:Hpresent; simpl.
  - rewrite Hpresent. simpl. rewrite foldl_union_singletons.
    by destruct (String.eqb i "*").
  - rewrite lookup_insert_eq. simpl. rewrite foldl_union_singletons, !insert_insert_eq.
    by destruct (String.eqb i "*").
Qed.

Lemma allow_path_unknown self nlp_components p :
  ¬ known_path self p →
  NaturalLanguageProcessor.allow_path self nlp_components p.1 p.2 =
  Raise (unknown_label_path self p).
Proof.
  destruct p as [d i]. unfold known_path, unknown_label_path, intents_of. simpl.
  intros Hunknown. unfold NaturalLanguageProcessor.allow_path.
  destruct (child (NaturalLanguageProcessor.domains self) d) as [processor|]; [|done].
  destruct (String.eqb_spec i "*") as [->|Hstar].
  { exfalso. apply Hunknown. eauto. }
  case_bool_decide as Hi; [|done].
  exfalso. apply Hunknown. eauto.
Qed.

Lemma hierarchy_of_nil self : hierarchy_of self [] ∅.
Proof.
  split; [by rewrite dom_empty_L|].
  intros d x. rewrite lookup_empty. simpl. split; [set_solver|].
  intros (i & Hin & _). by apply elem_of_nil in Hin.
Qed.

Lemma hierarchy_of_snoc self paths nlp_components p :
  hierarchy_of self paths nlp_components →
  hierarchy_of self (paths ++ [p])
    (<[p.1 := default ∅ (nlp_components !! p.1) ∪ expansion self p]> nlp_components).
Proof.
  destruct p as [pd pi]. simpl. intros [Hdom Hin]. split.
  - rewrite dom_insert_L, Hdom, fmap_app, list_to_set_app_L. simpl. set_solver.
  - intros d x. destruct (decide (d = pd)) as [->|Hne].
    + rewrite lookup_insert_eq. simpl. rewrite elem_of_union, Hin. split.
      * intros [(i & Hi & Hx)|Hx].
        -- exists i. split; [|done]. apply elem_of_app. by left.
        -- exists pi. split; [|done]. apply elem_of_app. right.
           by apply list_elem_of_singleton.
      * intros (i & [Hi|Hi]%elem_of_app & Hx).
        -- left. eauto.
        -- right. apply list_elem_of_singleton in Hi. by injection Hi as ->.
    + rewrite lookup_insert_ne by done. rewrite Hin. split.
      * intros (i & Hi & Hx). exists i. split; [|done]. apply elem_of_app. by left.
      * intros (i & [Hi|Hi]%elem_of_app & Hx); [eauto|].
        apply list_elem_of_singleton in Hi. by injection Hi as -> ->.
Qed.

Lemma allow_label_path self nlp_components p :
  count_sep "." p.1 = 0%nat → count_sep "." p.2 = 0%nat →
  NaturalLanguageProcessor.allow self nlp_components (label_path p) =
  NaturalLanguageProcessor.allow_path self nlp_components p.1 p.2.
Proof.
  intros H1 H2. unfold NaturalLanguageProcessor.allow. by rewrite split_label_path.
Qed.

Lemma fold_allow_known self done_paths paths nlp_components :
  Forall (λ p, count_sep "." p.1 = 0%nat ∧ count_sep "." p.2 = 0%nat) paths →
  Forall (known_path self) paths →
  hierarchy_of self done_paths nlp_components →
  ∃ nlp_components',
    fold_result (NaturalLanguageProcessor.allow self) nlp_components (label_path <$> paths)
      = Ok nlp_components' ∧
    hierarchy_of self (done_paths ++ paths) nlp_components'.
Proof.
  intros Hwf. revert done_paths nlp_components.
  induction Hwf as [|p paths [H1 H2] _ IH]; intros done_paths nlp_components Hknown Hh.
  - exists nlp_components. by rewrite app_nil_r.
  - apply Forall_cons in Hknown as [Hp Hknown]. simpl.
    rewrite allow_label_path, allow_path_known by done.
    destruct (IH (done_paths ++ [p]) _ Hknown (hierarchy_of_snoc _ _ _ p Hh))
      as (m & Hm & Hhm).
    exists m. split; [done|]. by rewrite <- app_assoc in Hhm.
Qed.

(** C7.  For a list of ["toplabel.sublabel"] strings, the strings of the
    pairs [paths]: when every top label is a domain of the tree and every
    sublabel is ["*"] or an intent of its domain, [extract_allowed_intents]
    returns a mapping whose keys are the referenced domains, each with the
    set of its referenced intents, ["*"] standing for all the intents of the
    domain; otherwise it raises [AllowedNlpClassesKeyError] with the message
    that names the first offending label, the domain when it is unknown and
    the intent otherwise. *)
Theorem extract_allowed_intents_spec (self : NaturalLanguageProcessor.t)
    (paths : list (Label * Label)) :
  Forall (λ p, count_sep "." p.1 = 0%nat ∧ count_sep "." p.2 = 0%nat) paths →
  (Forall (known_path self) paths →
     ∃ nlp_components,
       NaturalLanguageProcessor.extract_allowed_intents self (label_path <$> paths)
         = Ok nlp_components ∧
       dom nlp_components = list_to_set paths.*1 ∧
       ∀ d x, x ∈ default ∅ (nlp_components !! d) ↔
              ∃ i, (d, i) ∈ paths ∧
                   x ∈ (if String.eqb i "*" then list_to_set (intents_of self d)
                        else {[ i ]} : gset Label)) ∧
  (∀ before p after,
     paths = before ++ p :: after →
     Forall (known_path self) before → ¬ known_path self p →
     NaturalLanguageProcessor.extract_allowed_intents self (label_path <$> paths)
       = Raise (unknown_label_path self p)).
Proof.
  intros Hwf. split.
  - intros Hknown.
    destruct (fold_allow_known self [] paths ∅ Hwf Hknown (hierarchy_of_nil self))
      as (m & Hm & Hdom & Hin).
    exists m. split; [done|]. split; [done|]. apply Hin.
  - intros before p after -> Hbefore Hp.
    apply Forall_app in Hwf as [Hwf_before [[H1 H2] _]%Forall_cons].
    destruct (fold_allow_known self [] before ∅ Hwf_before Hbefore (hierarchy_of_nil self))
      as (m & Hm & _).
    unfold NaturalLanguageProcessor.extract_allowed_intents.
    rewrite fmap_app, fold_result_app, Hm. simpl.
    by rewrite allow_label_path, allow_path_unknown.
Qed.

(** ["smart_home.*"] and ["weather.get_weather"] on the two-domain
    application. *)
Lemma extract_allowed_intents_spec_witness :
  ∃ nlp_components,
    NaturalLanguageProcessor.extract_allowed_intents home_and_weather_app
      (label_path <$> [("smart_home", "*"); ("weather", "get_weather")]) = Ok nlp_components ∧
    dom nlp_components = list_to_set [("smart_home", "*"); ("weather", "get_weather")].*1 ∧
    ∀ d x, x ∈ default ∅ (nlp_components !! d) ↔
           ∃ i, (d, i) ∈ [("smart_home", "*"); ("weather", "get_weather")] ∧
                x ∈ (if String.eqb i "*" then list_to_set (intents_of home_and_weather_app d)
                     else {[ i ]} : gset Label).
Proof.
  destruct (extract_allowed_intents_spec home_and_weather_app
              [("smart_home", "*"); ("weather", "get_weather")]) as [Hok _].
  { by repeat constructor. }
  apply Hok.
  apply Forall_cons. split; [split; [by eexists|by left]|].
  apply Forall_cons. split; [|constructor].
  split; [by eexists|right]. simpl. apply elem_of_cons. by left.
Defined.

Example extract_allowed_intents_wildcard :
  NaturalLanguageProcessor.extract_allowed_intents home_and_weather_app
    ["smart_home.*"; "weather.get_weather"]
  = Ok {[ "smart_home" := {[ "close_door"; "open_door" ]};
          "weather" := {[ "get_weather" ]} ]}.
Proof. vm_compute. reflexivity. Qed.

Example extract_allowed_intents_unknown_domain :
  NaturalLanguageProcessor.extract_allowed_intents smart_home_app
    ["smart_home.close_door"; "music.play"]
  = Raise (AllowedNlpClassesKeyError "Domain: music is not in the NLP component hierarchy").
Proof. vm_compute. reflexivity. Qed.

Example extract_allowed_intents_unknown_intent :
  NaturalLanguageProcessor.extract_allowed_intents smart_home_app ["smart_home.lock_door"]
  = Raise (AllowedNlpClassesKeyError "Intent: lock_door is not in the NLP component hierarchy").
Proof. vm_compute. reflexivity. Qed.



Example extract_allowed_intents_no_dot :
  NaturalLanguageProcessor.extract_allowed_intents smart_home_app ["domain"]
  = Raise (ValueError "not enough values to unpack (expected 2, got 1)").
Proof. vm_compute. reflexivity. Qed.

Example extract_allowed_intents_two_dots :
  NaturalLanguageProcessor.extract_allowed_intents smart_home_app ["a.b.c"]
  = Raise (ValueError "too many values to unpack (expected 2)").
Proof. vm_compute. reflexivity. Qed.

(** ** The list dispatcher *)

Section ProcessListFacts.
Context {Item V Res : Type}.
Context (unpickle : V → M Res) (func : Item → M Res).





End ProcessListFacts.



Section ProcessListTheorem.
Context {Item V Res : Type}.
Context (unpickle : V → M Res) (func : Item → M Res).

Lemma in_series_nil w : in_series func [] w = (Ok [], w).
Proof. done. Qed.



Lemma _process_list_no_pool run items w :
  executor w = None → _process_list unpickle func run items w = in_series func items w.
Proof. intros He. unfold _process_list, mbind at 1, M_bind at 1. by rewrite He. Qed.


End ProcessListTheorem.

(** ** The lifecycle *)

Global Instance EntityProcessor_flags : ProcessorFlags EntityProcessor.t.
Proof. by split. Qed.
Global Instance IntentProcessor_flags : ProcessorFlags IntentProcessor.t.
Proof. by split. Qed.
Global Instance DomainProcessor_flags : ProcessorFlags DomainProcessor.t.
Proof. by split. Qed.
Global Instance NaturalLanguageProcessor_flags : ProcessorFlags NaturalLanguageProcessor.t.
Proof. by split. Qed.

Section LifecycleFacts.
Context {P : Type} {ops : Processor P} {flags : ProcessorFlags P}.

Lemma build_flags incremental label_set (self self' : P) w w' :
  build incremental label_set self w = (Ok self', w') →
  ready self' = true ∧ dirty self' = true.
Proof.
  unfold build. intros Hrun.
  apply bind_inv_ok in Hrun as (self1 & w1 & _ & Hrun).
  apply bind_inv_ok in Hrun as (? & w2 & _ & Hrun).
  apply bind_inv_ok in Hrun as (self2 & w3 & _ & Hrun).
  apply bind_inv_ok in Hrun as (? & w4 & _ & Hrun).
  injection Hrun as <- <-.
  by rewrite ready_set_dirty, ready_set_ready, dirty_set_dirty.
Qed.

Lemma load_flags incremental_timestamp (self self' : P) w w' :
  load incremental_timestamp self w = (Ok self', w') →
  ready self' = true ∧ dirty self' = false.
Proof.
  unfold load. intros Hrun.
  apply bind_inv_ok in Hrun as (self1 & w1 & _ & Hrun).
  apply bind_inv_ok in Hrun as (self2 & w2 & _ & Hrun).
  injection Hrun as <- <-.
  by rewrite ready_set_dirty, ready_set_ready, dirty_set_dirty.
Qed.

Lemma dump_flags (self self' : P) w w' :
  dump self w = (Ok self', w') → dirty self' = false.
Proof.
  unfold dump. intros Hrun.
  apply bind_inv_ok in Hrun as (? & w1 & _ & Hrun).
  apply bind_inv_ok in Hrun as (self1 & w2 & _ & Hrun).
  apply bind_inv_ok in Hrun as (? & w3 & _ & Hrun).
  injection Hrun as <- <-. apply dirty_set_dirty.
Qed.

Lemma _check_ready_not_ready (self : P) w :
  ready self = false →
  _check_ready self w =
  (Raise (ProcessorError "Processor not ready, models must be built or loaded first."), w).
Proof. unfold _check_ready. by intros ->. Qed.

Lemma _check_ready_ready (self : P) w :
  ready self = true → _check_ready self w = (Ok (), w).
Proof. unfold _check_ready. by intros ->. Qed.
End LifecycleFacts.

(** C6, as amended.  Every processor (root, domain, intent and entity
    tier) has the lifecycle flags of the state machine: after a successful
    [build] they are [ready = true] and [dirty = true]; after a successful
    [load], [ready = true] and [dirty = false]; a successful [dump] leaves
    [dirty = false].  On a processor that is not ready, [process_query] of
    the root, domain and intent processors, and [process_entity] and
    [resolve_entity] of the entity processor, raise [ProcessorError] and
    leave the world as it is: no classifier is consulted.  [process_query] of
    the entity processor is not implemented. *)
Theorem lifecycle_state_machine :
  (∀ (P : Type) (ops : Processor P), ProcessorFlags P →
     (∀ incremental label_set (self self' : P) w w',
        build incremental label_set self w = (Ok self', w') →
        ready self' = true ∧ dirty self' = true) ∧
     (∀ incremental_timestamp (self self' : P) w w',
        load incremental_timestamp self w = (Ok self', w') →
        ready self' = true ∧ dirty self' = false) ∧
     (∀ (self self' : P) w w', dump self w = (Ok self', w') → dirty self' = false)) ∧
  (ProcessorFlags NaturalLanguageProcessor.t ∧ ProcessorFlags DomainProcessor.t ∧
   ProcessorFlags IntentProcessor.t ∧ ProcessorFlags EntityProcessor.t) ∧
  (∀ self pool query allowed_nlp_classes dynamic_resource verbose w,
     NaturalLanguageProcessor.ready self = false →
     NaturalLanguageProcessor.process_query self pool query allowed_nlp_classes
       dynamic_resource verbose w
     = (Raise (ProcessorError "Processor not ready, models must be built or loaded first."),
        w)) ∧
  (∀ self pool query allowed_nlp_classes dynamic_resource verbose w,
     DomainProcessor.ready self = false →
     DomainProcessor.process_query self pool query allowed_nlp_classes
       dynamic_resource verbose w
     = (Raise (ProcessorError "Processor not ready, models must be built or loaded first."),
        w)) ∧
  (∀ self pool query dynamic_resource verbose w,
     IntentProcessor.ready self = false →
     IntentProcessor.process_query self pool query dynamic_resource verbose w
     = (Raise (ProcessorError "Processor not ready, models must be built or loaded first."),
        w)) ∧
  (∀ self query processed_entities entity_index verbose aligned_entity_spans e w,
     EntityProcessor.ready self = false →
     EntityProcessor.process_entity self query processed_entities entity_index verbose w
     = (Raise (ProcessorError "Processor not ready, models must be built or loaded first."),
        w) ∧
     EntityProcessor.resolve_entity self e aligned_entity_spans w
     = (Raise (ProcessorError "Processor not ready, models must be built or loaded first."),
        w)) ∧
  (∀ self (query : query_arg) (allowed_nlp_classes : option (gset Label))
     (dynamic_resource : DynamicResource) (verbose : bool) w,
     EntityProcessor.process_query (R := ProcessedQuery) self query allowed_nlp_classes
       dynamic_resource verbose w
     = (Raise NotImplementedError, w)).
Proof.
  split; [|split; [|split; [|split; [|split; [|split]]]]].
  - intros P ops Hflags. split; [|split].
    + intros. by eapply build_flags.
    + intros. by eapply load_flags.
    + intros. by eapply dump_flags.
  - repeat split; apply _.
  - intros self pool query allowed dr verbose w Hready.
    unfold NaturalLanguageProcessor.process_query.
    by rewrite (bind_raise _ _ _ _ _
                  (_check_ready_not_ready (ops := NaturalLanguageProcessor.processor) self w Hready)).
  - intros self pool query allowed dr verbose w Hready.
    unfold DomainProcessor.process_query.
    by rewrite (bind_raise _ _ _ _ _
                  (_check_ready_not_ready (ops := DomainProcessor.processor) self w Hready)).
  - intros self pool query dr verbose w Hready.
    unfold IntentProcessor.process_query.
    by rewrite (bind_raise _ _ _ _ _
                  (_check_ready_not_ready (ops := IntentProcessor.processor) self w Hready)).
  - intros self query ents idx verbose aligned e w Hready.
    unfold EntityProcessor.process_entity, EntityProcessor.resolve_entity.
    by rewrite !(bind_raise _ _ _ _ _
                   (_check_ready_not_ready (ops := EntityProcessor.processor) self w Hready)).
  - done.
Qed.

(** The two-domain application builds, and is then ready and dirty. *)
Lemma lifecycle_state_machine_witness :
  ∃ self' w',
    build false None home_and_weather_app empty_world = (Ok self', w') ∧
    ready self' = true ∧ dirty self' = true.
Proof.
  destruct lifecycle_state_machine as [Hflags _].
  destruct (Hflags NaturalLanguageProcessor.t _ _) as (Hbuild & _ & _).
  destruct (build false None home_and_weather_app empty_world) as [[self'|e] w'] eqn:Hrun;
    [|by vm_compute in Hrun].
  exists self', w'. split; [done|]. by eapply Hbuild.
Defined.

(** C6 as stated fails for the entity tier: on an entity processor that is
    not ready, [process_query] raises [NotImplementedError], not
    [ProcessorError]. *)
Lemma entity_processor_process_query_counterexample :
  EntityProcessor.ready
    (EntityProcessor.mk false false None "smart_home" "close_door" "door" no_roles no_resolver)
  = false ∧
  EntityProcessor.process_query (R := ProcessedQuery)
    (EntityProcessor.mk false false None "smart_home" "close_door" "door" no_roles no_resolver)
    (a_query close_the_door) (None : option (gset Label)) (None : DynamicResource) false
    empty_world
  = (Raise NotImplementedError, empty_world) ∧
  NotImplementedError
  ≠ ProcessorError "Processor not ready, models must be built or loaded first.".
Proof. done. Qed.

(** ** Entity post-processing *)

Lemma mapM_deref (refs : list nat) (values : list QueryEntity) w :
  Forall2 (λ l v, heap w !! l = Some v) refs values →
  mapM deref refs w = (Ok values, w).
Proof.
  induction 1 as [|l v refs values Hl _ IH]; [done|].
  simpl. unfold mbind at 1, M_bind at 1, deref at 1. rewrite Hl.
  unfold mbind at 1, M_bind at 1. by rewrite IH.
Qed.

Lemma alter_insert {A} (f : A → A) (l : list A) i v :
  l !! i = Some v → alter f i l = <[i := f v]> l.
Proof.
  intros Hi. apply list_eq. intros j. destruct (decide (i = j)) as [<-|Hne].
  - rewrite list_lookup_alter_eq, list_lookup_insert_eq, Hi; [done|].
    by eapply lookup_lt_Some.
  - by rewrite list_lookup_alter_ne, list_lookup_insert_ne.
Qed.

(** C8.  When the role classifier of an entity processor has no roles,
    [process_entity] leaves the world as it is, whatever it is called with:
    the role classifier is not consulted and no entity is written; what it
    returns is the entity at the index with a [None] confidence score, and
    it does return on a ready processor and an index of the list.
    [resolve_entity] asks the resolver once and stores its answer as the
    value of the entity: the answer for the entities of the whole aligned
    group when a non-empty group is given, and for the entity alone
    otherwise. *)
Theorem entity_role_and_resolution :
  (∀ self query processed_entities entity_index verbose w,
     RoleClassifier.roles (EntityProcessor.role_classifier self) = [] →
     (EntityProcessor.process_entity self query processed_entities entity_index verbose w).2
     = w ∧
     ∀ r, (EntityProcessor.process_entity self query processed_entities entity_index
             verbose w).1 = Ok r →
          processed_entities !! entity_index = Some r.1 ∧ r.2 = None) ∧
  (∀ self query processed_entities entity_index verbose e w,
     EntityProcessor.ready self = true →
     RoleClassifier.roles (EntityProcessor.role_classifier self) = [] →
     processed_entities !! entity_index = Some e →
     EntityProcessor.process_entity self query processed_entities entity_index verbose w
     = (Ok (e, None), w)) ∧
  (∀ self e v aligned_entity_spans w,
     EntityProcessor.ready self = true →
     heap w !! e = Some v →
     faults w (EntityProcessor.the_entity_resolver self) call_predict = None →
     (∀ spans, aligned_entity_spans ≠ [] →
        Forall2 (λ l s, heap w !! l = Some s) aligned_entity_spans spans →
        EntityProcessor.resolve_entity self e (Some aligned_entity_spans) w
        = (Ok e,
           mkWorld (log w ++ [(EntityProcessor.the_entity_resolver self, call_predict)])
             (faults w)
             (<[e := set_value
                       (EntityResolver.predict (EntityProcessor.entity_resolver self)
                          (entity <$> spans)) v]> (heap w))
             (executor w))) ∧
     (∀ aligned, aligned = None ∨ aligned = Some [] →
        EntityProcessor.resolve_entity self e aligned w
        = (Ok e,
           mkWorld (log w ++ [(EntityProcessor.the_entity_resolver self, call_predict)])
             (faults w)
             (<[e := set_value
                       (EntityResolver.predict (EntityProcessor.entity_resolver self)
                          [entity v]) v]> (heap w))
             (executor w)))).
Proof.
  split; [|split].
  - intros self query ents idx verbose w Hroles.
    unfold EntityProcessor.process_entity, _check_ready, subscript.
    rewrite Hroles. unfold mbind, M_bind, raise, mret, M_ret. simpl.
    destruct (EntityProcessor.ready self); simpl; [|done].
    destruct (ents !! idx) as [e|]; simpl; [|done].
    split; [done|]. by intros r [= <-].
  - intros self query ents idx verbose e w Hready Hroles He.
    unfold EntityProcessor.process_entity.
    rewrite (bind_ok _ _ _ _ _ (_check_ready_ready (ops := EntityProcessor.processor)
                                  self w Hready)).
    rewrite (bind_ok _ _ _ _ _ (subscript_ok _ _ _ w He)).
    by rewrite Hroles.
  - intros self e v aligned w Hready He Hfault.
    assert (∀ entity_list,
      (consult (EntityProcessor.the_entity_resolver self) call_predict;;
       update e (set_value (EntityResolver.predict (EntityProcessor.entity_resolver self)
                              entity_list));;
       mret e) w
      = (Ok e,
         mkWorld (log w ++ [(EntityProcessor.the_entity_resolver self, call_predict)])
           (faults w)
           (<[e := set_value (EntityResolver.predict (EntityProcessor.entity_resolver self)
                                entity_list) v]> (heap w))
           (executor w))) as Hstore.
    { intros entity_list. unfold mbind, M_bind, consult, update, mret, M_ret.
      rewrite Hfault. simpl. do 2 f_equal. by apply alter_insert. }
    split.
    + intros spans Hnonempty Hspans.
      unfold EntityProcessor.resolve_entity.
      rewrite (bind_ok _ _ _ _ _ (_check_ready_ready (ops := EntityProcessor.processor)
                                    self w Hready)).
      destruct aligned as [|l ls]; [done|].
      erewrite bind_ok; [apply Hstore|].
      by rewrite (bind_ok _ _ _ _ _ (mapM_deref _ _ _ Hspans)).
    + intros aligned' Hempty.
      unfold EntityProcessor.resolve_entity.
      rewrite (bind_ok _ _ _ _ _ (_check_ready_ready (ops := EntityProcessor.processor)
                                    self w Hready)).
      erewrite bind_ok; [apply Hstore|].
      destruct Hempty as [->| ->]; unfold mbind, M_bind, deref; by rewrite He.
Qed.

(** ** The frame of entity post-processing *)

Section Frame.
Variable n : nat.

Lemma frame_refl w : frame n w w.
Proof. by split. Qed.

Lemma frame_same_heap w w' : heap w' = heap w → frame n w w'.
Proof. intros Hh. split; by rewrite Hh. Qed.

Lemma frame_trans w1 w2 w3 : frame n w1 w2 → frame n w2 w3 → frame n w1 w3.
Proof.
  intros [Hl1 Hf1] [Hl2 Hf2]. split; [lia|].
  intros l Hl. by rewrite Hf2, Hf1.
Qed.

Lemma wp_ret {A} (a : A) (Q : A → World → Prop) w : Q a w → wp n (mret a) Q w.
Proof. intros HQ. split; [apply frame_refl|]. by intros ? [= <-]. Qed.

Lemma wp_raise {A} e (Q : A → World → Prop) w : wp n (raise e) Q w.
Proof. split; [apply frame_refl|done]. Qed.

Lemma wp_bind {A B} (m : M A) (k : A → M B) Q1 (Q2 : B → World → Prop) w :
  wp n m Q1 w →
  (∀ a w1, frame n w w1 → Q1 a w1 → wp n (k a) Q2 w1) →
  wp n (m ≫= k) Q2 w.
Proof.
  intros [Hframe HQ1] Hk. unfold wp, mbind, M_bind.
  destruct (m w) as [[a|e] w1] eqn:Hm; simpl in *; [|by split].
  destruct (Hk a w1 Hframe (HQ1 a eq_refl)) as [Hframe' HQ2].
  split; [by eapply frame_trans|done].
Qed.

Lemma wp_weaken {A} (m : M A) (Q Q' : A → World → Prop) w :
  wp n m Q w → (∀ a w', frame n w w' → Q a w' → Q' a w') → wp n m Q' w.
Proof. intros [Hframe HQ] Himp. split; [done|]. intros a Ha. auto. Qed.

Lemma wp_consult c op (Q : unit → World → Prop) w :
  (∀ w', heap w' = heap w → Q () w') → wp n (consult c op) Q w.
Proof.
  intros HQ. unfold wp, consult. destruct (faults w c op); simpl.
  - split; [by apply frame_same_heap|done].
  - split; [by apply frame_same_heap|]. intros [] _. by apply HQ.
Qed.

Lemma wp_alloc v w :
  (n ≤ length (heap w))%nat →
  wp n (alloc v) (λ l w', (n ≤ l < length (heap w'))%nat) w.
Proof.
  intros Hn. unfold wp, alloc, frame. simpl. split.
  - split; [rewrite length_app; lia|].
    intros l Hl. apply lookup_app_l. lia.
  - intros ? [= <-]. rewrite length_app. simpl. lia.
Qed.

Lemma wp_deref l w : wp n (deref l) (λ _ w', w' = w) w.
Proof.
  unfold wp, deref. destruct (heap w !! l); simpl; (split; [apply frame_refl|done]).
Qed.

Lemma wp_update l f w :
  (n ≤ l)%nat → wp n (update l f) (λ _ w', length (heap w') = length (heap w)) w.
Proof.
  intros Hl. unfold wp, update, frame. simpl. split.
  - split; [by rewrite length_alter|].
    intros l' Hl'. apply list_lookup_alter_ne. lia.
  - intros _ _. apply length_alter.
Qed.

Lemma wp_subscript {A} (l : list A) i w :
  wp n (subscript l i) (λ x w', w' = w ∧ l !! i = Some x) w.
Proof.
  unfold subscript. destruct (l !! i) as [x|] eqn:Hx.
  - by apply wp_ret.
  - apply wp_raise.
Qed.

Lemma wp_get_child {C} (children : list (Label * C)) key w :
  wp n (get_child children key) (λ _ w', w' = w) w.
Proof.
  unfold get_child. destruct (child children key); [by apply wp_ret|apply wp_raise].
Qed.

Lemma wp_try_except {A} (m : M A) (Q : A → World → Prop) w :
  wp n m Q w →
  wp n (try_except m) (λ o w', ∀ a, o = Some a → Q a w') w.
Proof.
  intros [Hframe HQ]. unfold wp, try_except.
  destruct (m w) as [[a|e] w1]; simpl in *.
  - split; [done|]. intros ? [= <-] ? [= <-]. by apply HQ.
  - split; [done|]. by intros ? [= <-] ?.
Qed.

Lemma wp_restart_subprocesses w :
  wp n restart_subprocesses (λ _ w', heap w' = heap w) w.
Proof.
  unfold wp, restart_subprocesses. destruct (executor w); simpl.
  - split; [by apply frame_same_heap|done].
  - split; [apply frame_refl|done].
Qed.

Lemma frame_length w w' : frame n w w' → (n ≤ length (heap w))%nat →
  (n ≤ length (heap w'))%nat.
Proof. intros [Hl _] ?. lia. Qed.

(** A loop of [mapM] whose body satisfies [Q], for a [Q] that keeps
    holding while the store grows. *)
Lemma wp_mapM {A B} (f : A → M B) (Q : B → World → Prop) (l : list A) w :
  (∀ b w1 w2, Q b w1 → frame n w1 w2 → Q b w2) →
  (∀ x w1, x ∈ l → frame n w w1 → wp n (f x) Q w1) →
  wp n (mapM f l) (λ bs w', Forall (λ b, Q b w') bs) w.
Proof.
  intros Hmono. revert w. induction l as [|x l IH]; intros w Hf.
  - by apply wp_ret.
  - simpl. eapply wp_bind.
    { apply Hf; [apply elem_of_cons; by left|apply frame_refl]. }
    intros b w1 Hw1 Hb. eapply wp_bind.
    { apply IH. intros y w2 Hy Hw2. apply Hf; [apply elem_of_cons; by right|].
      by eapply frame_trans. }
    intros bs w2 Hw2 Hbs. apply wp_ret. constructor; [by eapply Hmono|done].
Qed.

Lemma wp_check_ready {P} `{Processor P} (self : P) w :
  wp n (_check_ready self) (λ _ w', w' = w) w.
Proof. unfold _check_ready. destruct (ready self); [by apply wp_ret|apply wp_raise]. Qed.

Lemma wp_results_of {Item Res} (slots : list (Item + Res)) (Q : Res → Prop) w :
  Forall (λ s, ∀ r, s = inr r → Q r) slots →
  wp n (results_of slots) (λ rs w', w' = w ∧ Forall Q rs) w.
Proof.
  unfold results_of. induction 1 as [|[item|r] slots Hs _ IH]; simpl.
  - by apply wp_ret.
  - eapply (wp_bind _ _ (λ _ _, False)); [apply wp_raise|]. by intros ? ? ? [].
  - eapply (wp_bind _ _ (λ r' w', r' = r ∧ w' = w)); [by apply wp_ret|].
    intros r' w1 _ [-> ->].
    eapply wp_bind; [apply IH|]. intros rs w1 _ [-> Hrs].
    apply wp_ret. split; [done|]. constructor; [by apply Hs|done].
Qed.

Section ProcessList.
Context {Item V Res : Type} (unpickle : V → M Res) (func : Item → M Res).
Context (Q : Res → World → Prop).
Hypothesis Q_mono : ∀ r w1 w2, Q r w1 → frame n w1 w2 → Q r w2.

(** A slot that holds a result holds one that satisfies [Q]. *)
Let slot_ok (w : World) (s : Item + Res) : Prop := ∀ r, s = inr r → Q r w.

Lemma wp_collect_all run idx_map results futures w :
  (∀ v w1, frame n w w1 → wp n (unpickle v) Q w1) →
  Forall (slot_ok w) results →
  wp n (collect_all unpickle run idx_map results futures)
    (λ slots w', Forall (slot_ok w') slots) w.
Proof.
  revert results w. induction futures as [|f futures IH]; intros results w Hun Hres.
  - by apply wp_ret.
  - simpl. eapply (wp_bind _ _ (λ slots w', Forall (slot_ok w') slots)).
    + unfold collect. destruct (state_of run f) as [|v|]; [apply wp_raise| |apply wp_raise].
      eapply wp_bind; [apply Hun, frame_refl|].
      intros item w1 Hw1 Hitem.
      destruct (idx_map !! f) as [item_idx|]; [|apply wp_raise].
      case_bool_decide; [|apply wp_raise].
      apply wp_ret. apply Forall_insert.
      * eapply Forall_impl; [done|]. intros s Hs r ->. eapply Q_mono; [by apply Hs|done].
      * by intros r [= <-].
    + intros results' w1 Hw1 Hres'. apply IH; [|done].
      intros v w2 Hw2. apply Hun. by eapply frame_trans.
Qed.

Lemma wp_in_series items w :
  (∀ item w1, frame n w w1 → wp n (func item) Q w1) →
  wp n (in_series func items)
    (λ slots w', Forall (slot_ok w') slots) w.
Proof.
  intros Hfunc. unfold in_series. eapply wp_bind.
  - apply wp_mapM; [apply Q_mono|]. intros item w1 _ Hw1. by apply Hfunc.
  - intros rs w1 _ Hrs. apply wp_ret.
    apply Forall_fmap. eapply Forall_impl; [exact Hrs|].
    intros r Hr r' Heq. by injection Heq as <-.
Qed.

Lemma wp_process_list run items w :
  (∀ v w1, frame n w w1 → wp n (unpickle v) Q w1) →
  (∀ item w1, frame n w w1 → wp n (func item) Q w1) →
  wp n (_process_list unpickle func run items)
    (λ slots w', Forall (slot_ok w') slots) w.
Proof.
  intros Hun Hfunc. unfold _process_list.
  eapply (wp_bind _ _ (λ _ w', w' = w)).
  { split; [apply frame_refl|done]. }
  intros pool w1 _ ->. destruct pool as [pool|]; [|by apply wp_in_series].
  eapply wp_bind.
  { apply wp_try_except. unfold dispatch. case_bool_decide; [|apply wp_raise].
    apply wp_collect_all; [done|].
    apply Forall_fmap, Forall_true. by intros item r. }
  intros [results|] w1 Hw1 Hresults.
  - apply wp_ret. by apply Hresults.
  - eapply wp_bind; [apply wp_restart_subprocesses|].
    intros _ w2 Hw2 _. apply wp_in_series.
    intros item w3 Hw3. apply Hfunc. eauto using frame_trans.
Qed.
End ProcessList.
End Frame.

Section PostProcessing.
Variable n : nat.

Lemma wp_true {A} (m : M A) (Q : A → World → Prop) w :
  wp n m Q w → wp n m (λ _ _, True) w.
Proof. intros Hm. by eapply wp_weaken. Qed.

Lemma wp_consult' c op w : wp n (consult c op) (λ _ _, True) w.
Proof. by apply wp_consult. Qed.

Lemma wp_deref' l w : wp n (deref l) (λ _ _, True) w.
Proof. eapply wp_true, wp_deref. Qed.

Lemma wp_update' l f w : (n ≤ l)%nat → wp n (update l f) (λ _ _, True) w.
Proof. intros Hl. by eapply wp_true, wp_update. Qed.

Lemma wp_subscript' {A} (l : list A) i w : wp n (subscript l i) (λ _ _, True) w.
Proof. eapply wp_true, wp_subscript. Qed.

Lemma wp_get_child' {C} (children : list (Label * C)) key w :
  wp n (get_child children key) (λ _ _, True) w.
Proof. eapply wp_true, wp_get_child. Qed.

Lemma wp_check_ready' {P} `{Processor P} (self : P) w :
  wp n (_check_ready self) (λ _ _, True) w.
Proof. eapply wp_true, wp_check_ready. Qed.

Lemma wp_mapM_deref refs w : wp n (mapM deref refs) (λ _ _, True) w.
Proof.
  eapply wp_true, (wp_mapM n deref (λ _ _, True)); [done|].
  intros l w1 _ _. apply wp_deref'.
Qed.

Lemma wp_process_entity self query processed_entities entity_index verbose w :
  Forall (λ e, n ≤ e)%nat processed_entities →
  wp n (EntityProcessor.process_entity self query processed_entities entity_index verbose)
    (λ ec _, (n ≤ ec.1)%nat) w.
Proof.
  intros Hnew. unfold EntityProcessor.process_entity.
  eapply wp_bind; [apply wp_check_ready'|]. intros _ w1 _ _.
  eapply wp_bind; [apply wp_subscript|]. intros e w2 _ [_ He].
  assert (n ≤ e)%nat as Hn by (by eapply (Forall_lookup_1 _ _ _ _ Hnew)).
  case_bool_decide; [|by apply wp_ret].
  eapply wp_bind; [apply wp_mapM_deref|]. intros all w3 _ _.
  destruct verbose.
  - eapply wp_bind; [apply wp_consult'|]. intros _ w4 _ _.
    eapply wp_bind; [apply wp_subscript'|]. intros top w5 _ _.
    eapply wp_bind; [by apply wp_update'|]. intros _ w6 _ _.
    by apply wp_ret.
  - eapply wp_bind; [apply wp_consult'|]. intros _ w4 _ _.
    eapply wp_bind; [by apply wp_update'|]. intros _ w6 _ _.
    by apply wp_ret.
Qed.

Lemma wp_resolve_entity self e aligned_entity_spans w :
  (n ≤ e)%nat →
  wp n (EntityProcessor.resolve_entity self e aligned_entity_spans)
    (λ e' _, (n ≤ e')%nat) w.
Proof.
  intros Hn. unfold EntityProcessor.resolve_entity.
  eapply wp_bind; [apply wp_check_ready'|]. intros _ w1 _ _.
  eapply (wp_bind _ _ _ (λ _ _, True)).
  { destruct aligned_entity_spans as [[|l ls]|].
    - eapply wp_bind; [apply wp_deref'|]. intros. by apply wp_ret.
    - eapply wp_bind; [apply wp_mapM_deref|]. intros. by apply wp_ret.
    - eapply wp_bind; [apply wp_deref'|]. intros. by apply wp_ret. }
  intros entity_list w2 _ _.
  eapply wp_bind; [apply wp_consult'|]. intros _ w3 _ _.
  eapply wp_bind; [by apply wp_update'|]. intros _ w4 _ _.
  by apply wp_ret.
Qed.

Lemma wp_classify_and_resolve_entities self idx query processed_entities
    aligned_entities verbose w :
  Forall (λ e, n ≤ e)%nat processed_entities →
  wp n (IntentProcessor._classify_and_resolve_entities self idx query processed_entities
          aligned_entities verbose)
    (λ ec _, (n ≤ ec.1)%nat) w.
Proof.
  intros Hnew. unfold IntentProcessor._classify_and_resolve_entities.
  eapply wp_bind; [apply wp_subscript'|]. intros e w1 _ _.
  eapply wp_bind; [apply wp_deref'|]. intros v w2 _ _.
  eapply wp_bind; [apply wp_get_child'|]. intros processor w3 _ _.
  eapply wp_bind; [by apply wp_process_entity|]. intros [e' role_confidence] w4 _ He'.
  eapply wp_bind; [apply wp_deref'|]. intros v' w5 _ _.
  eapply wp_bind; [apply wp_get_child'|]. intros processor' w6 _ _.
  eapply wp_bind; [apply wp_subscript'|]. intros group w7 _ _.
  eapply wp_bind; [by apply wp_resolve_entity|]. intros e'' w8 _ He''.
  by apply wp_ret.
Qed.

Lemma wp_deepcopy l w :
  (n ≤ length (heap w))%nat → wp n (deepcopy l) (λ l' _, (n ≤ l')%nat) w.
Proof.
  intros Hn. unfold deepcopy.
  eapply wp_bind; [apply wp_deref|]. intros v w1 _ ->.
  eapply wp_weaken; [by apply wp_alloc|]. simpl. intros; lia.
Qed.

Lemma wp_process_entities self pool query found aligned_entities verbose w :
  (n ≤ length (heap w))%nat →
  wp n (IntentProcessor._process_entities self pool query found aligned_entities verbose)
    (λ result _, Forall (λ e, n ≤ e)%nat result.1) w.
Proof.
  intros Hn. unfold IntentProcessor._process_entities.
  eapply wp_bind; [apply wp_subscript'|]. intros q w1 Hw1 _.
  eapply wp_bind; [apply wp_subscript'|]. intros reference w2 Hw2 _.
  eapply (wp_bind _ _ _ (λ copies _, Forall (λ e, n ≤ e)%nat copies)).
  { apply (wp_mapM n deepcopy (λ l' _, (n ≤ l')%nat)); [done|].
    intros l w3 _ Hw3. apply wp_deepcopy. eauto using frame_length. }
  intros processed_entities w3 Hw3 Hnew.
  eapply (wp_bind _ _ _ (λ slots _, Forall (λ s : nat + (nat * option Proba),
                                       ∀ r, s = inr r → (n ≤ r.1)%nat) slots)).
  { apply (wp_process_list n _ _ (λ ec _, (n ≤ ec.1)%nat)); [done| |].
    - intros [v c] w4 Hw4. eapply wp_bind.
      + apply wp_alloc. eauto 6 using frame_length.
      + intros e w5 _ He. apply wp_ret. simpl in *. lia.
    - intros idx w4 _. by apply wp_classify_and_resolve_entities. }
  intros slots w4 Hw4 Hslots.
  eapply wp_bind;
    [apply (wp_results_of n slots (λ r : nat * option Proba, (n ≤ r.1)%nat)); exact Hslots|].
  intros processed_entities_conf w5 Hw5 [_ Hconf].
  set (processed' := match processed_entities_conf with
                     | [] => processed_entities
                     | _ => processed_entities_conf.*1
                     end).
  assert (Forall (λ e, n ≤ e)%nat processed') as Hnew'.
  { unfold processed'. destruct processed_entities_conf; [done|].
    apply Forall_fmap. eapply Forall_impl; [exact Hconf|]. done. }
  clearbody processed'.
  eapply (wp_bind _ _ _ (λ ents _, Forall (λ e, n ≤ e)%nat ents)).
  { destruct (IntentProcessor.parser self) as [p|]; [|by apply wp_ret].
    eapply wp_bind; [apply wp_consult'|]. intros _ w6 Hw6 _.
    eapply wp_bind; [apply wp_mapM_deref|]. intros values w7 Hw7 _.
    apply (wp_mapM n alloc (λ l' _, (n ≤ l')%nat)); [done|].
    intros v w8 _ Hw8. eapply wp_weaken.
    - apply wp_alloc. eauto 10 using frame_length.
    - simpl. intros; lia. }
  intros ents w6 _ Hents. by apply wp_ret.
Qed.
End PostProcessing.

Section Recognition.
(** Recognition only creates objects: with [n = 0] the frame says that
    the store grows. *)
Local Abbreviation stored l w := (l < length (heap w))%nat.

Lemma stored_mono l w1 w2 : stored l w1 → frame 0 w1 w2 → stored l w2.
Proof. intros Hl [Hlen _]. lia. Qed.

Lemma Forall_stored_mono {A} (f : A → nat) (l : list A) w1 w2 :
  Forall (λ x, stored (f x) w1) l → frame 0 w1 w2 → Forall (λ x, stored (f x) w2) l.
Proof.
  intros Hl [Hlen _]. eapply Forall_impl; [exact Hl|]. intros x Hx. simpl in *. lia.
Qed.

Lemma wp_alloc_item verbose v w :
  wp 0 (IntentProcessor.alloc_item verbose v) (λ it w', stored (ref_of verbose it) w') w.
Proof.
  destruct verbose; simpl.
  - eapply wp_bind; [apply wp_alloc; lia|]. intros e w1 _ He.
    apply wp_ret. simpl in *. lia.
  - eapply wp_weaken; [apply wp_alloc; lia|]. simpl. intros; lia.
Qed.

Lemma wp_mapM_alloc_item verbose vs w :
  wp 0 (mapM (IntentProcessor.alloc_item verbose) vs)
    (λ its w', Forall (λ it, stored (ref_of verbose it) w') its) w.
Proof.
  apply (wp_mapM 0 _ (λ it w', stored (ref_of verbose it) w')).
  - intros it w1 w2. apply stored_mono.
  - intros v w1 _ _. apply wp_alloc_item.
Qed.

Lemma wp_recognize_entities_of_query self query dynamic_resource verbose w :
  wp 0 (IntentProcessor._recognize_entities_of_query self query dynamic_resource verbose)
    (λ its w', Forall (λ it, stored (ref_of verbose it) w') its) w.
Proof.
  unfold IntentProcessor._recognize_entities_of_query. destruct verbose.
  - eapply wp_bind; [apply wp_consult'|]. intros _ w1 _ _. apply wp_mapM_alloc_item.
  - eapply wp_bind; [apply wp_consult'|]. intros _ w1 _ _. apply wp_mapM_alloc_item.
Qed.

Lemma wp_recognize_entities self pool query dynamic_resource verbose w :
  wp 0 (IntentProcessor._recognize_entities self pool query dynamic_resource verbose)
    (λ all w', Forall (Forall (λ it, stored (ref_of verbose it) w')) all) w.
Proof.
  unfold IntentProcessor._recognize_entities.
  destruct (IntentProcessor.nbest_transcripts_enabled self).
  - eapply wp_bind.
    + apply (wp_process_list 0 _ _
               (λ its w', Forall (λ it, stored (ref_of verbose it) w') its)).
      * intros its w1 w2. apply Forall_stored_mono.
      * intros vs w1 _. apply wp_mapM_alloc_item.
      * intros q w1 _. apply wp_recognize_entities_of_query.
    + intros slots w1 _ Hslots.
      eapply wp_weaken.
      * apply (wp_results_of 0 slots
                 (λ its, Forall (λ it, stored (ref_of verbose it) w1) its)). exact Hslots.
      * simpl. by intros all w2 _ [-> Hall].
  - eapply wp_bind; [apply wp_subscript'|]. intros q w1 _ _.
    eapply wp_bind; [apply wp_recognize_entities_of_query|]. intros pred w2 _ Hpred.
    apply wp_ret. by constructor.
Qed.

Lemma wp_get_pred_entities self pool query dynamic_resource verbose w :
  wp 0 (IntentProcessor._get_pred_entities self pool query dynamic_resource verbose)
    (λ result w', Forall (Forall (λ l, stored l w')) (lists_of result.2)) w.
Proof.
  unfold IntentProcessor._get_pred_entities.
  pose proof (wp_recognize_entities self pool query dynamic_resource verbose) as Hrec.
  revert Hrec.
  generalize (IntentProcessor._recognize_entities self pool query dynamic_resource verbose).
  destruct verbose; intros recognize Hrec.
  - eapply wp_bind; [apply Hrec|]. intros all w1 _ Hall.
    eapply wp_bind; [apply wp_subscript|]. intros pred_entities w2 _ [-> Hpred].
    destruct (0 <? Z.of_nat (length pred_entities)).
    + eapply (wp_bind _ _ _ (λ _ w', frame 0 w1 w')).
      { eapply wp_weaken.
        - apply (wp_mapM 0 _ (λ _ _, True)); [done|].
          intros es w3 _ _. eapply wp_bind; [apply wp_deref'|]. intros. by apply wp_ret.
        - simpl. by intros. }
      intros entity_confidence w3 _ Hw3. apply wp_ret. simpl.
      constructor; [|constructor]. apply Forall_fmap.
      eapply (Forall_stored_mono (ref_of true)); [|exact Hw3].
      by eapply (Forall_lookup_1 _ _ _ _ Hall).
    + apply wp_ret. simpl. constructor; [constructor|].
      apply Forall_fmap. apply Forall_tail in Hall.
      eapply Forall_impl; [exact Hall|]. intros entities_n Hn. simpl.
      by apply Forall_fmap.
  - eapply wp_bind; [apply Hrec|]. intros all w1 _ Hall.
    eapply wp_bind; [apply wp_subscript|]. intros pred_entities w2 _ [-> Hpred].
    by apply wp_ret.
Qed.
End Recognition.

Lemma _align_entities_of_members self found w :
  ∃ r, IntentProcessor._align_entities_of self found w = (r, w) ∧
       ∀ aligned, r = Ok aligned →
         ∀ g l, g ∈ aligned → l ∈ g → ∃ ents, ents ∈ lists_of found ∧ l ∈ ents.
Proof.
  unfold IntentProcessor._align_entities_of. destruct found as [per_transcript|rest].
  - destruct per_transcript as [|refs rest].
    { eexists. split; [done|]. done. }
    destruct (_align_entities_grouped (λ e, span (heap w !!! e))
                (λ e, type (entity (heap w !!! e)))
                (IntentProcessor.nbest_transcripts_enabled self) refs rest)
      as (groups & Hrun & Hgroups).
    eexists. split; [done|]. rewrite Hrun. intros aligned [= <-] g l Hg Hl.
    apply list_elem_of_lookup in Hg as [i Hi].
    destruct (Forall2_lookup_r _ _ _ _ _ Hgroups Hi) as (r & Hr & appended & -> & Happ).
    simpl. apply elem_of_cons in Hl as [->|Hl].
    + exists refs. split; [apply elem_of_cons; by left|]. by eapply list_elem_of_lookup_2.
    + rewrite Forall_forall in Happ. destruct (Happ l Hl) as [(ents & Hents & Hin) _].
      exists ents. split; [apply elem_of_cons; by right|done].
  - destruct ((1 <? Z.of_nat (length ([] :: rest)))
              && IntentProcessor.nbest_transcripts_enabled self).
    + destruct (forallb _ rest).
      * eexists. split; [done|]. intros aligned [= <-] g l Hg. by apply elem_of_nil in Hg.
      * eexists. split; [done|]. done.
    + eexists. split; [done|]. intros aligned [= <-] g l Hg. by apply elem_of_nil in Hg.
Qed.

(** C9.  When [process_query] of an intent processor completes, every
    entity object that the recognizer returned is as it was right after
    recognition, in the store the call leaves: post-processing has not
    touched its role or its value.  This holds of the entities of the fields
    [nbest_transcripts_entities] and [nbest_aligned_entities] of the result,
    which are recognized objects.  The entities of the field [entities] of
    the result are other objects, created after recognition. *)
Theorem process_query_keeps_recognized_entities
    self pool query dynamic_resource verbose w processed_query w' :
  IntentProcessor.process_query self pool query dynamic_resource verbose w
    = (Ok processed_query, w') →
  ∃ entity_confidence found w1,
    IntentProcessor._get_pred_entities self pool (transcripts query) dynamic_resource verbose w
      = (Ok (entity_confidence, found), w1) ∧
    (∀ ents l, ents ∈ lists_of found → l ∈ ents →
       (l < length (heap w1))%nat ∧ heap w' !! l = heap w1 !! l) ∧
    (∀ all, nbest_transcripts_entities processed_query = Some all → all = lists_of found) ∧
    (∀ aligned g l, nbest_aligned_entities processed_query = Some aligned →
       g ∈ aligned → l ∈ g → ∃ ents, ents ∈ lists_of found ∧ l ∈ ents) ∧
    (∀ l, l ∈ entities processed_query →
       (length (heap w1) ≤ l)%nat ∧ ∀ ents, ents ∈ lists_of found → l ∉ ents) ∧
    (∀ l, (l < length (heap w1))%nat → heap w' !! l = heap w1 !! l).
Proof.
  unfold IntentProcessor.process_query. intros Hrun.
  apply bind_inv_ok in Hrun as ([] & w0 & Hready & Hrun).
  assert (w0 = w) as ->.
  { unfold _check_ready in Hready. destruct (ready self); [by injection Hready|done]. }
  apply bind_inv_ok in Hrun as ([entity_confidence found] & w1 & Hfound & Hrun).
  exists entity_confidence, found, w1. split; [done|].
  pose proof (wp_get_pred_entities self pool (transcripts query) dynamic_resource verbose w)
    as [_ Hstored].
  rewrite Hfound in Hstored. specialize (Hstored _ eq_refl). simpl in Hstored.
  set (n := length (heap w1)) in *.
  match type of Hrun with ?k w1 = _ =>
    assert (wp n k (λ pq _,
              Forall (λ e, n ≤ e)%nat (entities pq) ∧
              (∀ all, nbest_transcripts_entities pq = Some all → all = lists_of found) ∧
              (∀ aligned g l, nbest_aligned_entities pq = Some aligned →
                 g ∈ aligned → l ∈ g → ∃ ents, ents ∈ lists_of found ∧ l ∈ ents)) w1)
      as [Hframe Hpost]
  end.
  { eapply (wp_bind _ _ _ (λ aligned w2, w2 = w1 ∧
              ∀ g l, g ∈ aligned → l ∈ g → ∃ ents, ents ∈ lists_of found ∧ l ∈ ents)).
    { destruct (_align_entities_of_members self found w1) as (r & Hr & Hmembers).
      unfold wp. rewrite Hr. simpl. split; [apply frame_refl|].
      intros aligned ->. split; [done|]. by apply Hmembers. }
    intros aligned w2 _ [-> Hmembers].
    eapply wp_bind; [by apply wp_process_entities|].
    intros [processed_entities role_confidence] w3 _ Hnew.
    eapply wp_bind; [apply wp_subscript'|]. intros q w4 _ _.
    destruct query as [q0|qs]; simpl.
    - apply wp_ret. simpl. split; [done|]. split; [done|]. done.
    - destruct (IntentProcessor.nbest_transcripts_enabled self).
      + apply wp_ret. simpl. split; [done|]. split; [by intros ? [= <-]|].
        intros ? g l [= <-]. apply Hmembers.
      + apply wp_ret. simpl. split; [done|]. split; [done|]. done. }
  rewrite Hrun in Hframe, Hpost. simpl in Hframe.
  destruct (Hpost _ eq_refl) as (Hnew & Hall & Haligned).
  destruct Hframe as [_ Hkept].
  assert (∀ ents l, ents ∈ lists_of found → l ∈ ents → (l < n)%nat) as Hbelow.
  { intros ents l Hents Hl. rewrite Forall_forall in Hstored.
    specialize (Hstored ents Hents). rewrite Forall_forall in Hstored. by apply Hstored. }
  split; [|split; [|split; [|split]]]; try done.
  - intros ents l Hents Hl. split; [by eapply Hbelow|]. apply Hkept. by eapply Hbelow.
  - intros l Hl. rewrite Forall_forall in Hnew. specialize (Hnew l Hl). split; [done|].
    intros ents Hents Hin. specialize (Hbelow ents l Hents Hin). lia.
Qed.

(** ** The properties on the examples *)

Example process_query_book_2_tickets :
  IntentProcessor.process_query book idle_pool (n_best book_2_tickets) None false empty_world
  = (Ok booked, after_booking).
Proof. vm_compute. reflexivity. Qed.

(** The two recognized numbers are objects 0 and 1 and keep no role and no
    value; the processed entity is object 2. *)
Lemma process_query_keeps_recognized_entities_witness :
  ∃ entity_confidence found w1,
    IntentProcessor._get_pred_entities book idle_pool (transcripts (n_best book_2_tickets))
      None false empty_world
      = (Ok (entity_confidence, found), w1) ∧
    (∀ ents l, ents ∈ lists_of found → l ∈ ents →
       (l < length (heap w1))%nat ∧ heap after_booking !! l = heap w1 !! l) ∧
    (∀ all, nbest_transcripts_entities booked = Some all → all = lists_of found) ∧
    (∀ aligned g l, nbest_aligned_entities booked = Some aligned →
       g ∈ aligned → l ∈ g → ∃ ents, ents ∈ lists_of found ∧ l ∈ ents) ∧
    (∀ l, l ∈ entities booked →
       (length (heap w1) ≤ l)%nat ∧ ∀ ents, ents ∈ lists_of found → l ∉ ents) ∧
    (∀ l, (l < length (heap w1))%nat → heap after_booking !! l = heap w1 !! l).
Proof.
  apply (process_query_keeps_recognized_entities book idle_pool (n_best book_2_tickets)
           None false empty_world booked after_booking).
  vm_compute. reflexivity.
Defined.

(** An entity type without roles, and the resolution of a number from its
    aligned group. *)
Lemma entity_role_and_resolution_witness :
  EntityProcessor.process_entity
    (EntityProcessor.mk true false None "tickets" "book" "number" no_roles text_resolver)
    (mkQuery "book 2 tickets") [0%nat] 0 true
    (mkWorld [] (faults empty_world) [number_at 5 6 "2"] None)
  = (Ok (0%nat, None), mkWorld [] (faults empty_world) [number_at 5 6 "2"] None) ∧
  EntityProcessor.resolve_entity number_processor 2 (Some [0; 1]%nat)
    (mkWorld [] (faults empty_world)
       [number_at 5 6 "2"; number_at 5 8 "two"; number_at 5 6 "2"] None)
  = (Ok 2%nat,
     mkWorld [(resolver "number", call_predict)] (faults empty_world)
       [number_at 5 6 "2"; number_at 5 8 "two";
        mkQueryEntity (mkSpan 5 6) (mkEntity "2" "number" None (Some "2|two"))] None).
Proof.
  destruct entity_role_and_resolution as (_ & Hrole & Hresolve). split.
  - by apply Hrole.
  - destruct (Hresolve number_processor 2%nat (number_at 5 6 "2") [0; 1]%nat
                (mkWorld [] (faults empty_world)
                   [number_at 5 6 "2"; number_at 5 8 "two"; number_at 5 6 "2"] None))
      as [Hgroup _]; [done..|].
    apply (Hgroup [number_at 5 6 "2"; number_at 5 8 "two"]); [done|].
    by repeat constructor.
Defined.


(* ===================================================================== *)
(** * Part III.  More properties of the code                              *)
(* ===================================================================== *)

(** ** More on n-best alignment *)

Section AlignMore.
Context {E : Type} (span_of : E → Span) (type_of : E → Label).
Local Abbreviation aligns' := (aligns span_of type_of).
Local Abbreviation place' := (place span_of type_of).
Local Abbreviation align_entity' := (align_entity span_of type_of).
Local Abbreviation align_transcript' := (align_transcript span_of type_of).
Local Abbreviation grouped' := (grouped span_of type_of).

Lemma aligns_self (a : E) :
  aligns' a a = bool_decide (start (span_of a) ≤ end_ (span_of a)).
Proof.
  unfold aligns.
  rewrite String.eqb_refl, andb_true_r, Z.min_id, Z.max_id.
  unfold widened_end.
  destruct (Z.eqb_spec (start (span_of a)) (end_ (span_of a))) as [Heq|Hne].
  - rewrite bool_decide_true by lia. apply Z.gtb_gt. lia.
  - case_bool_decide.
    + apply Z.gtb_gt. lia.
    + rewrite Z.gtb_ltb. apply Z.ltb_ge. lia.
Qed.

(** X1.  The test of the inner loop does not depend on which of the two
    entities is the candidate and which the reference, and an entity passes
    the test with itself exactly when its span is not reversed
    ([start <= end]). *)
Theorem aligns_symmetric_reflexive (a b : E) :
  aligns span_of type_of a b = aligns span_of type_of b a ∧
  aligns span_of type_of a a = bool_decide (start (span_of a) ≤ end_ (span_of a)).
Proof.
  split; [|apply aligns_self]. unfold aligns.
  rewrite Z.min_comm, Z.max_comm. f_equal. apply String.eqb_sym.
Qed.

(** The entities appended to the groups, in group order. *)
Lemma appended_alter (groups : list (list E)) i g (ent : E) :
  groups !! i = Some g → g ≠ [] →
  concat (tail <$> alter (λ group, group ++ [ent]) i groups)
  ≡ₚ ent :: concat (tail <$> groups).
Proof.
  revert i. induction groups as [|g0 groups IH]; intros i; [done|].
  destruct i as [|i]; simpl.
  - intros [= ->] Hg. destruct g as [|r app]; [done|]. simpl.
    rewrite <- app_assoc. simpl. by rewrite <- Permutation_middle.
  - intros Hi Hg. rewrite (IH i Hi Hg). by rewrite <- Permutation_middle.
Qed.

Lemma appended_align_entity P refs p groups ent :
  grouped' P refs groups →
  concat (tail <$> (align_entity' refs (p, groups) ent).2)
  ⊆+ ent :: concat (tail <$> groups).
Proof.
  intros Hg. simpl. destruct (place' refs p ent) as [i|] eqn:Hp; simpl.
  - apply place_spec in Hp as (_ & (r & Hr & _) & _).
    destruct (grouped_lookup _ _ _ _ _ _ _ Hg Hr) as (app & Hi & _).
    by rewrite (appended_alter _ _ _ _ Hi).
  - by apply submseteq_cons.
Qed.

Lemma appended_align_transcript refs groups ents :
  grouped' (λ _, True) refs groups →
  concat (tail <$> align_transcript' refs groups ents)
  ⊆+ concat (tail <$> groups) ++ ents.
Proof.
  unfold align_transcript. generalize 0%nat. intros p Hg.
  revert p groups Hg. induction ents as [|ent ents IH]; intros p groups Hg.
  - by rewrite app_nil_r.
  - cbn [foldl].
    pose proof (grouped_align_entity _ _ (λ _, True) refs p groups ent Hg I) as Hg'.
    pose proof (appended_align_entity _ refs p groups ent Hg) as Hstep.
    destruct (align_entity' refs (p, groups) ent) as [p' groups'] eqn:Hst.
    simpl in Hg', Hstep. etrans; [by apply IH|].
    rewrite <- Permutation_middle, app_comm_cons. by apply submseteq_app.
Qed.

Lemma appended_foldl refs groups rest :
  grouped' (λ _, True) refs groups →
  concat (tail <$> foldl (align_transcript' refs) groups rest)
  ⊆+ concat (tail <$> groups) ++ concat rest.
Proof.
  revert groups. induction rest as [|ents rest IH]; intros groups Hg; simpl.
  - by rewrite app_nil_r.
  - etrans; [apply IH; by apply grouped_align_transcript; [|apply Forall_true]|].
    rewrite app_assoc. apply submseteq_app; [|done].
    by apply appended_align_transcript.
Qed.

Lemma appended_init (refs : list E) : concat (tail <$> ((λ e, [e]) <$> refs)) = [].
Proof. induction refs as [|r refs IH]; [done|]. simpl. apply IH. Qed.

(** X2.  Alignment neither duplicates nor invents entities: the entities
    appended to the groups (everything after each group's reference entity)
    are, counted with multiplicity, among the entities of the later
    transcripts; so the groups hold at most as many entities as the input. *)
Theorem align_entities_no_duplication (nbest : bool) (refs : list E) (rest : list (list E)) :
  ∃ groups,
    _align_entities span_of type_of nbest (refs :: rest) = Ok groups ∧
    concat (tail <$> groups) ⊆+ concat rest ∧
    (length refs ≤ length (concat groups) ≤ length (concat (refs :: rest)))%nat.
Proof.
  destruct (_align_entities_grouped span_of type_of nbest refs rest) as (groups & Hrun & Hg).
  exists groups. split; [done|].
  assert (concat (tail <$> groups) ⊆+ concat rest) as Hsub.
  { unfold _align_entities in Hrun.
    destruct ((1 <? Z.of_nat (length (refs :: rest))) && nbest); injection Hrun as <-.
    - etrans; [apply appended_foldl, grouped_init|]. by rewrite appended_init.
    - rewrite appended_init. apply submseteq_nil_l. }
  split; [done|].
  assert (length (concat groups) = (length refs + length (concat (tail <$> groups)))%nat)
    as Hlen.
  { clear Hrun Hsub. unfold grouped in Hg. induction Hg as [|r g refs groups (app & -> & _) _ IH];
      [done|]. rewrite fmap_cons. cbn [concat tail]. rewrite !length_app, IH. simpl. lia. }
  apply submseteq_length in Hsub. rewrite Hlen. simpl. rewrite length_app. lia.
Qed.

Lemma first_aligned_at j0 (l : list E) c n r :
  l !! n = Some r → aligns' c r = true →
  (∀ m x, (m < n)%nat → l !! m = Some x → aligns' c x = false) →
  first_aligned span_of type_of j0 l c = Some (j0 + n)%nat.
Proof.
  revert j0 n. induction l as [|x l IH]; intros j0 n; [done|].
  destruct n as [|n]; simpl.
  - intros [= ->] -> _. f_equal. lia.
  - intros Hn Hr Hbefore. rewrite (Hbefore 0%nat x) by (done || lia).
    rewrite (IH (S j0) n); [f_equal; lia|done|done|].
    intros m y ?. apply (Hbefore (S m)). lia.
Qed.

Lemma place_at refs p k c r :
  (p ≤ k)%nat → refs !! k = Some r → aligns' c r = true →
  (∀ j x, (p ≤ j < k)%nat → refs !! j = Some x → aligns' c x = false) →
  place' refs p c = Some k.
Proof.
  intros Hp Hk Hr Hbefore. unfold place.
  rewrite (first_aligned_at 0 _ c (k - p) r).
  - simpl. f_equal. lia.
  - rewrite lookup_drop. by replace (p + (k - p))%nat with k by lia.
  - done.
  - intros m x Hm. rewrite lookup_drop. apply Hbefore. lia.
Qed.

Lemma zip_with_app_alter (groups : list (list E)) n c (t : list (list E)) :
  zip_with app (alter (λ group, group ++ [c]) n groups) (replicate (S n) [] ++ t)
  = zip_with app groups (replicate n [] ++ [c] :: t).
Proof.
  revert groups. induction n as [|n IH]; intros [|g groups]; simpl; try done.
  - by rewrite app_nil_r.
  - f_equal. apply IH.
Qed.

Lemma zip_with_app_nil (groups : list (list E)) :
  zip_with app groups (replicate (length groups) []) = groups.
Proof. induction groups as [|g groups IH]; simpl; [done|]. by rewrite app_nil_r, IH. Qed.

Lemma zip_with_app_replicate (l : list E) k :
  zip_with app ((λ r, r :: replicate k r) <$> l) ((λ r, [r]) <$> l)
  = (λ r, r :: replicate (S k) r) <$> l.
Proof.
  induction l as [|r l IH]; [done|].
  rewrite !fmap_cons. cbn [zip_with]. rewrite IH. simpl. do 2 f_equal.
  symmetry. apply replicate_cons_app.
Qed.

Section Identical.
Variable refs : list E.
Hypothesis spans_not_reversed : ∀ r, r ∈ refs → start (span_of r) ≤ end_ (span_of r).
Hypothesis apart : ∀ i j ri rj, (i < j)%nat → refs !! i = Some ri → refs !! j = Some rj →
                                aligns' rj ri = false.

Lemma align_suffix pre l p groups :
  refs = pre ++ l → (p ≤ length pre)%nat → length groups = length refs →
  (foldl (align_entity' refs) (p, groups) l).2
  = zip_with app groups (replicate (length pre) [] ++ ((λ r, [r]) <$> l)).
Proof.
  revert pre p groups. induction l as [|c l IH]; intros pre p groups Hrefs Hp Hlen.
  - simpl. rewrite app_nil_r. rewrite Hrefs, app_nil_r in Hlen.
    by rewrite <- Hlen, zip_with_app_nil.
  - assert (refs !! length pre = Some c) as Hc.
    { rewrite Hrefs. by rewrite list_lookup_middle. }
    cbn [foldl]. unfold align_entity at 2.
    rewrite (place_at refs p (length pre) c c Hp Hc).
    + rewrite (IH (pre ++ [c]) (length pre)).
      * rewrite length_app. simpl. rewrite Nat.add_1_r. apply zip_with_app_alter.
      * by rewrite <- app_assoc.
      * rewrite length_app. lia.
      * by rewrite length_alter.
    + rewrite aligns_self. apply bool_decide_eq_true.
      apply spans_not_reversed. by eapply list_elem_of_lookup_2.
    + intros j x Hj Hx. apply (apart j (length pre)); [lia|done|done].
Qed.

Lemma align_transcript_self groups :
  length groups = length refs →
  align_transcript' refs groups refs = zip_with app groups ((λ r, [r]) <$> refs).
Proof. intros Hlen. unfold align_transcript. by rewrite (align_suffix [] refs). Qed.

Lemma foldl_align_transcript_self k n :
  foldl (align_transcript' refs) ((λ r, r :: replicate k r) <$> refs) (replicate n refs)
  = (λ r, r :: replicate (k + n) r) <$> refs.
Proof.
  revert k. induction n as [|n IH]; intros k; simpl.
  - by rewrite Nat.add_0_r.
  - rewrite align_transcript_self by (by rewrite length_fmap).
    rewrite zip_with_app_replicate, IH.
    by replace (S k + n)%nat with (k + S n)%nat by lia.
Qed.
End Identical.

(** X3.  Transcripts that repeat the reference are aligned entity for
    entity.  When no span of the reference transcript is reversed and no
    reference entity passes the alignment test with an earlier one, aligning
    the reference with [n] copies of itself puts [n] more occurrences of
    each entity in its own group. *)
Theorem align_identical_transcripts (refs : list E) (n : nat) :
  (∀ r, r ∈ refs → start (span_of r) ≤ end_ (span_of r)) →
  (∀ i j ri rj, (i < j)%nat → refs !! i = Some ri → refs !! j = Some rj →
                aligns' rj ri = false) →
  _align_entities span_of type_of true (refs :: replicate n refs)
  = Ok ((λ r, r :: replicate n r) <$> refs).
Proof.
  intros Hspans Hapart. unfold _align_entities. rewrite andb_true_r.
  destruct n as [|n]; [done|].
  replace (1 <? Z.of_nat (length (refs :: replicate (S n) refs))) with true
    by (symmetry; apply Z.ltb_lt; simpl; lia).
  f_equal. by apply (foldl_align_transcript_self refs Hspans Hapart 0).
Qed.
End AlignMore.

(** ** More on the tiers of [process_query] *)

Lemma get_child_inv {C} (children : list (Label * C)) key c w w' :
  get_child children key w = (Ok c, w') → child children key = Some c ∧ w' = w.
Proof.
  unfold get_child. destruct (child children key) as [c'|]; [|done].
  by intros [= <- <-].
Qed.

Lemma child_elem_of {C} (children : list (Label * C)) key c :
  child children key = Some c → (key, c) ∈ children.
Proof.
  induction children as [|[k c'] children IH]; simpl; [done|].
  destruct (String.eqb_spec k key) as [->|Hne].
  - intros [= ->]. apply elem_of_cons. by left.
  - intros Hc. apply elem_of_cons. right. by apply IH.
Qed.

(** What a successful [process_query] of the domain tier went through. *)
Lemma DomainProcessor_process_query_inv self pool query allowed dr verbose w pq w' :
  DomainProcessor.process_query self pool query allowed dr verbose w = (Ok pq, w') →
  DomainProcessor.ready self = true ∧
  ∃ top intent intent_proba w1 processor pq0,
    top_query query w = (Ok top, w) ∧
    DomainProcessor.select_intent self top allowed dr verbose w
      = (Ok (intent, intent_proba), w1) ∧
    child (DomainProcessor.intents self) intent = Some processor ∧
    IntentProcessor.process_query processor pool query dr verbose w1 = (Ok pq0, w') ∧
    pq = with_intents_scores intent_proba (with_intent intent pq0).
Proof.
  unfold DomainProcessor.process_query. intros Hrun.
  apply bind_inv_ok in Hrun as ([] & w0 & Hready & Hrun).
  unfold _check_ready in Hready. simpl in Hready.
  destruct (DomainProcessor.ready self) eqn:Hr; [|done]. injection Hready as <-.
  split; [done|].
  apply bind_inv_ok in Hrun as (top & w0 & Htop & Hrun).
  assert (w0 = w) as ->.
  { destruct query as [q|[|q qs]]; simpl in Htop; by injection Htop. }
  apply bind_inv_ok in Hrun as ([intent intent_proba] & w1 & Hselect & Hrun).
  apply bind_inv_ok in Hrun as (processor & w2 & Hchild & Hrun).
  apply get_child_inv in Hchild as [Hchild ->].
  apply bind_inv_ok in Hrun as (pq0 & w3 & Hintent & Hrun).
  injection Hrun as <- <-.
  by exists top, intent, intent_proba, w1, processor, pq0.
Qed.

(** What a successful [process_query] of the root went through. *)
Lemma NaturalLanguageProcessor_process_query_inv self pool query allowed dr verbose w pq w' :
  NaturalLanguageProcessor.process_query self pool query allowed dr verbose w = (Ok pq, w') →
  NaturalLanguageProcessor.ready self = true ∧
  ∃ top domain domain_proba w1 processor pq0,
    top_query query w = (Ok top, w) ∧
    NaturalLanguageProcessor._process_domain self top allowed dr verbose w
      = (Ok (domain, domain_proba), w1) ∧
    child (NaturalLanguageProcessor.domains self) domain = Some processor ∧
    DomainProcessor.process_query processor pool query
      (match restriction allowed with
       | Some allowed => allowed !! domain
       | None => None
       end) dr verbose w1 = (Ok pq0, w') ∧
    pq = with_domains_scores domain_proba (with_domain domain pq0).
Proof.
  unfold NaturalLanguageProcessor.process_query. intros Hrun.
  apply bind_inv_ok in Hrun as ([] & w0 & Hready & Hrun).
  unfold _check_ready in Hready. simpl in Hready.
  destruct (NaturalLanguageProcessor.ready self) eqn:Hr; [|done]. injection Hready as <-.
  split; [done|].
  apply bind_inv_ok in Hrun as (top & w0 & Htop & Hrun).
  assert (w0 = w) as ->.
  { destruct query as [q|[|q qs]]; simpl in Htop; by injection Htop. }
  apply bind_inv_ok in Hrun as ([domain domain_proba] & w1 & Hselect & Hrun).
  apply bind_inv_ok in Hrun as (processor & w2 & Hchild & Hrun).
  apply get_child_inv in Hchild as [Hchild ->].
  apply bind_inv_ok in Hrun as (pq0 & w3 & Hdomain & Hrun).
  injection Hrun as <- <-.
  by exists top, domain, domain_proba, w1, processor, pq0.
Qed.

Lemma domain_with_domains_scores proba pq :
  domain (with_domains_scores proba pq) = domain pq ∧
  intent (with_domains_scores proba pq) = intent pq.
Proof. by destruct proba as [[|]|]. Qed.

Lemma domain_with_intents_scores proba pq :
  domain (with_intents_scores proba pq) = domain pq ∧
  intent (with_intents_scores proba pq) = intent pq.
Proof. by destruct proba as [[|]|]. Qed.

(** X4.  Whatever the classifiers answer and whatever the restriction, a
    result of [process_query] of the root names a domain of the tree and an
    intent of that domain: the labels it carries are keys of the children
    maps. *)
Theorem process_query_names_children self pool query allowed dr verbose w pq w' :
  NaturalLanguageProcessor.process_query self pool query allowed dr verbose w = (Ok pq, w') →
  ∃ d i processor,
    domain pq = Some d ∧ intent pq = Some i ∧
    child (NaturalLanguageProcessor.domains self) d = Some processor ∧
    is_Some (child (DomainProcessor.intents processor) i).
Proof.
  intros Hrun.
  apply NaturalLanguageProcessor_process_query_inv in Hrun
    as (_ & top & d & dp & w1 & processor & pq0 & _ & _ & Hd & Hrun & ->).
  apply DomainProcessor_process_query_inv in Hrun
    as (_ & top' & i & ip & w2 & iprocessor & pq1 & _ & _ & Hi & _ & ->).
  exists d, i, processor.
  destruct (domain_with_domains_scores dp
              (with_domain d (with_intents_scores ip (with_intent i pq1)))) as [-> ->].
  simpl. destruct (domain_with_intents_scores ip (with_intent i pq1)) as [_ ->].
  by rewrite Hi.
Qed.

Lemma top_query_cases query :
  query = n_best [] ∨ ∃ top, ∀ w, top_query query w = (Ok top, w).
Proof. destruct query as [q|[|q qs]]; [right; by exists q|by left|right; by exists q]. Qed.

Lemma top_query_ok query :
  query ≠ n_best [] → ∃ top, ∀ w, top_query query w = (Ok top, w).
Proof. destruct query as [q|[|q qs]]; [by exists q|done|by exists q]. Qed.

(** X5.  In a tier with more than one child, a restriction to exactly one
    label is taken at its word: when that label is not a child of the tier,
    [process_query] raises [KeyError] from the lookup of the child, without
    consulting the classifier, and not [AllowedNlpClassesKeyError]. *)
Theorem single_unknown_restriction_raises_KeyError :
  (∀ self pool query (allowed : gmap Label (gset Label)) dr verbose w l,
     NaturalLanguageProcessor.ready self = true → query ≠ n_best [] →
     (1 < length (NaturalLanguageProcessor.domains self))%nat →
     dom allowed = {[ l ]} →
     child (NaturalLanguageProcessor.domains self) l = None →
     NaturalLanguageProcessor.process_query self pool query (Some allowed) dr verbose w
     = (Raise (KeyError l), w)) ∧
  (∀ self pool query dr verbose w l,
     DomainProcessor.ready self = true → query ≠ n_best [] →
     (1 < length (DomainProcessor.intents self))%nat →
     child (DomainProcessor.intents self) l = None →
     DomainProcessor.process_query self pool query (Some {[ l ]}) dr verbose w
     = (Raise (KeyError l), w)).
Proof.
  split.
  - intros self pool query allowed dr verbose w l Hready Hquery Hchildren Hdom Hchild.
    destruct (top_query_ok query Hquery) as [top Htop].
    unfold NaturalLanguageProcessor.process_query.
    rewrite (bind_ok _ _ _ _ _ (_check_ready_ready (ops := NaturalLanguageProcessor.processor)
                                  self w Hready)).
    rewrite (bind_ok _ _ _ _ _ (Htop w)).
    assert (NaturalLanguageProcessor._process_domain self top (Some allowed) dr verbose w
            = (Ok (l, certain l verbose), w)) as Hselect.
    { unfold NaturalLanguageProcessor._process_domain, restriction.
      assert (size allowed = 1%nat) as Hsize
        by (by rewrite <- size_dom, Hdom, size_singleton).
      rewrite bool_decide_true by done. rewrite bool_decide_false by lia.
      cbv beta iota. rewrite bool_decide_true by done. rewrite Hdom.
      unfold mbind, M_bind. by rewrite first_key_singleton. }
    rewrite (bind_ok _ _ _ _ _ Hselect). cbv beta iota.
    unfold get_child. rewrite Hchild. done.
  - intros self pool query dr verbose w l Hready Hquery Hchildren Hchild.
    destruct (top_query_ok query Hquery) as [top Htop].
    unfold DomainProcessor.process_query.
    rewrite (bind_ok _ _ _ _ _ (_check_ready_ready (ops := DomainProcessor.processor)
                                  self w Hready)).
    rewrite (bind_ok _ _ _ _ _ (Htop w)).
    assert (DomainProcessor.select_intent self top (Some {[ l ]}) dr verbose w
            = (Ok (l, certain l verbose), w)) as Hselect.
    { unfold DomainProcessor.select_intent, restriction.
      rewrite bool_decide_true by done. rewrite size_singleton.
      rewrite bool_decide_false by lia. cbv beta iota.
      rewrite size_singleton, bool_decide_true by done.
      unfold mbind, M_bind. by rewrite first_key_singleton. }
    rewrite (bind_ok _ _ _ _ _ Hselect). cbv beta iota.
    unfold get_child. rewrite Hchild. done.
Qed.

(** X6.  The empty cases of [process_query] on a ready processor: a tier
    without children, and an empty list of transcripts, raise [IndexError]
    from the subscript [[0]] before any classifier is consulted. *)
Theorem process_query_empty_raises_IndexError :
  (∀ self pool query allowed dr verbose w,
     NaturalLanguageProcessor.ready self = true →
     NaturalLanguageProcessor.domains self = [] ∨ query = n_best [] →
     NaturalLanguageProcessor.process_query self pool query allowed dr verbose w
     = (Raise IndexError, w)) ∧
  (∀ self pool query allowed dr verbose w,
     DomainProcessor.ready self = true →
     DomainProcessor.intents self = [] ∨ query = n_best [] →
     DomainProcessor.process_query self pool query allowed dr verbose w
     = (Raise IndexError, w)) ∧
  (∀ self pool dr verbose w,
     IntentProcessor.ready self = true →
     IntentProcessor.nbest_transcripts_enabled self = false →
     IntentProcessor.process_query self pool (n_best []) dr verbose w
     = (Raise IndexError, w)).
Proof.
  split; [|split].
  - intros self pool query allowed dr verbose w Hready Hempty.
    unfold NaturalLanguageProcessor.process_query.
    rewrite (bind_ok _ _ _ _ _ (_check_ready_ready (ops := NaturalLanguageProcessor.processor)
                                  self w Hready)).
    destruct (top_query_cases query) as [->|[top Htop]]; [done|].
    destruct Hempty as [Hempty| ->]; [|done].
    rewrite (bind_ok _ _ _ _ _ (Htop w)).
    unfold NaturalLanguageProcessor._process_domain. by rewrite Hempty.
  - intros self pool query allowed dr verbose w Hready Hempty.
    unfold DomainProcessor.process_query.
    rewrite (bind_ok _ _ _ _ _ (_check_ready_ready (ops := DomainProcessor.processor)
                                  self w Hready)).
    destruct (top_query_cases query) as [->|[top Htop]]; [done|].
    destruct Hempty as [Hempty| ->]; [|done].
    rewrite (bind_ok _ _ _ _ _ (Htop w)).
    unfold DomainProcessor.select_intent. by rewrite Hempty.
  - intros self pool dr verbose w Hready Hdisabled.
    unfold IntentProcessor.process_query.
    rewrite (bind_ok _ _ _ _ _ (_check_ready_ready (ops := IntentProcessor.processor)
                                  self w Hready)).
    unfold IntentProcessor._get_pred_entities, IntentProcessor._recognize_entities.
    rewrite Hdisabled. by destruct verbose.
Qed.

(** What a successful [process_query] of the intent tier went through. *)
Lemma IntentProcessor_process_query_inv self pool query dr verbose w pq w' :
  IntentProcessor.process_query self pool query dr verbose w = (Ok pq, w') →
  IntentProcessor.ready self = true ∧
  ∃ entity_confidence found w1 aligned_entities processed_entities role_confidence q,
    IntentProcessor._get_pred_entities self pool (transcripts query) dr verbose w
      = (Ok (entity_confidence, found), w1) ∧
    IntentProcessor._align_entities_of self found w1 = (Ok aligned_entities, w1) ∧
    IntentProcessor._process_entities self pool (transcripts query) (lists_of found)
      aligned_entities verbose w1 = (Ok (processed_entities, role_confidence), w') ∧
    transcripts query !! 0%nat = Some q ∧
    pq = (let confidence :=
            if verbose
            then mkConfidence None None (Some entity_confidence) (Some role_confidence)
            else mkConfidence None None None None in
          if match query with
             | n_best _ => IntentProcessor.nbest_transcripts_enabled self
             | a_query _ => false
             end
          then mkProcessedQuery q processed_entities confidence (Some (transcripts query))
                 (Some (lists_of found)) (Some aligned_entities) None None
          else mkProcessedQuery q processed_entities confidence None None None None None).
Proof.
  unfold IntentProcessor.process_query. intros Hrun.
  apply bind_inv_ok in Hrun as ([] & w0 & Hready & Hrun).
  unfold _check_ready in Hready. simpl in Hready.
  destruct (IntentProcessor.ready self) eqn:Hr; [|done]. injection Hready as <-.
  split; [done|].
  apply bind_inv_ok in Hrun as ([entity_confidence found] & w1 & Hpred & Hrun).
  apply bind_inv_ok in Hrun as (aligned & w2 & Halign & Hrun).
  assert (w2 = w1) as ->.
  { unfold IntentProcessor._align_entities_of in Halign.
    destruct found; [by injection Halign|].
    repeat (match type of Halign with context [if ?b then _ else _] => destruct b end);
      by injection Halign. }
  apply bind_inv_ok in Hrun as ([processed roles] & w3 & Hprocess & Hrun).
  apply bind_inv_ok in Hrun as (q & w4 & Hq & Hrun).
  unfold subscript in Hq. destruct (transcripts query !! 0%nat) as [q'|] eqn:Hq'; [|done].
  injection Hq as -> <-.
  exists entity_confidence, found, w1, aligned, processed, roles, q.
  destruct (match query with
            | n_best _ => IntentProcessor.nbest_transcripts_enabled self
            | a_query _ => false
            end); by injection Hrun as <- <-.
Qed.

Lemma _process_domain_not_verbose self query allowed dr w d proba w' :
  NaturalLanguageProcessor._process_domain self query allowed dr false w
    = (Ok (d, proba), w') → proba = None.
Proof.
  unfold NaturalLanguageProcessor._process_domain, certain.
  repeat (case_bool_decide || case_match); intros Hrun;
    repeat (apply bind_inv_ok in Hrun as (? & ? & ? & Hrun)); try done;
    by injection Hrun.
Qed.

Lemma select_intent_not_verbose self top allowed dr w i proba w' :
  DomainProcessor.select_intent self top allowed dr false w
    = (Ok (i, proba), w') → proba = None.
Proof.
  unfold DomainProcessor.select_intent, certain.
  repeat (case_bool_decide || case_match); intros Hrun;
    repeat (apply bind_inv_ok in Hrun as (? & ? & ? & Hrun)); try done;
    by injection Hrun.
Qed.

(** X7.  Without [verbose] no tier reports a score: the confidence of a
    result of [process_query] of the root holds no domain, intent, entity or
    role scores. *)
Theorem process_query_not_verbose_no_scores self pool query allowed dr w pq w' :
  NaturalLanguageProcessor.process_query self pool query allowed dr false w = (Ok pq, w') →
  confidence pq = mkConfidence None None None None.
Proof.
  intros Hrun.
  apply NaturalLanguageProcessor_process_query_inv in Hrun
    as (_ & top & d & dp & w1 & processor & pq0 & _ & Hd & _ & Hrun & ->).
  apply _process_domain_not_verbose in Hd as ->.
  apply DomainProcessor_process_query_inv in Hrun
    as (_ & top' & i & ip & w2 & iprocessor & pq1 & _ & Hi & _ & Hrun & ->).
  apply select_intent_not_verbose in Hi as ->.
  apply IntentProcessor_process_query_inv in Hrun
    as (_ & ec & found & w3 & aligned & processed & roles & q & _ & _ & _ & _ & ->).
  simpl. by destruct (match query with
                      | n_best _ => IntentProcessor.nbest_transcripts_enabled iprocessor
                      | a_query _ => false
                      end).
Qed.

Lemma mapM_ok_length {A B} (f : A → M B) (l : list A) w r w' :
  mapM f l w = (Ok r, w') → length r = length l.
Proof.
  revert w r w'. induction l as [|x l IH]; intros w r w'; simpl.
  - by intros [= <- _].
  - intros Hrun.
    apply bind_inv_ok in Hrun as (y & w1 & _ & Hrun).
    apply bind_inv_ok in Hrun as (k & w2 & Hk & Hrun).
    injection Hrun as <- _. simpl. f_equal. by eapply IH.
Qed.

Lemma collect_all_length {Item V Res} (unpickle : V → M Res) (run : pool_run V) idx_map
    (results : list (Item + Res)) futures w results' w' :
  collect_all unpickle run idx_map results futures w = (Ok results', w') →
  length results' = length results.
Proof.
  revert results w. induction futures as [|f futures IH]; intros results w; simpl.
  - by intros [= <- _].
  - intros Hrun. apply bind_inv_ok in Hrun as (results1 & w1 & Hcollect & Hrun).
    rewrite (IH _ _ Hrun). unfold collect in Hcollect.
    destruct (state_of run f); try done.
    apply bind_inv_ok in Hcollect as (item & w2 & _ & Hcollect).
    destruct (idx_map !! f); [|done]. case_bool_decide; [|done].
    injection Hcollect as <- _. apply length_insert.
Qed.

(** The dispatcher returns one slot per item, on every path. *)
Lemma _process_list_length {Item V Res} (unpickle : V → M Res) (func : Item → M Res)
    (run : pool_run V) items w slots w' :
  _process_list unpickle func run items w = (Ok slots, w') →
  length slots = length items.
Proof.
  assert (∀ w slots w', in_series func items w = (Ok slots, w') →
                        length slots = length items) as Hseries.
  { intros w0 slots0 w0' Hrun. unfold in_series in Hrun.
    apply bind_inv_ok in Hrun as (results & w1 & Hmap & Hrun).
    injection Hrun as <- _. rewrite length_fmap. by eapply mapM_ok_length. }
  unfold _process_list. intros Hrun.
  apply bind_inv_ok in Hrun as (pool & w0 & Hpool & Hrun). injection Hpool as <- <-.
  destruct (executor w); [|by eapply Hseries].
  apply bind_inv_ok in Hrun as (attempt & w1 & Hattempt & Hrun).
  destruct attempt as [results|].
  - injection Hrun as <- _. unfold try_except in Hattempt.
    destruct (dispatch unpickle run items w) as [[r|e] w2] eqn:Hdispatch; [|done].
    injection Hattempt as <- _. unfold dispatch in Hdispatch.
    case_bool_decide; [|done].
    apply collect_all_length in Hdispatch. by rewrite Hdispatch, length_fmap.
  - apply bind_inv_ok in Hrun as (? & w2 & _ & Hrun). by eapply Hseries.
Qed.

Lemma results_of_length {Item Res} (slots : list (Item + Res)) w results w' :
  results_of slots w = (Ok results, w') → length results = length slots.
Proof. apply mapM_ok_length. Qed.

Lemma certain_verbose (l : Label) : ∃ scores, certain l true = Some scores ∧ l ∈ scores.*1.
Proof. eexists. split; [done|]. simpl. apply elem_of_cons. by left. Qed.

Lemma subscript_inv {A} (l : list A) i x w w' :
  subscript l i w = (Ok x, w') → l !! i = Some x ∧ w' = w.
Proof. unfold subscript. destruct (l !! i); [|done]. by intros [= <- <-]. Qed.

Lemma _process_domain_verbose self query allowed dr w d proba w' :
  NaturalLanguageProcessor._process_domain self query allowed dr true w
    = (Ok (d, proba), w') → ∃ scores, proba = Some scores ∧ d ∈ scores.*1.
Proof.
  unfold NaturalLanguageProcessor._process_domain, first_key.
  case_bool_decide.
  - destruct (restriction allowed) as [a|].
    + case_bool_decide.
      * intros Hrun. apply bind_inv_ok in Hrun as (d0 & w1 & _ & Hrun).
        injection Hrun as <- <- _. apply certain_verbose.
      * intros Hrun. apply bind_inv_ok in Hrun as (? & w1 & _ & Hrun).
        destruct (first_allowed _ _) as [l|] eqn:Hfirst; [|done].
        injection Hrun as <- <- _. eexists. split; [done|].
        by eapply first_allowed_nonempty.
    + intros Hrun. apply bind_inv_ok in Hrun as (? & w1 & _ & Hrun).
      apply bind_inv_ok in Hrun as (top & w2 & Htop & Hrun).
      apply subscript_inv in Htop as [Htop _].
      injection Hrun as <- <- _. eexists. split; [done|].
      apply list_elem_of_fmap. exists top. split; [done|]. by eapply list_elem_of_lookup_2.
  - intros Hrun. apply bind_inv_ok in Hrun as (d0 & w1 & _ & Hrun).
    injection Hrun as <- <- _. apply certain_verbose.
Qed.

Lemma select_intent_verbose self top allowed dr w i proba w' :
  DomainProcessor.select_intent self top allowed dr true w
    = (Ok (i, proba), w') → ∃ scores, proba = Some scores ∧ i ∈ scores.*1.
Proof.
  unfold DomainProcessor.select_intent, first_key.
  case_bool_decide.
  - destruct (restriction allowed) as [a|].
    + case_bool_decide.
      * intros Hrun. apply bind_inv_ok in Hrun as (d0 & w1 & _ & Hrun).
        injection Hrun as <- <- _. apply certain_verbose.
      * intros Hrun. apply bind_inv_ok in Hrun as (? & w1 & _ & Hrun).
        destruct (first_allowed _ _) as [l|] eqn:Hfirst; [|done].
        destruct (String.eqb l ""); [done|].
        injection Hrun as <- <- _. eexists. split; [done|].
        by eapply first_allowed_nonempty.
    + intros Hrun. apply bind_inv_ok in Hrun as (? & w1 & _ & Hrun).
      apply bind_inv_ok in Hrun as (top0 & w2 & Htop & Hrun).
      apply subscript_inv in Htop as [Htop _].
      injection Hrun as <- <- _. eexists. split; [done|].
      apply list_elem_of_fmap. exists top0. split; [done|]. by eapply list_elem_of_lookup_2.
  - intros Hrun. apply bind_inv_ok in Hrun as (d0 & w1 & _ & Hrun).
    injection Hrun as <- <- _. apply certain_verbose.
Qed.

Lemma _get_pred_entities_verbose_length self pool query dr w entity_confidence found w1 :
  IntentProcessor._get_pred_entities self pool query dr true w
    = (Ok (entity_confidence, found), w1) →
  ∃ reference, lists_of found !! 0%nat = Some reference ∧
               length entity_confidence = length reference.
Proof.
  unfold IntentProcessor._get_pred_entities. intros Hrun.
  apply bind_inv_ok in Hrun as (all & w2 & _ & Hrun).
  apply bind_inv_ok in Hrun as (pred_entities & w3 & _ & Hrun).
  destruct (0 <? Z.of_nat (length pred_entities)).
  - apply bind_inv_ok in Hrun as (ec & w4 & Hec & Hrun).
    injection Hrun as <- <- _. eexists. split; [done|].
    rewrite length_fmap. by eapply mapM_ok_length.
  - injection Hrun as <- <- _. by eexists.
Qed.

Lemma _process_entities_length self pool query found aligned verbose w processed roles w' :
  IntentProcessor._process_entities self pool query found aligned verbose w
    = (Ok (processed, roles), w') →
  ∃ reference, found !! 0%nat = Some reference ∧ length roles = length reference.
Proof.
  unfold IntentProcessor._process_entities. intros Hrun.
  apply bind_inv_ok in Hrun as (q & w1 & _ & Hrun).
  apply bind_inv_ok in Hrun as (reference & w2 & Href & Hrun).
  apply subscript_inv in Href as [Href _].
  apply bind_inv_ok in Hrun as (copies & w3 & Hcopies & Hrun).
  apply bind_inv_ok in Hrun as (slots & w4 & Hslots & Hrun).
  apply bind_inv_ok in Hrun as (conf & w5 & Hconf & Hrun).
  apply bind_inv_ok in Hrun as (parsed & w6 & _ & Hrun).
  injection Hrun as _ <- _. exists reference. split; [done|].
  rewrite length_fmap, (results_of_length _ _ _ _ Hconf).
  rewrite (_process_list_length _ _ _ _ _ _ _ Hslots), length_seq.
  by eapply mapM_ok_length.
Qed.

(** X8.  With [verbose], every tier reports: the confidence of a result of
    [process_query] of the root holds domain scores that include the domain
    it names, intent scores that include the intent it names, and as many
    entity scores as role scores. *)
Theorem process_query_verbose_scores self pool query allowed dr w pq w' :
  NaturalLanguageProcessor.process_query self pool query allowed dr true w = (Ok pq, w') →
  ∃ d i domains intents entities roles,
    domain pq = Some d ∧ intent pq = Some i ∧
    confidence pq = mkConfidence (Some domains) (Some intents) (Some entities) (Some roles) ∧
    d ∈ domains.*1 ∧ i ∈ intents.*1 ∧ length entities = length roles.
Proof.
  intros Hrun.
  apply NaturalLanguageProcessor_process_query_inv in Hrun
    as (_ & top & d & dp & w1 & processor & pq0 & _ & Hd & _ & Hrun & ->).
  apply _process_domain_verbose in Hd as (ds & -> & Hds).
  apply DomainProcessor_process_query_inv in Hrun
    as (_ & top' & i & ip & w2 & iprocessor & pq1 & _ & Hi & _ & Hrun & ->).
  apply select_intent_verbose in Hi as (iscores & -> & His).
  apply IntentProcessor_process_query_inv in Hrun
    as (_ & ec & found & w3 & aligned & processed & roles & q & Hpred & _ & Hprocess & _ & ->).
  apply _get_pred_entities_verbose_length in Hpred as (reference & Href & Hec).
  apply _process_entities_length in Hprocess as (reference' & Href' & Hroles).
  rewrite Href in Href'. injection Href' as <-.
  exists d, i, ds, iscores, ec, roles.
  destruct ds as [|s ds]; [by apply elem_of_nil in Hds|].
  destruct iscores as [|s' iscores]; [by apply elem_of_nil in His|].
  destruct (match query with
            | n_best _ => IntentProcessor.nbest_transcripts_enabled iprocessor
            | a_query _ => false
            end); simpl; (do 5 (split; [done|])); lia.
Qed.

Lemma IntentProcessor_process_query_first self pool q rest dr verbose w :
  IntentProcessor.nbest_transcripts_enabled self = false →
  IntentProcessor.process_query self pool (n_best (q :: rest)) dr verbose w
  = IntentProcessor.process_query self pool (a_query q) dr verbose w.
Proof.
  intros Hdisabled.
  unfold IntentProcessor.process_query, IntentProcessor._get_pred_entities,
    IntentProcessor._recognize_entities, IntentProcessor._process_entities.
  rewrite Hdisabled. by destruct verbose.
Qed.

Lemma DomainProcessor_process_query_first self pool q rest allowed dr verbose w :
  (∀ i processor, (i, processor) ∈ DomainProcessor.intents self →
                  IntentProcessor.nbest_transcripts_enabled processor = false) →
  DomainProcessor.process_query self pool (n_best (q :: rest)) allowed dr verbose w
  = DomainProcessor.process_query self pool (a_query q) allowed dr verbose w.
Proof.
  intros Hdisabled. unfold DomainProcessor.process_query, mbind, M_bind.
  destruct (_check_ready self w) as [[[]|e] w0]; [|done]. simpl.
  destruct (DomainProcessor.select_intent self q allowed dr verbose w0)
    as [[[intent intent_proba]|e] w1]; [|done].
  unfold get_child.
  destruct (child (DomainProcessor.intents self) intent) as [processor|] eqn:Hchild; [|done].
  simpl. rewrite IntentProcessor_process_query_first; [done|].
  eapply Hdisabled. by apply child_elem_of.
Qed.

(** X9.  Where no intent has n-best processing enabled (the default), only
    the first transcript of a list counts: [process_query] of the root on a
    non-empty list of transcripts does what it does on the first transcript
    alone, result and effects. *)
Theorem process_query_first_transcript_only self pool q rest allowed dr verbose w :
  (∀ d dprocessor i iprocessor,
     (d, dprocessor) ∈ NaturalLanguageProcessor.domains self →
     (i, iprocessor) ∈ DomainProcessor.intents dprocessor →
     IntentProcessor.nbest_transcripts_enabled iprocessor = false) →
  NaturalLanguageProcessor.process_query self pool (n_best (q :: rest)) allowed dr verbose w
  = NaturalLanguageProcessor.process_query self pool (a_query q) allowed dr verbose w.
Proof.
  intros Hdisabled. unfold NaturalLanguageProcessor.process_query, mbind, M_bind.
  destruct (_check_ready self w) as [[[]|e] w0]; [|done]. simpl.
  destruct (NaturalLanguageProcessor._process_domain self q allowed dr verbose w0)
    as [[[domain domain_proba]|e] w1]; [|done].
  unfold get_child.
  destruct (child (NaturalLanguageProcessor.domains self) domain) as [processor|] eqn:Hchild;
    [|done].
  simpl. rewrite DomainProcessor_process_query_first; [done|].
  intros i iprocessor. eapply Hdisabled. by apply child_elem_of.
Qed.

Lemma _get_pred_entities_verbose_shape self pool query dr w entity_confidence found w1 :
  IntentProcessor._get_pred_entities self pool query dr true w
    = (Ok (entity_confidence, found), w1) →
  (∃ ents, found = entity_lists [ents]) ∨ (∃ rest, found = empty_then_scored rest).
Proof.
  unfold IntentProcessor._get_pred_entities. intros Hrun.
  apply bind_inv_ok in Hrun as (all & w2 & _ & Hrun).
  apply bind_inv_ok in Hrun as (pred_entities & w3 & _ & Hrun).
  destruct (0 <? Z.of_nat (length pred_entities)).
  - apply bind_inv_ok in Hrun as (ec & w4 & Hec & Hrun).
    injection Hrun as _ <- _. left. by eexists.
  - injection Hrun as _ <- _. right. by eexists.
Qed.

(** X10.  With [verbose], the entities of the later transcripts never reach
    the result of the intent tier: every aligned group that [process_query]
    returns holds its reference entity alone, and the per-transcript entity
    lists it returns are empty after the first. *)
Theorem verbose_drops_later_transcripts self pool query dr w pq w' :
  IntentProcessor.process_query self pool query dr true w = (Ok pq, w') →
  (∀ aligned, nbest_aligned_entities pq = Some aligned →
              Forall (λ group, ∃ e, group = [e]) aligned) ∧
  (∀ all, nbest_transcripts_entities pq = Some all →
          Forall (λ entities_n, entities_n = []) (tail all)).
Proof.
  intros Hrun.
  apply IntentProcessor_process_query_inv in Hrun
    as (_ & ec & found & w1 & aligned & processed & roles & q & Hpred & Halign & _ & _ & ->).
  apply _get_pred_entities_verbose_shape in Hpred as [[ents ->]|[rest ->]];
    unfold IntentProcessor._align_entities_of in Halign; simpl in Halign.
  - injection Halign as <-.
    destruct (match query with
              | n_best _ => IntentProcessor.nbest_transcripts_enabled self
              | a_query _ => false
              end); simpl; (split; [|by intros ? [= <-]]); [|done].
    intros ? [= <-]. apply Forall_fmap, Forall_true. intros e. by exists e.
  - destruct query as [q0|qs]; simpl; [done|].
    destruct (IntentProcessor.nbest_transcripts_enabled self); simpl; [|done].
    rewrite andb_true_r in Halign.
    destruct (1 <? Z.of_nat (S (length rest))) eqn:Hlen.
    + destruct (forallb _ rest) eqn:Hall; [|done]. injection Halign as <-.
      split; intros ? [= <-]; [done|]. simpl.
      apply Forall_fmap. apply Is_true_true, forallb_True in Hall.
      eapply Forall_impl; [exact Hall|]. simpl.
      intros entities_n Hempty%bool_decide_unpack. by rewrite Hempty.
    + injection Halign as <-. split; intros ? [= <-]; [done|]. simpl.
      destruct rest; [done|]. apply Z.ltb_ge in Hlen. simpl in Hlen. lia.
Qed.

(** X11.  With [verbose] and n-best processing enabled, when the first
    transcript has no entity and a later one has, [process_query] raises
    [AttributeError]: alignment reads the span of a pair of an entity and its
    score. *)
Theorem verbose_empty_reference_raises_AttributeError self pool qs dr w
    (rest : list (list (nat * Score))) w1 :
  IntentProcessor.ready self = true →
  IntentProcessor.nbest_transcripts_enabled self = true →
  IntentProcessor._recognize_entities self pool qs dr true w = (Ok ([] :: rest), w1) →
  (∃ entities_n, entities_n ∈ rest ∧ entities_n ≠ []) →
  IntentProcessor.process_query self pool (n_best qs) dr true w = (Raise AttributeError, w1).
Proof.
  intros Hready Henabled Hrecognize (entities_n & Hin & Hnonempty).
  unfold IntentProcessor.process_query.
  rewrite (bind_ok _ _ _ _ _ (_check_ready_ready (ops := IntentProcessor.processor)
                                self w Hready)).
  assert (IntentProcessor._get_pred_entities self pool qs dr true w
          = (Ok ([], empty_then_scored rest), w1)) as Hpred.
  { unfold IntentProcessor._get_pred_entities.
    by rewrite (bind_ok _ _ _ _ _ Hrecognize). }
  simpl transcripts. rewrite (bind_ok _ _ _ _ _ Hpred). cbv beta iota.
  apply bind_raise. unfold IntentProcessor._align_entities_of. rewrite Henabled.
  simpl. destruct (1 <? Z.of_nat (S (length rest))) eqn:Hlen; simpl.
  2:{ apply Z.ltb_ge in Hlen. destruct rest; [by apply elem_of_nil in Hin|].
      simpl in Hlen. lia. }
  match goal with |- context [forallb ?f ?l] => destruct (forallb f l) eqn:Hall end; [|done].
  apply Is_true_true, forallb_True in Hall.
  rewrite Forall_forall in Hall. apply Hall in Hin.
  by apply bool_decide_unpack in Hin.
Qed.

(** ** The lifecycle of the whole tree *)

Lemma for_children_inv {C} (body : C → M C) (children children' : list (Label * C)) w w' :
  for_children body children w = (Ok children', w') →
  Forall2 (λ kc kc', kc'.1 = kc.1 ∧ ∃ w1 w2, body kc.2 w1 = (Ok kc'.2, w2))
          children children'.
Proof.
  unfold for_children. revert children' w w'.
  induction children as [|[k c] children IH]; intros children' w w'; simpl.
  - intros [= <- _]. constructor.
  - intros Hrun.
    apply bind_inv_ok in Hrun as ([k' c'] & w1 & Hbody & Hrun).
    apply bind_inv_ok in Hrun as (rest & w2 & Hrest & Hrun).
    injection Hrun as <- _.
    apply bind_inv_ok in Hbody as (c0 & w3 & Hbody & Hret). injection Hret as <- <- _.
    constructor; [|by eapply IH]. simpl. eauto.
Qed.

Lemma for_children_keys {C} (body : C → M C) (children children' : list (Label * C)) w w' :
  for_children body children w = (Ok children', w') → children'.*1 = children.*1.
Proof.
  intros Hrun%for_children_inv.
  induction Hrun as [|[k c] [k' c'] children children' (Hk & _) _ IH]; [done|].
  rewrite !fmap_cons. simpl in Hk. by rewrite Hk, IH.
Qed.

(** *** The entity tier *)

Lemma EntityProcessor_build_inv incremental label_set self w self' w' :
  build incremental label_set self w = (Ok self', w') →
  self' = EntityProcessor.set_dirty true (EntityProcessor.set_ready true self).
Proof.
  unfold build. intros Hrun.
  apply bind_inv_ok in Hrun as (self1 & w1 & Hbuild & Hrun).
  assert (self1 = self) as ->.
  { simpl in Hbuild. unfold EntityProcessor._build in Hbuild.
    apply bind_inv_ok in Hbuild as (? & ? & _ & Hbuild).
    apply bind_inv_ok in Hbuild as (? & ? & _ & Hbuild). by injection Hbuild. }
  apply bind_inv_ok in Hrun as (? & w2 & _ & Hrun).
  apply bind_inv_ok in Hrun as (self2 & w3 & Hchildren & Hrun).
  simpl in Hchildren. injection Hchildren as <- <-.
  apply bind_inv_ok in Hrun as (? & w4 & _ & Hrun). by injection Hrun.
Qed.

Lemma EntityProcessor_dump_inv self w self' w' :
  dump self w = (Ok self', w') → self' = EntityProcessor.set_dirty false self.
Proof.
  unfold dump. intros Hrun.
  apply bind_inv_ok in Hrun as (? & w1 & _ & Hrun).
  apply bind_inv_ok in Hrun as (self1 & w2 & Hchildren & Hrun).
  simpl in Hchildren. injection Hchildren as <- <-.
  apply bind_inv_ok in Hrun as (? & w3 & _ & Hrun). by injection Hrun.
Qed.

Lemma EntityProcessor_load_inv incremental_timestamp self w self' w' :
  load incremental_timestamp self w = (Ok self', w') →
  self' = EntityProcessor.set_dirty false (EntityProcessor.set_ready true self).
Proof.
  unfold load. intros Hrun.
  apply bind_inv_ok in Hrun as (self1 & w1 & Hload & Hrun).
  assert (self1 = self) as ->.
  { simpl in Hload. unfold EntityProcessor._load in Hload.
    destruct ((consult (EntityProcessor.the_role_classifier self) call_load;;
               consult (EntityProcessor.the_entity_resolver self) call_load) w)
      as [[?|[]] ?]; by injection Hload. }
  apply bind_inv_ok in Hrun as (self2 & w2 & Hchildren & Hrun).
  simpl in Hchildren. injection Hchildren as <- <-. by injection Hrun.
Qed.

Lemma for_children_Forall_pre {C} (body : C → M C) (R Q : C → Prop)
    (children children' : list (Label * C)) w w' :
  Forall (λ kc, R kc.2) children →
  for_children body children w = (Ok children', w') →
  (∀ c c' w1 w2, R c → body c w1 = (Ok c', w2) → Q c') →
  Forall (λ kc, Q kc.2) children'.
Proof.
  intros HR Hrun%for_children_inv HQ. revert HR.
  induction Hrun as [|[k c] [k' c'] children children' (_ & w1 & w2 & Hbody) _ IH];
    intros HR; constructor.
  - apply Forall_cons in HR as [HR _]. simpl in *. by eapply HQ.
  - apply IH. by apply Forall_cons in HR as [_ HR].
Qed.

Lemma for_children_Forall {C} (body : C → M C) (Q : C → Prop)
    (children children' : list (Label * C)) w w' :
  for_children body children w = (Ok children', w') →
  (∀ c c' w1 w2, body c w1 = (Ok c', w2) → Q c') →
  Forall (λ kc, Q kc.2) children'.
Proof.
  intros Hrun HQ.
  eapply (for_children_Forall_pre body (λ _, True)); [by apply Forall_true|done|].
  intros c c' w1 w2 _. apply HQ.
Qed.

Lemma entity_tier_impl (Q Q' : bool → bool → option string → Prop) self :
  (∀ r d t, Q r d t → Q' r d t) → entity_tier Q self → entity_tier Q' self.
Proof. unfold entity_tier. auto. Qed.

Lemma intent_tier_impl (Q Q' : bool → bool → option string → Prop) self :
  (∀ r d t, Q r d t → Q' r d t) → intent_tier Q self → intent_tier Q' self.
Proof.
  intros HQ [Hself Hchildren]. split; [auto|].
  eapply Forall_impl; [done|]. intros c. by apply entity_tier_impl.
Qed.

Lemma domain_tier_impl (Q Q' : bool → bool → option string → Prop) self :
  (∀ r d t, Q r d t → Q' r d t) → domain_tier Q self → domain_tier Q' self.
Proof.
  intros HQ [Hself Hchildren]. split; [auto|].
  eapply Forall_impl; [done|]. intros c. by apply intent_tier_impl.
Qed.

(** The body of the loop of [build] over the children. *)
Lemma EntityProcessor_build_body (incremental : bool) (label_set : option string) ts
    (c : EntityProcessor.t) w c' w' :
  ((child ← build incremental label_set (EntityProcessor.set_incremental_timestamp ts c);
    if incremental then dump child else mret child) : M EntityProcessor.t) w = (Ok c', w') →
  entity_tier (built incremental ts) c'.
Proof.
  intros Hrun. apply bind_inv_ok in Hrun as (c1 & w1 & Hbuild & Hrun).
  apply EntityProcessor_build_inv in Hbuild as ->.
  destruct incremental.
  - apply EntityProcessor_dump_inv in Hrun as ->. done.
  - injection Hrun as <- _. done.
Qed.

(** *** The intent tier *)

Lemma IntentProcessor_build_tier incremental label_set self w self' w' :
  build incremental label_set self w = (Ok self', w') →
  IntentProcessor.ready self' = true ∧ IntentProcessor.dirty self' = true ∧
  IntentProcessor.incremental_timestamp self' = IntentProcessor.incremental_timestamp self ∧
  (IntentProcessor.entities self').*1
    = (IntentProcessor.entities (IntentProcessor.create_entity_processors self)).*1 ∧
  Forall (λ c, entity_tier (built incremental (IntentProcessor.incremental_timestamp self)) c.2)
         (IntentProcessor.entities self').
Proof.
  unfold build. intros Hrun.
  apply bind_inv_ok in Hrun as (self1 & w1 & Hbuild & Hrun).
  assert (self1 = IntentProcessor.create_entity_processors self) as ->.
  { simpl in Hbuild. unfold IntentProcessor._build in Hbuild.
    apply bind_inv_ok in Hbuild as (? & ? & _ & Hbuild). by injection Hbuild. }
  apply bind_inv_ok in Hrun as (? & w2 & _ & Hrun).
  apply bind_inv_ok in Hrun as (self2 & w3 & Hchildren & Hrun).
  simpl in Hchildren.
  apply bind_inv_ok in Hchildren as (children & w4 & Hchildren & Hret).
  injection Hret as <- _.
  apply bind_inv_ok in Hrun as (? & w5 & _ & Hrun). injection Hrun as <- _.
  do 3 (split; [done|]). split.
  - simpl. by eapply for_children_keys.
  - simpl. eapply for_children_Forall; [done|].
    intros c c' w6 w7. apply EntityProcessor_build_body.
Qed.

Lemma IntentProcessor_dump_tier (P : bool → option string → Prop) self w self' w' :
  intent_tier (λ r _ t, P r t) self →
  dump self w = (Ok self', w') →
  intent_tier (λ r d t, P r t ∧ d = false) self'.
Proof.
  intros [Hself Hentities]. unfold dump. intros Hrun.
  apply bind_inv_ok in Hrun as (? & w1 & _ & Hrun).
  apply bind_inv_ok in Hrun as (self1 & w2 & Hchildren & Hrun).
  simpl in Hchildren.
  apply bind_inv_ok in Hchildren as (children & w3 & Hchildren & Hret).
  injection Hret as <- _.
  apply bind_inv_ok in Hrun as (? & w4 & _ & Hrun). injection Hrun as <- _.
  split; [done|]. simpl.
  eapply for_children_Forall_pre; [exact Hentities|done|].
  intros c c' w5 w6 Hc ->%EntityProcessor_dump_inv. done.
Qed.

Lemma IntentProcessor_load_tier incremental_timestamp self w self' w' :
  load incremental_timestamp self w = (Ok self', w') → intent_tier loaded self'.
Proof.
  unfold load. intros Hrun.
  apply bind_inv_ok in Hrun as (self1 & w1 & _ & Hrun).
  apply bind_inv_ok in Hrun as (self2 & w2 & Hchildren & Hrun).
  simpl in Hchildren.
  apply bind_inv_ok in Hchildren as (children & w3 & Hchildren & Hret).
  injection Hret as <- _. injection Hrun as <- _.
  split; [done|]. simpl.
  eapply for_children_Forall; [done|].
  intros c c' w5 w6 ->%EntityProcessor_load_inv. done.
Qed.

Lemma IntentProcessor_build_body (incremental : bool) (label_set : option string) ts
    (c : IntentProcessor.t) w c' w' :
  ((child ← build incremental label_set (IntentProcessor.set_incremental_timestamp ts c);
    if incremental then dump child else mret child) : M IntentProcessor.t) w = (Ok c', w') →
  intent_tier (built incremental ts) c'.
Proof.
  intros Hrun. apply bind_inv_ok in Hrun as (c1 & w1 & Hbuild & Hrun).
  apply IntentProcessor_build_tier in Hbuild as (Hready & Hdirty & Hts & _ & Hentities).
  simpl in Hts, Hentities.
  destruct incremental.
  - apply (IntentProcessor_dump_tier (λ r t, r = true ∧ t = ts)) in Hrun.
    + eapply intent_tier_impl; [|exact Hrun]. unfold built. naive_solver.
    + split; [done|]. eapply Forall_impl; [exact Hentities|].
      intros c0. apply entity_tier_impl. unfold built. naive_solver.
  - injection Hrun as <- _. by split.
Qed.

(** *** The domain tier *)

Lemma DomainProcessor__build_inv incremental label_set self w self1 w1 :
  DomainProcessor._build incremental label_set self w = (Ok self1, w1) → self1 = self.
Proof.
  unfold DomainProcessor._build. case_bool_decide; [by intros [= <- _]|].
  intros Hrun. apply bind_inv_ok in Hrun as (? & ? & _ & Hrun). by injection Hrun.
Qed.

Lemma DomainProcessor__load_inv incremental_timestamp self w self1 w1 :
  DomainProcessor._load incremental_timestamp self w = (Ok self1, w1) → self1 = self.
Proof.
  unfold DomainProcessor._load. case_bool_decide; [by intros [= <- _]|].
  intros Hrun. apply bind_inv_ok in Hrun as (? & ? & _ & Hrun). by injection Hrun.
Qed.

Lemma DomainProcessor_build_tier incremental label_set self w self' w' :
  build incremental label_set self w = (Ok self', w') →
  DomainProcessor.ready self' = true ∧ DomainProcessor.dirty self' = true ∧
  DomainProcessor.incremental_timestamp self' = DomainProcessor.incremental_timestamp self ∧
  (DomainProcessor.intents self').*1 = (DomainProcessor.intents self).*1 ∧
  Forall (λ c, intent_tier (built incremental (DomainProcessor.incremental_timestamp self)) c.2)
         (DomainProcessor.intents self').
Proof.
  unfold build. intros Hrun.
  apply bind_inv_ok in Hrun as (self1 & w1 & Hbuild & Hrun).
  apply DomainProcessor__build_inv in Hbuild as ->.
  apply bind_inv_ok in Hrun as (? & w2 & _ & Hrun).
  apply bind_inv_ok in Hrun as (self2 & w3 & Hchildren & Hrun).
  simpl in Hchildren.
  apply bind_inv_ok in Hchildren as (children & w4 & Hchildren & Hret).
  injection Hret as <- _.
  apply bind_inv_ok in Hrun as (? & w5 & _ & Hrun). injection Hrun as <- _.
  do 3 (split; [done|]). split.
  - simpl. by eapply for_children_keys.
  - simpl. eapply for_children_Forall; [done|].
    intros c c' w6 w7. apply IntentProcessor_build_body.
Qed.

Lemma DomainProcessor_dump_tier (P : bool → option string → Prop) self w self' w' :
  domain_tier (λ r _ t, P r t) self →
  dump self w = (Ok self', w') →
  domain_tier (λ r d t, P r t ∧ d = false) self'.
Proof.
  intros [Hself Hintents]. unfold dump. intros Hrun.
  apply bind_inv_ok in Hrun as (? & w1 & _ & Hrun).
  apply bind_inv_ok in Hrun as (self1 & w2 & Hchildren & Hrun).
  simpl in Hchildren.
  apply bind_inv_ok in Hchildren as (children & w3 & Hchildren & Hret).
  injection Hret as <- _.
  apply bind_inv_ok in Hrun as (? & w4 & _ & Hrun). injection Hrun as <- _.
  split; [done|]. simpl.
  eapply for_children_Forall_pre; [exact Hintents|done|].
  intros c c' w5 w6 Hc. by apply IntentProcessor_dump_tier.
Qed.

Lemma DomainProcessor_load_tier incremental_timestamp self w self' w' :
  load incremental_timestamp self w = (Ok self', w') → domain_tier loaded self'.
Proof.
  unfold load. intros Hrun.
  apply bind_inv_ok in Hrun as (self1 & w1 & _ & Hrun).
  apply bind_inv_ok in Hrun as (self2 & w2 & Hchildren & Hrun).
  simpl in Hchildren.
  apply bind_inv_ok in Hchildren as (children & w3 & Hchildren & Hret).
  injection Hret as <- _. injection Hrun as <- _.
  split; [done|]. simpl.
  eapply for_children_Forall; [done|].
  intros c c' w5 w6. apply IntentProcessor_load_tier.
Qed.

Lemma DomainProcessor_build_body (incremental : bool) (label_set : option string) ts
    (c : DomainProcessor.t) w c' w' :
  ((child ← build incremental label_set (DomainProcessor.set_incremental_timestamp ts c);
    if incremental then dump child else mret child) : M DomainProcessor.t) w = (Ok c', w') →
  domain_tier (built incremental ts) c'.
Proof.
  intros Hrun. apply bind_inv_ok in Hrun as (c1 & w1 & Hbuild & Hrun).
  apply DomainProcessor_build_tier in Hbuild as (Hready & Hdirty & Hts & _ & Hintents).
  simpl in Hts, Hintents.
  destruct incremental.
  - apply (DomainProcessor_dump_tier (λ r t, r = true ∧ t = ts)) in Hrun.
    + eapply domain_tier_impl; [|exact Hrun]. unfold built. naive_solver.
    + split; [done|]. eapply Forall_impl; [exact Hintents|].
      intros c0. apply intent_tier_impl. unfold built. naive_solver.
  - injection Hrun as <- _. by split.
Qed.

(** *** The root *)

(** X12.  A successful [build] of the root leaves the whole tree built:
    the root is ready and dirty and, in an incremental build, takes the
    time of the build as its incremental timestamp; every processor below
    it is ready and carries the root's timestamp; the processors below the
    root are dirty after a plain build and, having been dumped, not dirty
    after an incremental one. *)
Theorem build_whole_tree incremental label_set self w self' w' :
  build incremental label_set self w = (Ok self', w') →
  NaturalLanguageProcessor.ready self' = true ∧
  NaturalLanguageProcessor.dirty self' = true ∧
  NaturalLanguageProcessor.incremental_timestamp self'
    = (if incremental then Some (NaturalLanguageProcessor.current_ts self)
       else NaturalLanguageProcessor.incremental_timestamp self) ∧
  (NaturalLanguageProcessor.domains self').*1 = (NaturalLanguageProcessor.domains self).*1 ∧
  Forall (λ c, domain_tier (built incremental
                              (NaturalLanguageProcessor.incremental_timestamp self')) c.2)
         (NaturalLanguageProcessor.domains self').
Proof.
  unfold build. intros Hrun.
  apply bind_inv_ok in Hrun as (self1 & w1 & Hbuild & Hrun).
  assert (self1 = if incremental
                  then NaturalLanguageProcessor.set_incremental_timestamp
                         (Some (NaturalLanguageProcessor.current_ts self)) self
                  else self) as ->.
  { simpl in Hbuild. unfold NaturalLanguageProcessor._build in Hbuild.
    case_bool_decide; [by injection Hbuild|].
    apply bind_inv_ok in Hbuild as (? & ? & _ & Hbuild). by injection Hbuild. }
  apply bind_inv_ok in Hrun as (? & w2 & _ & Hrun).
  apply bind_inv_ok in Hrun as (self2 & w3 & Hchildren & Hrun).
  simpl in Hchildren.
  apply bind_inv_ok in Hchildren as (children & w4 & Hchildren & Hret).
  injection Hret as <- _.
  apply bind_inv_ok in Hrun as (? & w5 & _ & Hrun). injection Hrun as <- _.
  do 2 (split; [done|]). split; [by destruct incremental|]. split.
  - simpl. apply for_children_keys in Hchildren. by destruct incremental.
  - simpl. eapply for_children_Forall; [done|].
    intros c c' w6 w7 Hbody. apply DomainProcessor_build_body in Hbody.
    by destruct incremental.
Qed.

(** X13.  A successful [load] of the root leaves every processor of the
    tree ready and not dirty, and a successful [dump] leaves every processor
    of the tree not dirty. *)
Theorem load_dump_whole_tree :
  (∀ incremental_timestamp self w self' w',
     load incremental_timestamp self w = (Ok self', w') → whole_tree loaded self') ∧
  (∀ self w self' w', dump self w = (Ok self', w') → whole_tree dumped self').
Proof.
  split.
  - intros ts self w self' w'. unfold load. intros Hrun.
    apply bind_inv_ok in Hrun as (self1 & w1 & _ & Hrun).
    apply bind_inv_ok in Hrun as (self2 & w2 & Hchildren & Hrun).
    simpl in Hchildren.
    apply bind_inv_ok in Hchildren as (children & w3 & Hchildren & Hret).
    injection Hret as <- _. injection Hrun as <- _.
    split; [done|]. simpl.
    eapply for_children_Forall; [done|].
    intros c c' w5 w6. apply DomainProcessor_load_tier.
  - intros self w self' w'. unfold dump. intros Hrun.
    apply bind_inv_ok in Hrun as (? & w1 & _ & Hrun).
    apply bind_inv_ok in Hrun as (self1 & w2 & Hchildren & Hrun).
    simpl in Hchildren.
    apply bind_inv_ok in Hchildren as (children & w3 & Hchildren & Hret).
    injection Hret as <- _.
    apply bind_inv_ok in Hrun as (? & w4 & _ & Hrun). injection Hrun as <- _.
    split; [done|]. simpl.
    eapply for_children_Forall; [done|].
    intros c c' w5 w6 Hdump.
    apply (DomainProcessor_dump_tier (λ _ _, True)) in Hdump.
    + eapply domain_tier_impl; [|exact Hdump]. unfold dumped. naive_solver.
    + split; [done|]. apply Forall_true. intros [k i]. split; [done|].
      apply Forall_true. by intros.
Qed.

(** *** The entity processors of an intent *)

Lemma child_set_child {C} (children : list (Label * C)) key c key' :
  child (set_child children key c) key'
  = if String.eqb key key' then Some c else child children key'.
Proof.
  induction children as [|[k c0] children IH]; simpl.
  - done.
  - destruct (String.eqb_spec k key) as [->|Hne]; simpl.
    + by destruct (String.eqb key key').
    + destruct (String.eqb_spec k key') as [->|Hne'].
      * destruct (String.eqb_spec key key') as [->|?]; done.
      * apply IH.
Qed.

Lemma child_create_entity_processors self entity_type :
  entity_type ∈ EntityRecognizer.entity_types (IntentProcessor.entity_recognizer self) →
  child (IntentProcessor.entities (IntentProcessor.create_entity_processors self)) entity_type
  = Some (IntentProcessor.new_entity_processor self entity_type).
Proof.
  unfold IntentProcessor.create_entity_processors. simpl.
  generalize (IntentProcessor.entities self).
  induction (EntityRecognizer.entity_types (IntentProcessor.entity_recognizer self))
    as [|t types IH] using rev_ind; intros children.
  - by intros ?%elem_of_nil.
  - rewrite foldl_app. simpl. rewrite child_set_child.
    destruct (String.eqb_spec t entity_type) as [->|Hne]; [done|].
    intros [?|[->|?%elem_of_nil]%elem_of_cons]%elem_of_app; [by apply IH|done|done].
Qed.

Lemma for_children_child {C} (body : C → M C) (R : C → C → Prop)
    (children children' : list (Label * C)) w w' key c :
  for_children body children w = (Ok children', w') →
  (∀ c c' w1 w2, body c w1 = (Ok c', w2) → R c c') →
  child children key = Some c →
  ∃ c', child children' key = Some c' ∧ R c c'.
Proof.
  intros Hrun%for_children_inv HR.
  induction Hrun as [|[k c0] [k' c0'] children children' (Hk & w1 & w2 & Hbody) _ IH];
    simpl; [done|].
  simpl in Hk, Hbody. subst k'. destruct (String.eqb k key); [|done].
  intros [= <-]. eauto.
Qed.

(** X14.  After a successful [build] or [load] of an intent processor,
    every entity type of its recognizer has an entity processor among the
    children: one made for that type, of the domain and intent of its
    parent, and ready. *)
Theorem built_intent_has_entity_processors self self' w w' entity_type :
  (∃ incremental label_set, build incremental label_set self w = (Ok self', w')) ∨
  (∃ incremental_timestamp, load incremental_timestamp self w = (Ok self', w')) →
  entity_type ∈ EntityRecognizer.entity_types (IntentProcessor.entity_recognizer self) →
  ∃ processor,
    child (IntentProcessor.entities self') entity_type = Some processor ∧
    EntityProcessor.type processor = entity_type ∧
    EntityProcessor.domain processor = IntentProcessor.domain self ∧
    EntityProcessor.intent processor = IntentProcessor.name self ∧
    EntityProcessor.ready processor = true.
Proof.
  intros Hrun Htype. apply child_create_entity_processors in Htype.
  pose (R := λ c c' : EntityProcessor.t,
          EntityProcessor.type c' = EntityProcessor.type c ∧
          EntityProcessor.domain c' = EntityProcessor.domain c ∧
          EntityProcessor.intent c' = EntityProcessor.intent c ∧
          EntityProcessor.ready c' = true).
  assert (∃ children w1 w2 body,
            IntentProcessor.entities self' = children ∧
            for_children body
              (IntentProcessor.entities (IntentProcessor.create_entity_processors self)) w1
            = (Ok children, w2) ∧
            ∀ c c' w3 w4, body c w3 = (Ok c', w4) → R c c') as
    (children & w1 & w2 & body & Hentities & Hchildren & Hbody).
  { destruct Hrun as [(incremental & label_set & Hrun)|(ts & Hrun)].
    - unfold build in Hrun.
      apply bind_inv_ok in Hrun as (self1 & w1 & Hbuild & Hrun).
      assert (self1 = IntentProcessor.create_entity_processors self) as ->.
      { simpl in Hbuild. unfold IntentProcessor._build in Hbuild.
        apply bind_inv_ok in Hbuild as (? & ? & _ & Hbuild). by injection Hbuild. }
      apply bind_inv_ok in Hrun as (? & w2 & _ & Hrun).
      apply bind_inv_ok in Hrun as (self2 & w3 & Hchildren & Hrun).
      simpl in Hchildren.
      apply bind_inv_ok in Hchildren as (children & w4 & Hchildren & Hret).
      injection Hret as <- _.
      apply bind_inv_ok in Hrun as (? & w5 & _ & Hrun). injection Hrun as <- _.
      eexists children, _, _, _. split; [done|]. split; [exact Hchildren|].
      intros c c' w6 w7 Hbody.
      apply bind_inv_ok in Hbody as (c1 & w8 & ->%EntityProcessor_build_inv & Hbody).
      destruct incremental.
      + by apply EntityProcessor_dump_inv in Hbody as ->.
      + by injection Hbody as <- _.
    - unfold load in Hrun.
      apply bind_inv_ok in Hrun as (self1 & w1 & Hload & Hrun).
      assert (self1 = IntentProcessor.create_entity_processors self) as ->.
      { simpl in Hload. unfold IntentProcessor._load in Hload.
        apply bind_inv_ok in Hload as (? & ? & _ & Hload). by injection Hload. }
      apply bind_inv_ok in Hrun as (self2 & w3 & Hchildren & Hrun).
      simpl in Hchildren.
      apply bind_inv_ok in Hchildren as (children & w4 & Hchildren & Hret).
      injection Hret as <- _. injection Hrun as <- _.
      eexists children, _, _, _. split; [done|]. split; [exact Hchildren|].
      by intros c c' w6 w7 ->%EntityProcessor_load_inv. }
  destruct (for_children_child _ R _ _ _ _ _ _ Hchildren Hbody Htype)
    as (processor & Hprocessor & Htype' & Hdomain & Hintent & Hready).
  exists processor. rewrite Hentities. by split.
Qed.

(** X15.  Loading an entity processor survives a resolver that cannot be
    reached: when the load of the entity resolver fails with
    [EntityResolverConnectionError], [load] still returns and marks the
    processor ready and not dirty; any other failure of that call is
    raised. *)
Theorem entity_load_tolerates_connection_error incremental_timestamp self w e :
  faults w (EntityProcessor.the_role_classifier self) call_load = None →
  faults w (EntityProcessor.the_entity_resolver self) call_load = Some e →
  load incremental_timestamp self w
  = (match e with
     | EntityResolverConnectionError =>
         Ok (EntityProcessor.set_dirty false (EntityProcessor.set_ready true self))
     | _ => Raise e
     end,
     mkWorld (log w ++ [(EntityProcessor.the_role_classifier self, call_load)]
                    ++ [(EntityProcessor.the_entity_resolver self, call_load)])
             (faults w) (heap w) (executor w)).
Proof.
  intros Hrole Hresolver.
  unfold load, mbind, M_bind. simpl. unfold EntityProcessor._load, mbind, M_bind, consult.
  rewrite Hrole. simpl. rewrite Hresolver. rewrite <- app_assoc.
  by destruct e.
Qed.

(** ** The text front end *)

Section ProcessFacts.
Context (query_factory : string → M Query) {D : Type} (to_dict : ProcessedQuery → M D).

(** X16.  [NaturalLanguageProcessor.process] settles the restriction before
    anything else.  Giving both [allowed_intents] and [allowed_nlp_classes]
    raises [TypeError], even when they are empty; a list of allowed intents
    that [extract_allowed_intents] rejects raises that error before the
    query is created; an accepted list acts as the hierarchy extracted from
    it, and an empty list as no restriction. *)
Theorem process_settles_restriction_first self pool run query_text dr verbose :
  (∀ allowed_nlp_classes allowed_intents w,
     NaturalLanguageProcessor_process query_factory to_dict self pool run query_text
       (Some allowed_nlp_classes) (Some allowed_intents) dr verbose w
     = (Raise TypeError, w)) ∧
  (∀ allowed_intent allowed_intents e w,
     NaturalLanguageProcessor.extract_allowed_intents self (allowed_intent :: allowed_intents)
       = Raise e →
     NaturalLanguageProcessor_process query_factory to_dict self pool run query_text
       None (Some (allowed_intent :: allowed_intents)) dr verbose w
     = (Raise e, w)) ∧
  (∀ allowed_intent allowed_intents classes w,
     NaturalLanguageProcessor.extract_allowed_intents self (allowed_intent :: allowed_intents)
       = Ok classes →
     NaturalLanguageProcessor_process query_factory to_dict self pool run query_text
       None (Some (allowed_intent :: allowed_intents)) dr verbose w
     = NaturalLanguageProcessor_process query_factory to_dict self pool run query_text
         (Some classes) None dr verbose w) ∧
  (∀ w,
     NaturalLanguageProcessor_process query_factory to_dict self pool run query_text
       None (Some []) dr verbose w
     = NaturalLanguageProcessor_process query_factory to_dict self pool run query_text
         None None dr verbose w).
Proof.
  split; [done|]. split; [|split; [|done]].
  - intros p ps e w Hextract. unfold NaturalLanguageProcessor_process.
    unfold mbind at 1, M_bind at 1. unfold mbind at 1, M_bind at 1, of_result.
    by rewrite Hextract.
  - intros p ps classes w Hextract. unfold NaturalLanguageProcessor_process.
    unfold mbind at 1, M_bind at 1. unfold mbind at 1, M_bind at 1, of_result.
    by rewrite Hextract.
Qed.

Lemma results_of_inr {Item Res} (results : list Res) w :
  results_of (inr <$> results : list (Item + Res)) w = (Ok results, w).
Proof.
  revert w. induction results as [|r results IH]; intros w; [done|].
  unfold results_of in *. simpl. unfold mbind at 1, M_bind at 1. simpl.
  unfold mbind at 1, M_bind at 1. by rewrite IH.
Qed.

Lemma create_query_not_empty run query_text w query w' :
  create_query query_factory run query_text w = (Ok query, w') →
  match query_text with
  | n_best_texts (s :: l) => ∃ queries, query = n_best queries ∧
                                        length queries = length (s :: l)
  | _ => ∃ q, query = a_query q
  end.
Proof.
  unfold create_query. intros Hrun.
  destruct query_text as [|s|[|s l]].
  - apply bind_inv_ok in Hrun as (q & w1 & _ & Hrun). injection Hrun as <- _. by eexists.
  - apply bind_inv_ok in Hrun as (q & w1 & _ & Hrun). injection Hrun as <- _. by eexists.
  - apply bind_inv_ok in Hrun as (q & w1 & _ & Hrun). injection Hrun as <- _. by eexists.
  - apply bind_inv_ok in Hrun as (slots & w1 & Hslots & Hrun).
    apply bind_inv_ok in Hrun as (queries & w2 & Hqueries & Hrun).
    injection Hrun as <- _. exists queries. split; [done|].
    rewrite (results_of_length _ _ _ _ Hqueries).
    by rewrite (_process_list_length _ _ _ _ _ _ _ Hslots).
Qed.

(** X17.  [create_query] never hands back an empty list of queries: no
    text, the empty text and the empty list of texts all give the one query
    of the empty text; a text gives one query; a non-empty list of texts
    gives a list of as many queries, which without a process pool are the
    queries of the texts in order. *)
Theorem create_query_shape run :
  (∀ w, create_query query_factory run no_text w
        = create_query query_factory run (a_text "") w ∧
        create_query query_factory run (n_best_texts []) w
        = create_query query_factory run (a_text "") w) ∧
  (∀ query_text w query w',
     create_query query_factory run query_text w = (Ok query, w') →
     query ≠ n_best [] ∧
     (∀ s, query_text = a_text s → ∃ q, query = a_query q) ∧
     (∀ l, query_text = n_best_texts l → l ≠ [] →
           ∃ queries, query = n_best queries ∧ length queries = length l)) ∧
  (∀ s l w,
     executor w = None →
     create_query query_factory run (n_best_texts (s :: l)) w
     = (queries ← mapM query_factory (s :: l); mret (n_best queries)) w).
Proof.
  split; [done|]. split.
  - intros query_text w query w' Hrun. apply create_query_not_empty in Hrun.
    destruct query_text as [|s|[|s l]].
    + destruct Hrun as [q ->]. by repeat split.
    + destruct Hrun as [q ->]. split; [done|]. split; [by eexists|done].
    + destruct Hrun as [q ->]. split; [done|]. split; [done|]. by intros l [= <-].
    + destruct Hrun as (queries & -> & Hlen). split; [by destruct queries|].
      split; [done|]. intros l' [= <-] _. by exists queries.
  - intros s l w Hpool. unfold create_query.
    unfold mbind at 1, M_bind at 1.
    rewrite _process_list_no_pool by done. unfold in_series.
    destruct (mapM query_factory (s :: l) w) as [[queries|e] w1] eqn:Hmap.
    + rewrite (bind_ok _ _ _ _ _ Hmap). rewrite (bind_ok _ _ _ _ _ Hmap).
      unfold mret at 1, M_ret at 1. unfold mbind at 1, M_bind at 1.
      by rewrite results_of_inr.
    + rewrite (bind_raise _ _ _ _ _ Hmap). by rewrite (bind_raise _ _ _ _ _ Hmap).
Qed.

(** X18.  What [process] hands to [to_dict] names the place of the
    processor in the tree.  The intent tier sets its own domain and intent
    and, as it calls [process_query] without [verbose], never reports a
    score, whatever [verbose] is; the domain tier sets its own domain and an
    intent among its children; the root sets a domain among its children
    and an intent of that domain. *)
Theorem process_names_the_processor pool run query_text dr verbose w d w' :
  (∀ self,
     IntentProcessor_process query_factory to_dict self pool run query_text dr verbose w
       = (Ok d, w') →
     ∃ pq w1, to_dict pq w1 = (Ok d, w') ∧
       domain pq = Some (IntentProcessor.domain self) ∧
       intent pq = Some (IntentProcessor.name self) ∧
       confidence pq = mkConfidence None None None None) ∧
  (∀ self allowed,
     DomainProcessor_process query_factory to_dict self pool run query_text allowed
       dr verbose w = (Ok d, w') →
     ∃ pq w1 i, to_dict pq w1 = (Ok d, w') ∧
       domain pq = Some (DomainProcessor.name self) ∧
       intent pq = Some i ∧ is_Some (child (DomainProcessor.intents self) i)) ∧
  (∀ self allowed allowed_intents,
     NaturalLanguageProcessor_process query_factory to_dict self pool run query_text
       allowed allowed_intents dr verbose w = (Ok d, w') →
     ∃ pq w1 domain_label i processor, to_dict pq w1 = (Ok d, w') ∧
       domain pq = Some domain_label ∧ intent pq = Some i ∧
       child (NaturalLanguageProcessor.domains self) domain_label = Some processor ∧
       is_Some (child (DomainProcessor.intents processor) i)).
Proof.
  split; [|split].
  - intros self Hrun. unfold IntentProcessor_process in Hrun.
    apply bind_inv_ok in Hrun as (query & w1 & _ & Hrun).
    apply bind_inv_ok in Hrun as (pq & w2 & Hquery & Hrun).
    eexists _, w2. split; [exact Hrun|].
    apply IntentProcessor_process_query_inv in Hquery
      as (_ & ec & found & w3 & aligned & processed & roles & q & _ & _ & _ & _ & ->).
    simpl. by destruct (match query with
                        | n_best _ => IntentProcessor.nbest_transcripts_enabled self
                        | a_query _ => false
                        end).
  - intros self allowed Hrun. unfold DomainProcessor_process in Hrun.
    apply bind_inv_ok in Hrun as (query & w1 & _ & Hrun).
    apply bind_inv_ok in Hrun as (pq & w2 & Hquery & Hrun).
    apply DomainProcessor_process_query_inv in Hquery
      as (_ & top & i & ip & w3 & iprocessor & pq1 & _ & _ & Hi & _ & ->).
    eexists _, w2, i. split; [exact Hrun|]. split; [done|].
    simpl. destruct (domain_with_intents_scores ip (with_intent i pq1)) as [_ ->].
    by rewrite Hi.
  - intros self allowed allowed_intents Hrun.
    unfold NaturalLanguageProcessor_process in Hrun.
    assert (∃ classes w0 query w1 pq w2,
              create_query query_factory run query_text w0 = (Ok query, w1) ∧
              NaturalLanguageProcessor.process_query self pool query classes dr verbose w1
                = (Ok pq, w2) ∧ to_dict pq w2 = (Ok d, w'))
      as (classes & w0 & query & w1 & pq & w2 & _ & Hquery & Hdict).
    { destruct allowed_intents as [paths|], allowed as [classes|]; try done;
        apply bind_inv_ok in Hrun as (classes' & w0 & _ & Hrun);
        apply bind_inv_ok in Hrun as (query & w1 & Hcreate & Hrun);
        apply bind_inv_ok in Hrun as (pq & w2 & Hquery & Hrun);
        by eexists _, _, _, _, _, _. }
    apply NaturalLanguageProcessor_process_query_inv in Hquery
      as (_ & top & dl & dp & w3 & processor & pq0 & _ & _ & Hd & Hquery & ->).
    apply DomainProcessor_process_query_inv in Hquery
      as (_ & top' & i & ip & w4 & iprocessor & pq1 & _ & _ & Hi & _ & ->).
    eexists _, w2, dl, i, processor. split; [exact Hdict|].
    destruct (domain_with_domains_scores dp
                (with_domain dl (with_intents_scores ip (with_intent i pq1)))) as [-> ->].
    simpl. destruct (domain_with_intents_scores ip (with_intent i pq1)) as [_ ->].
    by rewrite Hi.
Qed.
End ProcessFacts.

(** ** The markup language *)

Lemma string_app_cons c (s1 s2 : string) : String c s1 +:+ s2 = String c (s1 +:+ s2).
Proof. reflexivity. Qed.

Lemma string_app_nil_l (s : string) : "" +:+ s = s.
Proof. reflexivity. Qed.

Lemma string_app_nil_r (s : string) : s +:+ "" = s.
Proof. induction s as [|c s IH]; [done|]. by rewrite string_app_cons, IH. Qed.

Lemma string_app_assoc (s1 s2 s3 : string) : (s1 +:+ s2) +:+ s3 = s1 +:+ s2 +:+ s3.
Proof. induction s1 as [|c s1 IH]; [done|]. by rewrite !string_app_cons, IH. Qed.

Lemma string_length_app (s1 s2 : string) :
  String.length (s1 +:+ s2) = (String.length s1 + String.length s2)%nat.
Proof. induction s1 as [|c s1 IH]; [done|]. rewrite string_app_cons. simpl. by rewrite IH. Qed.

Lemma plain_app (s1 s2 : string) : plain (s1 +:+ s2) = plain s1 && plain s2.
Proof.
  induction s1 as [|c s1 IH]; [done|]. rewrite string_app_cons. simpl.
  by rewrite IH, andb_assoc.
Qed.

Lemma join_app (l1 l2 : list string) : join (l1 ++ l2) = join l1 +:+ join l2.
Proof.
  induction l1 as [|t l1 IH]; [done|]. simpl. by rewrite IH, string_app_assoc.
Qed.

Lemma join_yield_token (token : string) : join (Markup.yield_token token) = token.
Proof. destruct token; [done|]. apply string_app_nil_r. Qed.

Lemma yield_token_shape (token : string) :
  plain token = true →
  Forall (λ t, t ≠ "" ∧ token_shape t) (Markup.yield_token token).
Proof.
  intros Hplain. destruct token; simpl; [constructor|].
  constructor; [|constructor]. split; [done|]. by left.
Qed.

Lemma char_token_shape (c : ascii) :
  Markup.char_in c Markup.SPECIAL_CHARACTERS = true →
  Markup.char_token c ≠ "" ∧ token_shape (Markup.char_token c).
Proof. intros Hc. split; [done|]. right. by exists c. Qed.

Lemma special_cases (char : ascii) :
  Markup.char_in char Markup.SPECIAL_CHARACTERS = true →
  char = Markup.ENTITY_START ∨ char = Markup.ENTITY_END ∨ char = Markup.GROUP_START ∨
  char = Markup.GROUP_END ∨ char = Markup.META_SPLIT.
Proof.
  unfold Markup.char_in, Markup.SPECIAL_CHARACTERS. simpl.
  rewrite orb_false_r, !orb_true_iff, !Ascii.eqb_eq. tauto.
Qed.

(** One step of the generator: what it yields joins with the new token
    to the old token and the character, and has the shape of tokens. *)
Lemma tokenize_char_spec idx char st yielded st' :
  plain (Markup.token st) = true →
  Markup.tokenize_char idx char st = inr (yielded, st') →
  join yielded +:+ Markup.token st' = Markup.token st +:+ Markup.char_token char ∧
  plain (Markup.token st') = true ∧
  Forall (λ t, t ≠ "" ∧ token_shape t) yielded.
Proof.
  intros Hplain. unfold Markup.tokenize_char.
  destruct (Markup.char_in char Markup.SPECIAL_CHARACTERS) eqn:Hspecial.
  - pose proof (char_token_shape char Hspecial) as Hchar.
    assert (∀ key,
      (if (Markup.open_annotations st key =? 0)%nat
       then inl (Markup.MarkupError ("Mismatched end for " +:+ Markup.key_name key
                                     +:+ " at position " +:+ pretty idx))
       else if negb (Markup.token_is_meta st)
       then inl (Markup.MarkupError ("Missing label for " +:+ Markup.key_name key
                                     +:+ " at position " +:+ pretty idx))
       else if String.eqb (Markup.token st) ""
       then inl (Markup.MarkupError ("Empty label for " +:+ Markup.key_name key
                                     +:+ " at position " +:+ pretty idx))
       else inr ([Markup.token st; Markup.char_token char],
                 match key with
                 | Markup.group =>
                     Markup.mkTokenizer "" false (pred (Markup.open_group st))
                       (Markup.open_entity st)
                 | Markup.entity =>
                     Markup.mkTokenizer "" false (Markup.open_group st)
                       (pred (Markup.open_entity st))
                 end)) = inr (yielded, st') →
      join yielded +:+ Markup.token st' = Markup.token st +:+ Markup.char_token char ∧
      plain (Markup.token st') = true ∧
      Forall (λ t, t ≠ "" ∧ token_shape t) yielded) as Hend.
    { intros key. destruct (_ =? 0)%nat; [done|].
      destruct (negb (Markup.token_is_meta st)); [done|].
      destruct (String.eqb_spec (Markup.token st) "") as [|Hne]; [done|].
      intros [= <- <-]. split; [|split].
      - unfold join. simpl. rewrite string_app_nil_r.
        destruct key; apply string_app_nil_r.
      - by destruct key.
      - constructor; [split; [done|by left]|]. constructor; [done|constructor]. }
    assert (∀ st0, Markup.token st0 = "" →
      (inr (Markup.yield_token (Markup.token st) ++ [Markup.char_token char], st0)
         : Markup.failure + (list string * Markup.tokenizer))
        = inr (yielded, st') →
      join yielded +:+ Markup.token st' = Markup.token st +:+ Markup.char_token char ∧
      plain (Markup.token st') = true ∧
      Forall (λ t, t ≠ "" ∧ token_shape t) yielded) as Hstart.
    { intros st0 Hst0 [= <- <-]. rewrite join_app, join_yield_token, Hst0. split; [|split].
      - rewrite string_app_assoc. unfold join. simpl. by rewrite !string_app_nil_r.
      - done.
      - apply Forall_app. split; [by apply yield_token_shape|].
        constructor; [done|constructor]. }
    apply special_cases in Hspecial as [->|[->|[->|[->| ->]]]]; simpl.
    + by apply Hstart.
    + apply (Hend Markup.entity).
    + by apply Hstart.
    + apply (Hend Markup.group).
    + by apply Hstart.
  - intros [= <- <-]. simpl. split; [done|]. split; [|constructor].
    rewrite plain_app, Hplain. unfold Markup.char_token. cbn [plain andb].
    by rewrite Hspecial.
Qed.

Lemma tokenize_from_spec idx markup st :
  plain (Markup.token st) = true →
  Forall (λ t, t ≠ "" ∧ token_shape t) (Markup.tokenize_from idx markup st).1 ∧
  ((Markup.tokenize_from idx markup st).2 = None →
   join (Markup.tokenize_from idx markup st).1 = Markup.token st +:+ markup).
Proof.
  revert idx st. induction markup as [|char markup IH]; intros idx st Hplain; simpl.
  - unfold Markup.tokenize_end.
    destruct (negb (Markup.open_group st =? 0)%nat); [by split; [constructor|]|].
    destruct (negb (Markup.open_entity st =? 0)%nat); [by split; [constructor|]|].
    simpl. split; [by apply yield_token_shape|].
    intros _. by rewrite join_yield_token, string_app_nil_r.
  - destruct (Markup.tokenize_char idx char st) as [e|[yielded st']] eqn:Hchar;
      [by split; [constructor|]|].
    apply tokenize_char_spec in Hchar as (Hjoin & Hplain' & Hshape); [|done].
    destruct (IH (S idx) st' Hplain') as [IHshape IHjoin]. simpl. split.
    + by apply Forall_app.
    + intros Hend. rewrite join_app, (IHjoin Hend), <- string_app_assoc, Hjoin.
      by rewrite string_app_assoc.
Qed.

Lemma tokens_not_empty_and_shaped (markup : string) :
  Forall (λ t, t ≠ "" ∧ token_shape t) (Markup._tokenize_markup markup).1.
Proof. by apply tokenize_from_spec. Qed.

(** X19.  The tokens that [_tokenize_markup] yields cut the markup into
    pieces: none is empty, each is one special character or a text without
    special characters, and, when the generator ends without an error, their
    concatenation is the markup. *)
Theorem tokenize_markup_partitions (markup : string) :
  Forall (λ t, t ≠ "" ∧ token_shape t) (Markup._tokenize_markup markup).1 ∧
  ((Markup._tokenize_markup markup).2 = None →
   join (Markup._tokenize_markup markup).1 = markup).
Proof.
  unfold Markup._tokenize_markup.
  destruct (tokenize_from_spec 0 markup (Markup.mkTokenizer "" false 0 0)) as [Hshape Hjoin];
    [done|].
  split; [done|]. intros Hend. by rewrite (Hjoin Hend).
Qed.

Lemma plain_not_special (t : string) (c : ascii) :
  plain t = true → Markup.char_in c Markup.SPECIAL_CHARACTERS = true →
  String.eqb t (Markup.char_token c) = false.
Proof.
  intros Hplain Hc. apply String.eqb_neq. intros ->.
  unfold Markup.char_token in Hplain. cbn [plain] in Hplain. by rewrite Hc in Hplain.
Qed.

(** A text token goes to the raw text, outside labels. *)
Lemma parse_token_plain (st : Markup.parser) (t : string) :
  plain t = true → Markup.is_meta st = false →
  Markup.parse_token st t
  = inr (Markup.mkParser (Markup.raw_text st +:+ t) (Markup.annotations st)
           (Markup.stack st) false).
Proof.
  intros Hplain Hmeta. unfold Markup.parse_token.
  rewrite !(plain_not_special t) by done. simpl. by rewrite Hmeta.
Qed.

(** A text token is the label of the open annotation, inside labels. *)
Lemma parse_token_label (st : Markup.parser) (t : string) a stack' :
  plain t = true → Markup.is_meta st = true → Markup.stack st = a :: stack' →
  Markup.parse_token st t
  = inr (Markup.mkParser (Markup.raw_text st) (Markup.annotations st)
           (Markup.set_label a t :: stack') true).
Proof.
  intros Hplain Hmeta Hstack. unfold Markup.parse_token.
  rewrite !(plain_not_special t) by done. simpl. by rewrite Hmeta, Hstack.
Qed.

Lemma parse_token_keeps_plain (st st' : Markup.parser) (t : string) :
  token_shape t → plain (Markup.raw_text st) = true →
  Markup.parse_token st t = inr st' → plain (Markup.raw_text st') = true.
Proof.
  intros [Hplain|(c & -> & Hc)] Hraw.
  - unfold Markup.parse_token. rewrite !(plain_not_special t) by done. simpl.
    destruct (Markup.is_meta st).
    + destruct (Markup.stack st); [done|]. by intros [= <-].
    + intros [= <-]. simpl. by rewrite plain_app, Hraw, Hplain.
  - unfold Markup.parse_token.
    apply special_cases in Hc as [->|[->|[->|[->| ->]]]]; simpl;
      try (by intros [= <-]); destruct (Markup.stack st); try done; by intros [= <-].
Qed.

Lemma parse_tokens_from_keeps_plain (st st' : Markup.parser) (tokens : list string) :
  Forall token_shape tokens → plain (Markup.raw_text st) = true →
  Markup.parse_tokens_from st tokens = inr st' → plain (Markup.raw_text st') = true.
Proof.
  intros Htokens. revert st.
  induction Htokens as [|t tokens Ht _ IH]; intros st Hraw; simpl.
  - by intros [= <-].
  - destruct (Markup.parse_token st t) as [e|st1] eqn:Hstep; [done|].
    apply IH. by eapply parse_token_keeps_plain.
Qed.

Lemma tokenize_from_plain idx (s rest : string) st :
  plain s = true →
  Markup.tokenize_from idx (s +:+ rest) st
  = Markup.tokenize_from (idx + String.length s) rest
      (Markup.mkTokenizer (Markup.token st +:+ s) (Markup.token_is_meta st)
         (Markup.open_group st) (Markup.open_entity st)).
Proof.
  revert idx st. induction s as [|c s IH]; intros idx st.
  - intros _. rewrite string_app_nil_l, string_app_nil_r, Nat.add_0_r. by destruct st.
  - cbn [plain]. intros [Hc Hs]%andb_true_iff. apply negb_true_iff in Hc.
    rewrite string_app_cons. cbn [Markup.tokenize_from].
    unfold Markup.tokenize_char. rewrite Hc. rewrite (IH _ _ Hs). simpl.
    rewrite string_app_assoc. unfold Markup.char_token. rewrite string_app_cons.
    rewrite string_app_nil_l. replace (S (idx + String.length s)) with
      (idx + S (String.length s))%nat by lia.
    by destruct (Markup.tokenize_from _ rest _).
Qed.

Lemma _tokenize_markup_plain (markup : string) :
  plain markup = true →
  Markup._tokenize_markup markup = (Markup.yield_token markup, None).
Proof.
  intros Hplain. unfold Markup._tokenize_markup.
  rewrite <- (string_app_nil_r markup) at 1.
  by rewrite (tokenize_from_plain 0 markup "").
Qed.

Lemma mark_down_plain (markup : string) :
  plain markup = true → Markup.mark_down markup = inr markup.
Proof.
  intros Hplain. unfold Markup.mark_down, Markup._parse_tokens.
  rewrite _tokenize_markup_plain by done.
  destruct markup as [|c markup]; [done|].
  cbn [Markup.yield_token Markup.parse_tokens_from fst snd].
  by rewrite parse_token_plain.
Qed.

(** X20.  [mark_down] returns the text without its markup: what it
    returns holds none of the special characters [{ } [ ] |]; a text
    without special characters comes back as it is; so marking down twice
    is marking down once. *)
Theorem mark_down_removes_markup :
  (∀ markup text, Markup.mark_down markup = inr text →
                  plain text = true ∧ Markup.mark_down text = inr text) ∧
  (∀ markup, plain markup = true → Markup.mark_down markup = inr markup).
Proof.
  split; [|apply mark_down_plain].
  intros markup text Hrun.
  assert (plain text = true) as Hplain; [|by split; [|apply mark_down_plain]].
  unfold Markup.mark_down, Markup._parse_tokens in Hrun.
  destruct (Markup.parse_tokens_from _ _) as [e|st] eqn:Hparse; [done|].
  destruct (Markup._tokenize_markup markup).2; [done|]. injection Hrun as <-.
  eapply parse_tokens_from_keeps_plain; [| |exact Hparse]; [|done].
  eapply Forall_impl; [apply tokens_not_empty_and_shaped|]. by intros t [_ ?].
Qed.

(** *** One annotation *)

Lemma tokenize_from_start idx (markup : string) st :
  Markup.tokenize_from idx (String Markup.ENTITY_START markup) st
  = (Markup.yield_token (Markup.token st) ++
       "{" :: (Markup.tokenize_from (S idx) markup
                 (Markup.mkTokenizer "" (Markup.token_is_meta st) (Markup.open_group st)
                    (S (Markup.open_entity st)))).1,
     (Markup.tokenize_from (S idx) markup
        (Markup.mkTokenizer "" (Markup.token_is_meta st) (Markup.open_group st)
           (S (Markup.open_entity st)))).2).
Proof. cbn [Markup.tokenize_from]. simpl. by rewrite <- app_assoc. Qed.

Lemma tokenize_from_split idx (markup : string) st :
  Markup.tokenize_from idx (String Markup.META_SPLIT markup) st
  = (Markup.yield_token (Markup.token st) ++
       "|" :: (Markup.tokenize_from (S idx) markup
                 (Markup.mkTokenizer "" true (Markup.open_group st)
                    (Markup.open_entity st))).1,
     (Markup.tokenize_from (S idx) markup
        (Markup.mkTokenizer "" true (Markup.open_group st) (Markup.open_entity st))).2).
Proof. cbn [Markup.tokenize_from]. simpl. by rewrite <- app_assoc. Qed.

Lemma tokenize_from_end idx (markup : string) st n :
  Markup.open_entity st = S n → Markup.token_is_meta st = true → Markup.token st ≠ "" →
  Markup.tokenize_from idx (String Markup.ENTITY_END markup) st
  = (Markup.token st ::
       "}" :: (Markup.tokenize_from (S idx) markup
                 (Markup.mkTokenizer "" false (Markup.open_group st) n)).1,
     (Markup.tokenize_from (S idx) markup
        (Markup.mkTokenizer "" false (Markup.open_group st) n)).2).
Proof.
  intros Hopen Hmeta Htoken. cbn [Markup.tokenize_from].
  unfold Markup.tokenize_char. simpl. rewrite Hopen, Hmeta. simpl.
  apply String.eqb_neq in Htoken. by rewrite Htoken.
Qed.

Lemma tokenize_from_last idx (post : string) st :
  plain post = true → Markup.open_group st = 0%nat → Markup.open_entity st = 0%nat →
  Markup.tokenize_from idx post st = (Markup.yield_token (Markup.token st +:+ post), None).
Proof.
  intros Hpost Hg He. rewrite <- (string_app_nil_r post) at 1.
  rewrite tokenize_from_plain by done. cbn [Markup.tokenize_from].
  unfold Markup.tokenize_end. simpl. by rewrite Hg, He.
Qed.

Lemma parse_yield_token raw anns stack (s : string) rest :
  plain s = true →
  Markup.parse_tokens_from (Markup.mkParser raw anns stack false)
    (Markup.yield_token s ++ rest)
  = Markup.parse_tokens_from (Markup.mkParser (raw +:+ s) anns stack false) rest.
Proof.
  intros Hplain. destruct s as [|c s].
  - simpl. by rewrite string_app_nil_r.
  - cbn [Markup.yield_token Markup.parse_tokens_from app]. by rewrite parse_token_plain.
Qed.

Lemma parse_start raw anns stack meta rest :
  Markup.parse_tokens_from (Markup.mkParser raw anns stack meta) ("{" :: rest)
  = Markup.parse_tokens_from
      (Markup.mkParser raw anns
         (Markup.mkAnnotation (String.length raw) Markup.entity (length stack)
            None None None None :: stack) meta) rest.
Proof. reflexivity. Qed.

Lemma parse_split raw anns stack meta rest :
  Markup.parse_tokens_from (Markup.mkParser raw anns stack meta) ("|" :: rest)
  = Markup.parse_tokens_from (Markup.mkParser raw anns stack true) rest.
Proof. reflexivity. Qed.

Lemma parse_end raw anns a stack meta rest :
  Markup.parse_tokens_from (Markup.mkParser raw anns (a :: stack) meta) ("}" :: rest)
  = Markup.parse_tokens_from
      (Markup.mkParser raw (anns ++ [Markup.close a raw]) stack false) rest.
Proof. reflexivity. Qed.

Lemma parse_label raw anns a stack (label : string) rest :
  plain label = true →
  Markup.parse_tokens_from (Markup.mkParser raw anns (a :: stack) true) (label :: rest)
  = Markup.parse_tokens_from
      (Markup.mkParser raw anns (Markup.set_label a label :: stack) true) rest.
Proof.
  intros Hplain. cbn [Markup.parse_tokens_from]. by erewrite parse_token_label.
Qed.

Lemma substring_app_drop (pre t : string) m :
  substring (String.length pre) m (pre +:+ t) = substring 0 m t.
Proof. induction pre as [|c pre IH]; [done|]. rewrite string_app_cons. simpl. apply IH. Qed.

Lemma substring_all (t : string) : substring 0 (String.length t) t = t.
Proof. induction t as [|c t IH]; [done|]. simpl. by rewrite IH. Qed.

Lemma slice_suffix (pre t : string) :
  Markup.slice (pre +:+ t) (String.length pre) (String.length (pre +:+ t)) = t.
Proof.
  unfold Markup.slice. rewrite string_length_app, substring_app_drop.
  replace (String.length pre + String.length t - String.length pre)%nat
    with (String.length t) by lia.
  apply substring_all.
Qed.

(** X21.  One entity annotation in a text: [_parse_tokens] of the tokens
    of [pre{text|type}post] returns the raw text [pre text post] and one
    annotation, whose span indexes the raw text: it starts at the length of
    [pre], ends at the last character of [text], and carries [text] and
    [type]; a second label is the role. *)
Theorem parse_one_entity (pre t ty post : string) :
  plain pre = true → plain t = true → plain ty = true → plain post = true → ty ≠ "" →
  Markup._parse_tokens
    (Markup._tokenize_markup (pre +:+ "{" +:+ t +:+ "|" +:+ ty +:+ "}" +:+ post))
  = inr (pre +:+ t +:+ post,
         [Markup.mkAnnotation (String.length pre) Markup.entity 0
            (Some (Z.of_nat (String.length pre + String.length t) - 1))
            (Some t) (Some ty) None]) ∧
  ∀ r, plain r = true → r ≠ "" →
    Markup._parse_tokens
      (Markup._tokenize_markup
         (pre +:+ "{" +:+ t +:+ "|" +:+ ty +:+ "|" +:+ r +:+ "}" +:+ post))
    = inr (pre +:+ t +:+ post,
           [Markup.mkAnnotation (String.length pre) Markup.entity 0
              (Some (Z.of_nat (String.length pre + String.length t) - 1))
              (Some t) (Some ty) (Some r)]).
Proof.
  intros Hpre Ht Hty Hpost Hne.
  assert (∀ s : string, "{" +:+ s = String Markup.ENTITY_START s) as Hstart by done.
  assert (∀ s : string, "|" +:+ s = String Markup.META_SPLIT s) as Hsplit by done.
  assert (∀ s : string, "}" +:+ s = String Markup.ENTITY_END s) as Hend by done.
  split; [|intros r Hr Hrne].
  - unfold Markup._tokenize_markup, Markup._parse_tokens.
    rewrite Hstart, Hsplit, Hend.
    rewrite tokenize_from_plain, tokenize_from_start by done.
    rewrite tokenize_from_plain, tokenize_from_split by done.
    rewrite tokenize_from_plain by done.
    rewrite (tokenize_from_end _ _ _ 0) by (done || (simpl; by destruct ty)).
    rewrite tokenize_from_last by done.
    cbn [fst snd Markup.token Markup.token_is_meta Markup.open_group Markup.open_entity].
    rewrite !string_app_nil_l.
    rewrite parse_yield_token, parse_start, parse_yield_token, parse_split by done.
    rewrite parse_label, parse_end by done.
    rewrite <- (app_nil_r (Markup.yield_token post)), parse_yield_token by done.
    cbn [Markup.parse_tokens_from Markup.raw_text Markup.annotations].
    unfold Markup.close, Markup.set_label. simpl.
    rewrite !string_app_nil_l, slice_suffix, string_length_app, string_app_assoc.
    by rewrite Nat2Z.inj_add.
  - unfold Markup._tokenize_markup, Markup._parse_tokens.
    rewrite Hstart, !Hsplit, Hend.
    rewrite tokenize_from_plain, tokenize_from_start by done.
    rewrite tokenize_from_plain, tokenize_from_split by done.
    rewrite tokenize_from_plain, tokenize_from_split by done.
    rewrite tokenize_from_plain by done.
    rewrite (tokenize_from_end _ _ _ 0) by (done || (simpl; by destruct r)).
    rewrite tokenize_from_last by done.
    cbn [fst snd Markup.token Markup.token_is_meta Markup.open_group Markup.open_entity].
    rewrite !string_app_nil_l.
    rewrite parse_yield_token, parse_start, parse_yield_token, parse_split by done.
    destruct ty as [|c ty]; [done|]. cbn [Markup.yield_token app].
    rewrite parse_label, parse_split, parse_label, parse_end by done.
    rewrite <- (app_nil_r (Markup.yield_token post)), parse_yield_token by done.
    cbn [Markup.parse_tokens_from Markup.raw_text Markup.annotations].
    unfold Markup.close, Markup.set_label. simpl.
    rewrite !string_app_nil_l, slice_suffix, string_length_app, string_app_assoc.
    by rewrite Nat2Z.inj_add.
Qed.

(** *** Malformed markup *)

Lemma tokenize_from_raises idx char (markup : string) st e :
  Markup.tokenize_char idx char st = inl e →
  Markup.tokenize_from idx (String char markup) st = ([], Some e).
Proof. intros Hchar. cbn [Markup.tokenize_from]. by rewrite Hchar. Qed.

Lemma tokenize_from_unclosed idx (rest : string) st n :
  plain rest = true → Markup.open_group st = 0%nat → Markup.open_entity st = S n →
  Markup.tokenize_from idx rest st
  = ([], Some (Markup.MarkupError "Mismatched start for entity")).
Proof.
  intros Hrest Hg He. rewrite <- (string_app_nil_r rest) at 1.
  rewrite tokenize_from_plain by done. cbn [Markup.tokenize_from].
  unfold Markup.tokenize_end. simpl. by rewrite Hg, He.
Qed.

(** X22.  How [mark_down] fails on malformed markup.  After a text
    without special characters: an end that nothing opened, an annotation
    closed without a label and one closed with an empty label raise
    [MarkupError] with the position of the closing character; an annotation
    that is never closed raises [MarkupError]; but a text that follows a
    label separator outside any annotation raises the [IndexError] of the
    empty stack, and a separator at the very end is dropped silently. *)
Theorem mark_down_malformed (pre : string) :
  plain pre = true →
  (∀ rest,
     Markup.mark_down (pre +:+ "}" +:+ rest)
     = inl (Markup.MarkupError ("Mismatched end for entity at position "
                                +:+ pretty (String.length pre))) ∧
     Markup.mark_down (pre +:+ "]" +:+ rest)
     = inl (Markup.MarkupError ("Mismatched end for group at position "
                                +:+ pretty (String.length pre)))) ∧
  (∀ t rest, plain t = true →
     Markup.mark_down (pre +:+ "{" +:+ t +:+ "}" +:+ rest)
     = inl (Markup.MarkupError ("Missing label for entity at position "
                                +:+ pretty (String.length pre + 1 + String.length t)%nat))) ∧
  (∀ t rest, plain t = true →
     Markup.mark_down (pre +:+ "{" +:+ t +:+ "|}" +:+ rest)
     = inl (Markup.MarkupError ("Empty label for entity at position "
                                +:+ pretty (String.length pre + 1 + String.length t + 1)%nat))) ∧
  (∀ rest, plain rest = true →
     Markup.mark_down (pre +:+ "{" +:+ rest)
     = inl (Markup.MarkupError "Mismatched start for entity")) ∧
  (∀ t, plain t = true → t ≠ "" →
     Markup.mark_down (pre +:+ "|" +:+ t) = inl (Markup.Builtin IndexError)) ∧
  Markup.mark_down (pre +:+ "|") = inr pre.
Proof.
  intros Hpre.
  assert (∀ s : string, "{" +:+ s = String Markup.ENTITY_START s) as Hstart by done.
  assert (∀ s : string, "|" +:+ s = String Markup.META_SPLIT s) as Hsplit by done.
  assert (∀ s : string, "}" +:+ s = String Markup.ENTITY_END s) as Hend by done.
  assert (∀ s : string, "]" +:+ s = String Markup.GROUP_END s) as Hgend by done.
  assert (∀ s : string, "|}" +:+ s = String Markup.META_SPLIT (String Markup.ENTITY_END s))
    as Hempty by done.
  unfold Markup.mark_down, Markup._parse_tokens, Markup._tokenize_markup.
  split; [|split; [|split; [|split; [|split]]]].
  - intros rest. rewrite Hend, Hgend. rewrite !tokenize_from_plain by done.
    split; by erewrite tokenize_from_raises.
  - intros t rest Ht. rewrite Hstart, Hend.
    rewrite tokenize_from_plain, tokenize_from_start by done.
    rewrite tokenize_from_plain by done.
    erewrite tokenize_from_raises; [|reflexivity].
    cbn [fst snd Markup.token]. rewrite !string_app_nil_l.
    rewrite parse_yield_token, parse_start by done. cbn [Markup.parse_tokens_from].
    by replace (S (0 + String.length pre) + String.length t)%nat
      with (String.length pre + 1 + String.length t)%nat by lia.
  - intros t rest Ht. rewrite Hstart, Hempty.
    rewrite tokenize_from_plain, tokenize_from_start by done.
    rewrite tokenize_from_plain, tokenize_from_split by done.
    erewrite tokenize_from_raises; [|reflexivity].
    cbn [fst snd Markup.token]. rewrite !string_app_nil_l.
    rewrite parse_yield_token, parse_start, parse_yield_token, parse_split by done.
    cbn [Markup.parse_tokens_from].
    by replace (S (S (0 + String.length pre) + String.length t))%nat
      with (String.length pre + 1 + String.length t + 1)%nat by lia.
  - intros rest Hrest. rewrite Hstart.
    rewrite tokenize_from_plain, tokenize_from_start by done.
    rewrite (tokenize_from_unclosed _ _ _ 0) by done.
    cbn [fst snd Markup.token]. rewrite !string_app_nil_l.
    by rewrite parse_yield_token, parse_start by done.
  - intros t Ht Hne. rewrite Hsplit.
    rewrite tokenize_from_plain, tokenize_from_split by done.
    rewrite tokenize_from_last by done.
    cbn [fst snd Markup.token]. rewrite !string_app_nil_l.
    rewrite parse_yield_token, parse_split by done.
    destruct t as [|c t]; [done|]. cbn [Markup.yield_token Markup.parse_tokens_from].
    unfold Markup.parse_token. rewrite !(plain_not_special (String c t)) by done. done.
  - change (pre +:+ "|") with (pre +:+ String Markup.META_SPLIT "").
    rewrite tokenize_from_plain, tokenize_from_split by done.
    cbn [Markup.tokenize_from]. unfold Markup.tokenize_end.
    cbn [fst snd Markup.token Markup.open_group Markup.open_entity Nat.eqb negb
         Markup.yield_token].
    rewrite !string_app_nil_l.
    by rewrite parse_yield_token, parse_split by done.
Qed.

(** ** Construction *)

Lemma child_is_Some {C} (children : list (Label * C)) key :
  is_Some (child children key) ↔ key ∈ children.*1.
Proof.
  induction children as [|[k c] children IH]; simpl.
  - split; [by intros [? ?]|by intros ?%elem_of_nil].
  - destruct (String.eqb_spec k key) as [->|Hne].
    + split; [intros _; apply elem_of_cons; by left|by eexists].
    + rewrite IH. split; [intros ?; apply elem_of_cons; by right|].
      by intros [?|?]%elem_of_cons.
Qed.

Lemma child_foldl_set_child {C} (f : Label → C) (children : list (Label * C))
    (keys : list Label) key :
  child (foldl (λ children k, set_child children k (f k)) children keys) key
  = if bool_decide (key ∈ keys) then Some (f key) else child children key.
Proof.
  revert children. induction keys as [|k keys IH] using rev_ind; intros children.
  - cbn [foldl]. rewrite bool_decide_false; [done|]. by intros ?%elem_of_nil.
  - rewrite foldl_app. cbn [foldl]. rewrite child_set_child, IH.
    destruct (String.eqb_spec k key) as [->|Hne].
    + rewrite bool_decide_true; [done|]. apply elem_of_app. right. apply elem_of_cons. by left.
    + case_bool_decide as Hin.
      * rewrite bool_decide_true; [done|]. apply elem_of_app. by left.
      * rewrite bool_decide_false; [done|].
        intros [?|[?|?%elem_of_nil]%elem_of_cons]%elem_of_app; done.
Qed.

Lemma has_intent_new_tree app domain intent :
  has_intent (new_tree app) domain intent
  = bool_decide (domain ∈ get_domains app ∧ intent ∈ get_intents app domain).
Proof.
  unfold has_intent, new_tree. simpl. rewrite child_foldl_set_child. simpl.
  case_bool_decide as Hd.
  - unfold DomainProcessor__init__. simpl. rewrite child_foldl_set_child. simpl.
    destruct (decide (intent ∈ get_intents app domain)) as [Hi|Hi].
    + rewrite (bool_decide_true (intent ∈ _)) by done.
      rewrite bool_decide_true by by eexists. by rewrite bool_decide_true.
    + rewrite (bool_decide_false (intent ∈ _)) by done.
      rewrite bool_decide_false by by intros [? ?]. rewrite bool_decide_false; [done|].
      by intros [_ ?].
  - rewrite bool_decide_false; [done|]. by intros [? _].
Qed.

Lemma nbest_enabled_new_tree app domain intent :
  nbest_enabled (new_tree app) domain intent = false.
Proof.
  unfold nbest_enabled, new_tree. simpl. rewrite child_foldl_set_child. simpl.
  case_bool_decide; [|done].
  unfold DomainProcessor__init__. simpl. rewrite child_foldl_set_child. simpl.
  by case_bool_decide.
Qed.

Lemma enable_nbest_spec self domain intent :
  has_intent self domain intent = true →
  ∃ self',
    enable_nbest self domain intent = Ok self' ∧
    NaturalLanguageProcessor.ready self' = NaturalLanguageProcessor.ready self ∧
    NaturalLanguageProcessor.dirty self' = NaturalLanguageProcessor.dirty self ∧
    (∀ d i, has_intent self' d i = has_intent self d i) ∧
    (∀ d i, nbest_enabled self' d i
            = nbest_enabled self d i || (String.eqb domain d && String.eqb intent i)).
Proof.
  unfold has_intent, enable_nbest.
  destruct (child (NaturalLanguageProcessor.domains self) domain) as [dp|] eqn:Hd; [|done].
  intros [ip Hi]%bool_decide_eq_true. rewrite Hi.
  eexists. split; [done|]. split; [done|]. split; [done|]. split.
  - intros d i. unfold has_intent. simpl. rewrite child_set_child.
    destruct (String.eqb_spec domain d) as [<-|Hne]; [|done].
    rewrite Hd. simpl. rewrite child_set_child.
    destruct (String.eqb_spec intent i) as [<-|Hne]; [|done].
    rewrite Hi. by rewrite !bool_decide_true by by eexists.
  - intros d i. unfold nbest_enabled. simpl. rewrite child_set_child.
    destruct (String.eqb_spec domain d) as [<-|Hne]; [|by rewrite orb_false_r].
    rewrite Hd. simpl. rewrite child_set_child.
    destruct (String.eqb_spec intent i) as [<-|Hne]; [by rewrite orb_true_r|].
    by rewrite orb_false_r.
Qed.

Lemma enable_nbest_intents self domain (intents : list Label) :
  (∀ i, i ∈ intents → has_intent self domain i = true) →
  ∃ self',
    fold_result (λ self intent, enable_nbest self domain intent) self intents = Ok self' ∧
    NaturalLanguageProcessor.ready self' = NaturalLanguageProcessor.ready self ∧
    NaturalLanguageProcessor.dirty self' = NaturalLanguageProcessor.dirty self ∧
    (∀ d i, has_intent self' d i = has_intent self d i) ∧
    (∀ d i, nbest_enabled self' d i = true ↔
            nbest_enabled self d i = true ∨ (d = domain ∧ i ∈ intents)).
Proof.
  revert self. induction intents as [|intent intents IH]; intros self Hvalid.
  - exists self. do 4 (split; [done|]). intros d i. split; [by left|].
    by intros [?|[_ ?%elem_of_nil]].
  - destruct (enable_nbest_spec self domain intent) as (self1 & Hrun & Hr & Hd & Hhas & Hn).
    { apply Hvalid. apply elem_of_cons. by left. }
    destruct (IH self1) as (self' & Hrun' & Hr' & Hd' & Hhas' & Hn').
    { intros i Hi. rewrite Hhas. apply Hvalid. apply elem_of_cons. by right. }
    exists self'. simpl. rewrite Hrun. split; [done|].
    split; [by rewrite Hr'|]. split; [by rewrite Hd'|].
    split; [intros d i; by rewrite Hhas'|].
    intros d i. rewrite Hn', Hn, orb_true_iff, andb_true_iff, !String.eqb_eq.
    rewrite elem_of_cons. naive_solver.
Qed.

Lemma enable_nbest_entries self (entries : list (Label * gset Label)) :
  (∀ d s i, (d, s) ∈ entries → i ∈ s → has_intent self d i = true) →
  ∃ self',
    fold_result
      (λ self (entry : Label * gset Label),
         fold_result (λ self intent, enable_nbest self entry.1 intent) self
                     (elements entry.2))
      self entries = Ok self' ∧
    NaturalLanguageProcessor.ready self' = NaturalLanguageProcessor.ready self ∧
    NaturalLanguageProcessor.dirty self' = NaturalLanguageProcessor.dirty self ∧
    (∀ d i, has_intent self' d i = has_intent self d i) ∧
    (∀ d i, nbest_enabled self' d i = true ↔
            nbest_enabled self d i = true ∨ ∃ s, (d, s) ∈ entries ∧ i ∈ s).
Proof.
  revert self. induction entries as [|[domain s] entries IH]; intros self Hvalid.
  - exists self. do 4 (split; [done|]). intros d i. split; [by left|].
    by intros [?|(? & ?%elem_of_nil & _)].
  - destruct (enable_nbest_intents self domain (elements s))
      as (self1 & Hrun & Hr & Hd & Hhas & Hn).
    { intros i Hi%elem_of_elements. eapply Hvalid; [|done]. apply elem_of_cons. by left. }
    destruct (IH self1) as (self' & Hrun' & Hr' & Hd' & Hhas' & Hn').
    { intros d s' i Hin Hi. rewrite Hhas. eapply Hvalid; [|done]. apply elem_of_cons.
      by right. }
    exists self'. simpl. rewrite Hrun. split; [done|].
    split; [by rewrite Hr'|]. split; [by rewrite Hd'|].
    split; [intros d i; by rewrite Hhas'|].
    intros d i. rewrite Hn', Hn. setoid_rewrite elem_of_cons.
    setoid_rewrite elem_of_elements. split.
    + intros [[?|[-> ?]]|(s' & ? & ?)]; [by left|right; exists s; auto|right; eauto].
    + intros [?|(s' & [[= -> ->]|?] & ?)]; [auto|auto|right; eauto].
Qed.

Lemma fold_result_inv {A B} (body : A → B → result A) (Inv : A → Prop) acc l r :
  (∀ acc x acc', Inv acc → body acc x = Ok acc' → Inv acc') →
  Inv acc → fold_result body acc l = Ok r → Inv r.
Proof.
  intros Hbody. revert acc. induction l as [|x l IH]; intros acc Hacc; simpl.
  - by intros [= <-].
  - destruct (body acc x) as [acc'|e] eqn:Hx; [|done]. apply IH. by eapply Hbody.
Qed.

(** Every intent of a hierarchy that [extract_allowed_intents] builds is an
    intent of the tree. *)
Lemma allow_path_valid self (acc acc' : gmap Label (gset Label)) domain intent :
  (∀ d s i, acc !! d = Some s → i ∈ s → has_intent self d i = true) →
  NaturalLanguageProcessor.allow_path self acc domain intent = Ok acc' →
  ∀ d s i, acc' !! d = Some s → i ∈ s → has_intent self d i = true.
Proof.
  intros Hacc. unfold NaturalLanguageProcessor.allow_path.
  destruct (child (NaturalLanguageProcessor.domains self) domain) as [processor|] eqn:Hd;
    [|done].
  destruct (negb (String.eqb intent "*") &&
            negb (bool_decide (intent ∈ (DomainProcessor.intents processor).*1))) eqn:Hknown;
    [done|].
  set (acc1 := match acc !! domain with
               | Some _ => acc
               | None => <[domain := ∅]> acc
               end).
  assert (∀ d s i, acc1 !! d = Some s → i ∈ s → has_intent self d i = true) as Hacc1.
  { unfold acc1. destruct (acc !! domain) eqn:Hlookup; [done|].
    intros d s i. destruct (decide (d = domain)) as [->|Hne].
    - rewrite lookup_insert_eq. intros [= <-]. set_solver.
    - rewrite lookup_insert_ne by done. apply Hacc. }
  assert (∀ i, i ∈ (DomainProcessor.intents processor).*1 → has_intent self domain i = true)
    as Hintents.
  { intros i Hi. unfold has_intent. rewrite Hd. apply bool_decide_eq_true.
    by apply child_is_Some. }
  assert (∀ i, i ∈ default ∅ (acc1 !! domain) → has_intent self domain i = true) as Hpresent.
  { intros i. destruct (acc1 !! domain) as [p|] eqn:Hp; simpl; [by eapply Hacc1|set_solver]. }
  assert (∀ (new : gset Label) d s i,
            (∀ i, i ∈ new → has_intent self domain i = true) →
            <[domain := new]> acc1 !! d = Some s → i ∈ s → has_intent self d i = true)
    as Hinsert.
  { intros new d s i Hnew. destruct (decide (d = domain)) as [->|Hne].
    - rewrite lookup_insert_eq. intros [= <-]. apply Hnew.
    - rewrite lookup_insert_ne by done. apply Hacc1. }
  destruct (String.eqb_spec intent "*") as [->|Hne]; intros [= <-] d s i.
  - apply Hinsert. intros i'. rewrite foldl_union_singletons.
    intros [?|?%elem_of_list_to_set]%elem_of_union; auto.
  - apply Hinsert. intros i' [?|Hi'%elem_of_singleton]%elem_of_union; [auto|].
    subst i'. apply Hintents. simpl in Hknown. by apply negb_false_iff, bool_decide_eq_true in Hknown.
Qed.

Lemma extract_allowed_intents_valid self allowed_intents classes :
  NaturalLanguageProcessor.extract_allowed_intents self allowed_intents = Ok classes →
  ∀ d s i, classes !! d = Some s → i ∈ s → has_intent self d i = true.
Proof.
  unfold NaturalLanguageProcessor.extract_allowed_intents.
  apply (fold_result_inv _ (λ acc, ∀ d s i, acc !! d = Some s → i ∈ s →
                                            has_intent self d i = true)).
  - intros acc allowed_intent acc' Hacc. unfold NaturalLanguageProcessor.allow.
    destruct (split_on "." allowed_intent) as [|domain [|intent [|]]]; try done.
    by apply allow_path_valid.
  - intros d s i. by rewrite lookup_empty.
Qed.

(** X23.  What the constructor of the root builds.  It fails only as
    [extract_allowed_intents] fails on the configured list of n-best
    intents.  Otherwise the new processor is not ready and not dirty, its
    tree has exactly the intents of the application's domains, and n-best
    processing is enabled for exactly the intents of the hierarchy
    extracted from the configured list: for none when the list is empty. *)
Theorem constructor_enables_configured_nbest (app : App) :
  let configured := resolve_entities_using_nbest_transcripts app in
  match NaturalLanguageProcessor__init__ app with
  | Ok self =>
      NaturalLanguageProcessor.ready self = false ∧
      NaturalLanguageProcessor.dirty self = false ∧
      (∀ d i, has_intent self d i
              = bool_decide (d ∈ get_domains app ∧ i ∈ get_intents app d)) ∧
      (∀ d i, nbest_enabled self d i = true ↔
              configured ≠ [] ∧
              ∃ classes,
                NaturalLanguageProcessor.extract_allowed_intents (new_tree app) configured
                  = Ok classes ∧
                i ∈ default ∅ (classes !! d))
  | Raise e =>
      configured ≠ [] ∧
      NaturalLanguageProcessor.extract_allowed_intents (new_tree app) configured = Raise e
  end.
Proof.
  intros configured. unfold NaturalLanguageProcessor__init__. fold configured.
  destruct configured as [|allowed_intent allowed_intents] eqn:Hconfigured.
  - simpl. do 2 (split; [done|]). split; [apply has_intent_new_tree|].
    intros d i. rewrite nbest_enabled_new_tree. split; [done|]. by intros [? _].
  - replace (0 <? Z.of_nat (length (allowed_intent :: allowed_intents))) with true
      by (symmetry; apply Z.ltb_lt; simpl; lia).
    destruct (NaturalLanguageProcessor.extract_allowed_intents _ _) as [classes|e] eqn:Hextract;
      [|done].
    destruct (enable_nbest_entries (new_tree app) (map_to_list classes))
      as (self & -> & Hready & Hdirty & Hhas & Hnbest).
    { intros d s i Hin%elem_of_map_to_list. by eapply extract_allowed_intents_valid. }
    split; [done|]. split; [done|].
    split; [intros d i; by rewrite Hhas, has_intent_new_tree|].
    intros d i. rewrite Hnbest, nbest_enabled_new_tree. split.
    + intros [?|(s & Hin%elem_of_map_to_list & Hi)]; [done|]. split; [done|].
      exists classes. split; [done|]. by rewrite Hin.
    + intros (_ & classes' & [= <-] & Hi). right.
      destruct (classes !! d) as [s|] eqn:Hd; simpl in Hi; [|set_solver].
      exists s. split; [by apply elem_of_map_to_list|done].
Qed.

(** ** The properties on the examples *)

(** Two numbers that do not overlap, in three copies of the transcript. *)
Lemma align_identical_transcripts_witness :
  align_query_entities true
    (replicate 3 [number_at 5 6 "2"; number_at 10 12 "10"])
  = Ok [replicate 3 (number_at 5 6 "2"); replicate 3 (number_at 10 12 "10")].
Proof.
  apply (align_identical_transcripts span (λ e, type (entity e))
           [number_at 5 6 "2"; number_at 10 12 "10"] 2).
  - intros r [->|[->|?%elem_of_nil]%elem_of_cons]%elem_of_cons; simpl; [lia|lia|done].
  - intros [|[|i]] [|[|j]] ri rj Hij; try lia; try done.
    by intros [= <-] [= <-].
Defined.

(** The door of the smart home, without [verbose]. *)
Lemma process_query_names_children_witness :
  ∃ pq w',
    NaturalLanguageProcessor.process_query smart_home_app idle_pool (a_query close_the_door)
      None None false empty_world = (Ok pq, w') ∧
    ∃ d i processor,
      domain pq = Some d ∧ intent pq = Some i ∧
      child (NaturalLanguageProcessor.domains smart_home_app) d = Some processor ∧
      is_Some (child (DomainProcessor.intents processor) i).
Proof.
  eexists _, _. split; [vm_compute; reflexivity|].
  eapply (process_query_names_children smart_home_app idle_pool (a_query close_the_door)
            None None false empty_world).
  vm_compute. reflexivity.
Defined.

(** An application with a second domain, restricted to a domain it does
    not have; a domain restricted to an intent it does not have. *)
Lemma single_unknown_restriction_raises_KeyError_witness :
  NaturalLanguageProcessor.process_query home_and_weather_app idle_pool
    (a_query close_the_door) (Some {[ "music" := ∅ ]}) None false empty_world
  = (Raise (KeyError "music"), empty_world) ∧
  DomainProcessor.process_query smart_home idle_pool (a_query close_the_door)
    (Some {[ "lock_door" ]}) None false empty_world
  = (Raise (KeyError "lock_door"), empty_world).
Proof.
  destruct single_unknown_restriction_raises_KeyError as [Hdomain Hintent]. split.
  - apply Hdomain; [done|done|simpl; lia| |done]. by rewrite dom_singleton_L.
  - apply Hintent; [done|done|simpl; lia|done].
Defined.

(** An application without domains, and an empty list of transcripts. *)
Lemma process_query_empty_raises_IndexError_witness :
  NaturalLanguageProcessor.process_query
    (NaturalLanguageProcessor.mk true false None "now" (ranking []) [])
    idle_pool (a_query close_the_door) None None false empty_world
  = (Raise IndexError, empty_world) ∧
  DomainProcessor.process_query smart_home idle_pool (n_best []) None None false empty_world
  = (Raise IndexError, empty_world) ∧
  IntentProcessor.process_query (example_intent "smart_home" "close_door") idle_pool
    (n_best []) None false empty_world
  = (Raise IndexError, empty_world).
Proof.
  destruct process_query_empty_raises_IndexError as (Hroot & Hdomain & Hintent).
  split; [|split].
  - apply Hroot; [done|by left].
  - apply Hdomain; [done|by right].
  - by apply Hintent.
Defined.

Lemma process_query_not_verbose_no_scores_witness :
  ∃ pq w',
    NaturalLanguageProcessor.process_query tickets_app idle_pool (n_best book_2_tickets)
      None None false empty_world = (Ok pq, w') ∧
    confidence pq = mkConfidence None None None None.
Proof.
  eexists _, _. split; [vm_compute; reflexivity|].
  eapply (process_query_not_verbose_no_scores tickets_app idle_pool (n_best book_2_tickets)
            None None empty_world).
  vm_compute. reflexivity.
Defined.

Lemma process_query_verbose_scores_witness :
  ∃ pq w',
    NaturalLanguageProcessor.process_query tickets_app idle_pool (n_best book_2_tickets)
      None None true empty_world = (Ok pq, w') ∧
    ∃ d i domains intents entities roles,
      domain pq = Some d ∧ intent pq = Some i ∧
      confidence pq = mkConfidence (Some domains) (Some intents) (Some entities) (Some roles) ∧
      d ∈ domains.*1 ∧ i ∈ intents.*1 ∧ length entities = length roles.
Proof.
  eexists _, _. split; [vm_compute; reflexivity|].
  eapply (process_query_verbose_scores tickets_app idle_pool (n_best book_2_tickets)
            None None empty_world).
  vm_compute. reflexivity.
Defined.

(** No intent of the smart home has n-best processing enabled. *)
Lemma process_query_first_transcript_only_witness :
  NaturalLanguageProcessor.process_query smart_home_app idle_pool
    (n_best [close_the_door; mkQuery "close the store"]) None None false empty_world
  = NaturalLanguageProcessor.process_query smart_home_app idle_pool
      (a_query close_the_door) None None false empty_world.
Proof.
  apply process_query_first_transcript_only.
  intros d dprocessor i iprocessor Hd Hi.
  apply list_elem_of_singleton in Hd. injection Hd as -> ->.
  vm_compute in Hi.
  apply elem_of_cons in Hi as [[= -> ->]|Hi]; [done|].
  apply list_elem_of_singleton in Hi. by injection Hi as -> ->.
Defined.

Lemma verbose_drops_later_transcripts_witness :
  ∃ pq w',
    IntentProcessor.process_query book idle_pool (n_best book_2_tickets) None true empty_world
      = (Ok pq, w') ∧
    (∀ aligned, nbest_aligned_entities pq = Some aligned →
                Forall (λ group, ∃ e, group = [e]) aligned) ∧
    (∀ all, nbest_transcripts_entities pq = Some all →
            Forall (λ entities_n, entities_n = []) (tail all)).
Proof.
  eexists _, _. split; [vm_compute; reflexivity|].
  eapply (verbose_drops_later_transcripts book idle_pool (n_best book_2_tickets)
            None empty_world).
  vm_compute. reflexivity.
Defined.

(** The first transcript holds no number, the second one does. *)
Lemma verbose_empty_reference_raises_AttributeError_witness :
  ∃ w1,
    IntentProcessor.process_query book idle_pool
      (n_best [mkQuery "book tickets"; mkQuery "book 2 tickets"]) None true empty_world
    = (Raise AttributeError, w1).
Proof.
  eexists.
  eapply (verbose_empty_reference_raises_AttributeError book idle_pool
            [mkQuery "book tickets"; mkQuery "book 2 tickets"] None empty_world
            [[(0%nat, 0.5%float)]]).
  - done.
  - done.
  - vm_compute. reflexivity.
  - eexists. split; [apply elem_of_cons; by left|done].
Defined.

(** An incremental build of the ticket shop's application. *)
Lemma build_whole_tree_witness :
  ∃ self' w',
    build true None tickets_app empty_world = (Ok self', w') ∧
    NaturalLanguageProcessor.ready self' = true ∧
    NaturalLanguageProcessor.dirty self' = true ∧
    NaturalLanguageProcessor.incremental_timestamp self' = Some "now" ∧
    (NaturalLanguageProcessor.domains self').*1 = ["tickets"] ∧
    Forall (λ c, domain_tier (built true
                                (NaturalLanguageProcessor.incremental_timestamp self')) c.2)
           (NaturalLanguageProcessor.domains self').
Proof.
  eexists _, _. split; [vm_compute; reflexivity|].
  eapply (build_whole_tree true None tickets_app empty_world).
  vm_compute. reflexivity.
Defined.

Lemma load_dump_whole_tree_witness :
  (∃ self' w', load None tickets_app empty_world = (Ok self', w') ∧ whole_tree loaded self') ∧
  (∃ self' w', dump tickets_app empty_world = (Ok self', w') ∧ whole_tree dumped self').
Proof.
  destruct load_dump_whole_tree as [Hload Hdump]. split.
  - eexists _, _. split; [vm_compute; reflexivity|].
    eapply (Hload None tickets_app empty_world). vm_compute. reflexivity.
  - eexists _, _. split; [vm_compute; reflexivity|].
    eapply (Hdump tickets_app empty_world). vm_compute. reflexivity.
Defined.

(** The intent [book] as its constructor leaves it, without children, then
    built. *)
Lemma built_intent_has_entity_processors_witness :
  ∃ self' w',
    build false None (IntentProcessor__init__ ticket_shop "tickets" "book") empty_world
      = (Ok self', w') ∧
    ∃ processor,
      child (IntentProcessor.entities self') "number" = Some processor ∧
      EntityProcessor.type processor = "number" ∧
      EntityProcessor.domain processor = "tickets" ∧
      EntityProcessor.intent processor = "book" ∧
      EntityProcessor.ready processor = true.
Proof.
  eexists _, _. split; [vm_compute; reflexivity|].
  eapply (built_intent_has_entity_processors
            (IntentProcessor__init__ ticket_shop "tickets" "book") _ empty_world _ "number").
  - left. exists false, None. vm_compute. reflexivity.
  - vm_compute. apply elem_of_cons. by left.
Defined.

Lemma entity_load_tolerates_connection_error_witness :
  load None number_processor resolver_down
  = (Ok (EntityProcessor.set_dirty false (EntityProcessor.set_ready true number_processor)),
     mkWorld [(EntityProcessor.the_role_classifier number_processor, call_load);
              (EntityProcessor.the_entity_resolver number_processor, call_load)]
             (faults resolver_down) [] None).
Proof.
  by apply (entity_load_tolerates_connection_error None number_processor resolver_down
              EntityResolverConnectionError).
Defined.

Lemma process_settles_restriction_first_witness :
  NaturalLanguageProcessor_process plain_query as_is tickets_app idle_pool idle_run
    (a_text "book 2 tickets") (Some ∅) (Some []) None false empty_world
  = (Raise TypeError, empty_world) ∧
  NaturalLanguageProcessor_process plain_query as_is tickets_app idle_pool idle_run
    (a_text "book 2 tickets") None (Some ["music.play"]) None false empty_world
  = (Raise (AllowedNlpClassesKeyError "Domain: music is not in the NLP component hierarchy"),
     empty_world) ∧
  (∃ classes,
     NaturalLanguageProcessor.extract_allowed_intents tickets_app ["tickets.book"]
       = Ok classes ∧
     NaturalLanguageProcessor_process plain_query as_is tickets_app idle_pool idle_run
       (a_text "book 2 tickets") None (Some ["tickets.book"]) None false empty_world
     = NaturalLanguageProcessor_process plain_query as_is tickets_app idle_pool idle_run
         (a_text "book 2 tickets") (Some classes) None None false empty_world).
Proof.
  destruct (process_settles_restriction_first plain_query as_is tickets_app idle_pool idle_run
              (a_text "book 2 tickets") None false) as (Hboth & Hrejected & Haccepted & _).
  split; [apply Hboth|]. split.
  - apply Hrejected. vm_compute. reflexivity.
  - eexists. split; [vm_compute; reflexivity|].
    apply Haccepted. vm_compute. reflexivity.
Defined.

Lemma create_query_shape_witness :
  ∃ query w',
    create_query plain_query idle_run (n_best_texts ["book tickets"; "book 2 tickets"])
      empty_world = (Ok query, w') ∧
    query ≠ n_best [] ∧
    ∃ queries, query = n_best queries ∧ length queries = 2%nat.
Proof.
  eexists _, _. split; [vm_compute; reflexivity|].
  destruct (create_query_shape plain_query idle_run) as (_ & Hshape & _).
  edestruct (Hshape (n_best_texts ["book tickets"; "book 2 tickets"]) empty_world)
    as (Hnot_empty & _ & Hlist); [vm_compute; reflexivity|].
  split; [exact Hnot_empty|]. by apply (Hlist _ eq_refl).
Defined.

(** The intent [book] asked for a verbose answer. *)
Lemma process_names_the_processor_witness :
  ∃ d w',
    IntentProcessor_process plain_query as_is book idle_pool idle_run
      (a_text "book 2 tickets") None true empty_world = (Ok d, w') ∧
    ∃ pq w1, as_is pq w1 = (Ok d, w') ∧
      domain pq = Some "tickets" ∧ intent pq = Some "book" ∧
      confidence pq = mkConfidence None None None None.
Proof.
  eexists _, _. split; [vm_compute; reflexivity|].
  eapply (proj1 (process_names_the_processor plain_query as_is idle_pool idle_run
                   (a_text "book 2 tickets") None true empty_world _ _) book).
  vm_compute. reflexivity.
Defined.

Lemma tokenize_markup_partitions_witness :
  Markup._tokenize_markup "play {song|title} now"
  = (["play "; "{"; "song"; "|"; "title"; "}"; " now"], None) ∧
  join (Markup._tokenize_markup "play {song|title} now").1 = "play {song|title} now".
Proof.
  split; [reflexivity|].
  by apply (tokenize_markup_partitions "play {song|title} now").
Defined.

Lemma mark_down_removes_markup_witness :
  Markup.mark_down "play {song|title} now" = inr "play song now" ∧
  plain "play song now" = true ∧
  Markup.mark_down "play song now" = inr "play song now".
Proof.
  split; [reflexivity|].
  by apply (proj1 mark_down_removes_markup "play {song|title} now").
Defined.

Lemma parse_one_entity_witness :
  Markup._parse_tokens (Markup._tokenize_markup "play {song|title} now")
  = inr ("play song now",
         [Markup.mkAnnotation 5 Markup.entity 0 (Some 8) (Some "song") (Some "title") None]) ∧
  Markup._parse_tokens (Markup._tokenize_markup "play {song|title|wanted} now")
  = inr ("play song now",
         [Markup.mkAnnotation 5 Markup.entity 0 (Some 8) (Some "song") (Some "title")
            (Some "wanted")]).
Proof.
  destruct (parse_one_entity "play " "song" "title" " now") as [Htype Hrole];
    [reflexivity|reflexivity|reflexivity|reflexivity|discriminate|].
  specialize (Hrole "wanted" eq_refl ltac:(discriminate)).
  split; [exact Htype|exact Hrole].
Defined.

Lemma mark_down_malformed_witness :
  Markup.mark_down "play } now"
  = inl (Markup.MarkupError "Mismatched end for entity at position 5") ∧
  Markup.mark_down "play {song} now"
  = inl (Markup.MarkupError "Missing label for entity at position 10") ∧
  Markup.mark_down "play {song|} now"
  = inl (Markup.MarkupError "Empty label for entity at position 11") ∧
  Markup.mark_down "play {song" = inl (Markup.MarkupError "Mismatched start for entity") ∧
  Markup.mark_down "play |song" = inl (Markup.Builtin IndexError) ∧
  Markup.mark_down "play |" = inr "play ".
Proof.
  destruct (mark_down_malformed "play ") as (Hend & Hmissing & Hempty & Hopen & Hbar & Hlast);
    [done|].
  split; [apply (Hend " now")|].
  split; [by apply (Hmissing "song" " now")|].
  split; [by apply (Hempty "song" " now")|].
  split; [by apply (Hopen "song")|].
  split; [by apply (Hbar "song")|exact Hlast].
Defined.
